(** * lambdacommon::fs -- a shallow embedding of [src/system/fs.cpp]

    The file follows the layout of [fs.cpp]:

    - the lexical part of [fs::path] (decomposition, [path::iterator],
      [path::append]), for both native grammars selected by
      [LAMBDA_WINDOWS];
    - the status and metadata operations, directory enumeration and the
      tree-mutating operations of the POSIX build, written against the
      system calls they issue (class [OS]);
    - [fs::equivalent] for both builds;
    - [to_absolute] and [temp_directory_path] of the POSIX build, written
      against [realpath] and [std::getenv] (class [Environment]);
    - [time_from_FILETIME] of the Windows build, and the templates
      [min], [max] and [clamp] of [maths.h];
    - a small in-memory file system [TreeFS] that instantiates [OS], on
      which the operations are run on concrete inputs.

    Native strings are [string]s: [char] code units on the POSIX build;
    on the Windows build the [wchar_t] code units are represented on
    their 8-bit range, where [static_cast<u8>] is the identity.
    [std::error_code] values are integers of the system category, [0]
    being the cleared code; [uintmax_t] is [Z] with its wrap-around
    modulo [2^64] written out. *)

From Stdlib Require Import String Ascii List ZArith Bool Arith Lia.
Import ListNotations.

Local Open Scope string_scope.
Local Open Scope nat_scope.

(* ===================================================================== *)
(** * Native strings *)

Module Str.

(** [s[i]]; reads past the end give the terminating NUL. *)
Definition at_ (s : string) (i : nat) : ascii :=
  match String.get i s with
  | Some c => c
  | None => Ascii.zero
  end.

(** [s.substr(pos)] for [pos <= s.length()]. *)
Fixpoint substr_from (pos : nat) (s : string) : string :=
  match pos, s with
  | O, _ => s
  | S n, String _ s' => substr_from n s'
  | S _, EmptyString => EmptyString
  end.

(** [s.substr(pos, n)]. *)
Definition substr (pos n : nat) (s : string) : string :=
  String.substring pos n s.

(** [s[s.length() - 1]] of a non-empty string. *)
Definition back (s : string) : ascii :=
  at_ s (String.length s - 1).

Definition push_back (s : string) (c : ascii) : string :=
  s ++ String c EmptyString.

Definition is_empty (s : string) : bool :=
  match s with
  | EmptyString => true
  | String _ _ => false
  end.

(** Offset of the first character of [s] satisfying [f], or the length
    of [s]. *)
Fixpoint find_if (f : ascii -> bool) (s : string) : nat :=
  match s with
  | EmptyString => 0
  | String c s' => if f c then 0 else S (find_if f s')
  end.

(** [std::find(s.begin() + i, s.end(), c) - s.begin()]. *)
Definition find_from (c : ascii) (i : nat) (s : string) : nat :=
  i + find_if (Ascii.eqb c) (substr_from i s).

(** [while (i != last && *i == c) ++i]. *)
Definition skip_from (c : ascii) (i : nat) (s : string) : nat :=
  i + find_if (fun x => negb (Ascii.eqb c x)) (substr_from i s).

(** [s.find_first_of(set, i)]; [None] is [npos]. *)
Definition find_first_of (set : ascii -> bool) (i : nat) (s : string)
  : option nat :=
  let k := i + find_if set (substr_from i s) in
  if k <? String.length s then Some k else None.

(** [s.find_last_of(c)]; [None] is [npos]. *)
Fixpoint find_last_of_aux (c : ascii) (s : string) (k : nat)
         (acc : option nat) : option nat :=
  match s with
  | EmptyString => acc
  | String x s' =>
      find_last_of_aux c s' (S k) (if Ascii.eqb x c then Some k else acc)
  end.

Definition find_last_of (c : ascii) (s : string) : option nat :=
  find_last_of_aux c s 0 None.

(** [std::find_if(reverse_iterator(i), reverse_iterator(first), f).base()]:
    one past the last position below [i] that satisfies [f], or [0]. *)
Fixpoint rfind_base_aux (f : ascii -> bool) (s : string) (i k acc : nat)
  : nat :=
  match i, s with
  | S i', String c s' =>
      rfind_base_aux f s' i' (S k) (if f c then S k else acc)
  | _, _ => acc
  end.

Definition rfind_base (f : ascii -> bool) (i : nat) (s : string) : nat :=
  rfind_base_aux f s i 0 0.

(** [std::toupper] and [std::isprint] of the "C" locale. *)
Definition toupper (c : ascii) : nat :=
  let n := nat_of_ascii c in
  if (97 <=? n) && (n <=? 122) then n - 32 else n.

Definition isprint (c : ascii) : bool :=
  let n := nat_of_ascii c in
  (32 <=? n) && (n <=? 126).

End Str.

(* ===================================================================== *)
(** * [fs::path]: the lexical part *)

(** The two native grammars: [LAMBDA_WINDOWS] defined, or not. *)
Inductive platform : Type :=
| Windows
| Posix.

(** [class path]: its only data member is the native string [_path]. *)
Record path : Type := Path { _path : string }.

Definition path_eqb (a b : path) : bool := String.eqb (_path a) (_path b).

(** [path::native], [path::c_str], [path::empty], [path::assign]. *)
Definition native (p : path) : string := _path p.
Definition c_str (p : path) : string := _path p.
Definition empty (p : path) : bool := Str.is_empty (_path p).

Definition slash : ascii := "/"%char.
Definition backslash : ascii := "\"%char.
Definition colon : ascii := ":"%char.

(** Modelled from the spec: [path::preferred_separator] is declared in
    [fs.h], which is not part of the sources at hand.  The spec gives
    ["\\"] as the root directory of ["C:\\Users"] on the Windows-style
    grammar and ["/"] for the POSIX-style one. *)
Definition preferred_separator (pl : platform) : ascii :=
  match pl with
  | Windows => backslash
  | Posix => slash
  end.

Definition is_windows (pl : platform) : bool :=
  match pl with
  | Windows => true
  | Posix => false
  end.

(** [maths::min] of [maths.h]: [a < b ? a : b]. *)
Definition maths_min (a b : nat) : nat := if a <? b then a else b.

Section Lexical.

Variable pl : platform.

Let sep : ascii := preferred_separator pl.

Definition sep_string : string := String (preferred_separator pl) EmptyString.

(** ** Decomposition: [root_name], [root_directory] *)

Definition is_drive_letter (c : ascii) : bool :=
  (65 <=? Str.toupper c) && (Str.toupper c <=? 90).

Definition root_name (p : path) : path :=
  let s := _path p in
  if is_windows pl && (2 <=? String.length s)
     && is_drive_letter (Str.at_ s 0) && Ascii.eqb (Str.at_ s 1) colon
  then Path (Str.substr 0 2 s)
  else if (2 <? String.length s)
          && Ascii.eqb (Str.at_ s 0) slash && Ascii.eqb (Str.at_ s 1) slash
          && negb (Ascii.eqb (Str.at_ s 2) slash) && Str.isprint (Str.at_ s 2)
  then
    match Str.find_first_of
            (fun c => Ascii.eqb c slash || Ascii.eqb c backslash) 3 s with
    | None => Path s
    | Some pos => Path (Str.substr 0 pos s)
    end
  else Path "".

Definition root_directory (p : path) : path :=
  let root := root_name p in
  if (String.length (_path root) <? String.length (_path p))
     && Ascii.eqb (Str.at_ (_path p) (String.length (_path root))) sep
  then Path sep_string
  else Path "".

Definition has_root_name (p : path) : bool := negb (empty (root_name p)).

Definition has_root_directory (p : path) : bool :=
  negb (empty (root_directory p)).

Definition is_absolute (p : path) : bool :=
  match pl with
  | Windows => has_root_name p && has_root_directory p
  | Posix => has_root_directory p
  end.

(** ** [path::iterator]

    String iterators are offsets into the iterated string: [_first] is
    [0] and [_last] its length. *)

Record iterator : Type := Iterator {
  it_str : string;
  _pos : nat;
  _root : nat;
  _current : path
}.

Definition _first (it : iterator) : nat := 0.
Definition _last (it : iterator) : nat := String.length (it_str it).

(** [iterator::increment(pos)].  The body starts from the member [_pos];
    the parameter [pos] is not read. *)
Definition increment (it : iterator) (pos : nat) : nat :=
  let s := it_str it in
  let i := _pos it in
  let from_start := i =? _first it in
  if negb (i =? _last it) then
    if Ascii.eqb (Str.at_ s i) sep then
      let i := S i in
      if negb (i =? _last it) && Ascii.eqb (Str.at_ s i) sep then
        if from_start
           && negb (negb (i + 1 =? _last it)
                    && Ascii.eqb (Str.at_ s (i + 1)) sep)
        then Str.find_from sep (S i) s
        else Str.skip_from sep i s
      else i
    else
      let i := S i in
      if from_start && negb (i =? _last it) && Ascii.eqb (Str.at_ s i) colon
      then S i
      else Str.find_from sep i s
  else i.

(** [iterator::decrement(pos)]. *)
Definition decrement (it : iterator) (pos : nat) : nat :=
  let s := it_str it in
  let i := pos in
  if negb (i =? _first it) then
    let i := i - 1 in
    if negb (i =? _root it)
       && (negb (pos =? _last it) || negb (Ascii.eqb (Str.at_ s i) sep))
    then
      let i :=
        match pl with
        | Windows =>
            let i := Str.rfind_base
                       (fun c => Ascii.eqb c backslash || Ascii.eqb c slash
                                 || Ascii.eqb c colon) i s in
            if (_first it <? i) && Ascii.eqb (Str.at_ s i) colon
            then S i else i
        | Posix => Str.rfind_base (fun c => Ascii.eqb c slash) i s
        end in
      if (i - _first it =? 2)
         && Ascii.eqb (Str.at_ s 0) sep && Ascii.eqb (Str.at_ s 1) sep
      then i - 2 else i
    else i
  else i.

(** [iterator::update_current]. *)
Definition update_current (it : iterator) : iterator :=
  let s := it_str it in
  let pos := _pos it in
  if negb (pos =? _first it) && negb (pos =? _last it)
     && (Ascii.eqb (Str.at_ s pos) sep && negb (pos =? _root it))
     && (pos + 1 =? _last it)
  then Iterator s pos (_root it) (Path "")
  else
    let cur := Str.substr pos (increment it pos - pos) s in
    if (1 <? String.length cur) && Ascii.eqb (Str.at_ cur 0) sep
       && Ascii.eqb (Str.back cur) sep
    then Iterator s pos (_root it) (Path sep_string)
    else Iterator s pos (_root it) (Path cur).

(** [iterator::iterator(first, last, pos)].  [update_current] runs before
    [_root] is assigned; [begin] and [end], the only callers, pass
    [first] or [last] for [pos], for which [update_current] does not
    read [_root] (lemma [update_current_root_irrelevant]). *)
Definition make_iterator (s : string) (pos : nat) : iterator :=
  let it := update_current (Iterator s pos 0 (Path "")) in
  let len := String.length s in
  let root :=
    if is_windows pl && (3 <=? len) && is_drive_letter (Str.at_ s 0)
       && Ascii.eqb (Str.at_ s 1) colon && Ascii.eqb (Str.at_ s 2) sep
    then 2
    else if negb (0 =? len) && Ascii.eqb (Str.at_ s 0) sep then
      if (2 <=? len) && Ascii.eqb (Str.at_ s 1) sep
         && negb ((3 <=? len) && Ascii.eqb (Str.at_ s 2) sep)
      then increment it 0
      else 0
    else len in
  Iterator s pos root (_current it).

Definition path_begin (p : path) : iterator := make_iterator (_path p) 0.

Definition path_end (p : path) : iterator :=
  make_iterator (_path p) (String.length (_path p)).

(** [while (_pos != _last && _pos != _root && *_pos == sep
           && (_pos + 1) != _last) ++_pos;] *)
Fixpoint skip_redundant (fuel : nat) (s : string) (root pos : nat) : nat :=
  match fuel with
  | O => pos
  | S fuel' =>
      if negb (pos =? String.length s) && negb (pos =? root)
         && Ascii.eqb (Str.at_ s pos) sep
         && negb (pos + 1 =? String.length s)
      then skip_redundant fuel' s root (S pos)
      else pos
  end.

(** [iterator::operator++()]. *)
Definition iterator_incr (it : iterator) : iterator :=
  let pos := increment it (_pos it) in
  let pos := skip_redundant (String.length (it_str it)) (it_str it)
                            (_root it) pos in
  update_current (Iterator (it_str it) pos (_root it) (_current it)).

(** [iterator::operator--()]. *)
Definition iterator_decr (it : iterator) : iterator :=
  let pos := decrement it (_pos it) in
  update_current (Iterator (it_str it) pos (_root it) (_current it)).

(** [iterator::operator==] compares positions only. *)
Definition iterator_eqb (a b : iterator) : bool := _pos a =? _pos b.

(** The components visited by [for (const auto& part : p)]; every
    [operator++] moves [_pos] forward, so [fuel] above the length of the
    string is never exhausted. *)
Fixpoint components_from (fuel : nat) (it : iterator) : list path :=
  match fuel with
  | O => []
  | S fuel' =>
      if _pos it =? _last it then []
      else _current it :: components_from fuel' (iterator_incr it)
  end.

Definition components (p : path) : list path :=
  components_from (S (String.length (_path p))) (path_begin p).

(** ** [path::append]

    [append] asks [has_filename], which (through [get_filename],
    [relative_path] and [root_path]) appends again.  The knot is untied
    by passing the [has_filename] test as an argument. *)

(** The [while (iter != path.end())] loop of [append]. *)
Fixpoint append_loop (fuel : nat) (acc : string) (first : bool)
         (iter : iterator) : string :=
  match fuel with
  | O => acc
  | S fuel' =>
      if _pos iter =? _last iter then acc
      else
        let acc :=
          if negb first
             && negb (negb (Str.is_empty acc) && Ascii.eqb (Str.back acc) sep)
          then Str.push_back acc sep else acc in
        append_loop fuel' (acc ++ _path (_current iter)) false
                    (iterator_incr iter)
  end.

Definition append_with (has_filename : path -> bool) (this other : path)
  : path :=
  if empty other then
    if negb (Str.is_empty (_path this))
       && negb (Ascii.eqb (Str.back (_path this)) sep)
       && negb (Ascii.eqb (Str.back (_path this)) colon)
    then Path (Str.push_back (_path this) sep)
    else this
  else if is_absolute other
          && ((negb (String.eqb (_path this) (native (root_name this)))
               || negb (String.eqb (_path other) sep_string))
              || (has_root_name other
                  && negb (path_eqb (root_name other) (root_name this))))
  then other
  else
    let this1 :=
      if has_root_directory other then root_name this
      else if (negb (has_root_directory this) && is_absolute this)
              || has_filename this
      then Path (Str.push_back (_path this) sep)
      else this in
    let iter := path_begin other in
    let iter := if has_root_name other then iterator_incr iter else iter in
    Path (append_loop (S (String.length (_path other))) (_path this1) true
                      iter).

(** ** [root_path], [relative_path], [get_filename] *)

(** [root_name() / root_directory()].  The right operand is empty or
    the bare separator, and for both [append] returns before it would
    ask [has_filename] (lemma [root_path_append]). *)
Definition root_path (p : path) : path :=
  append_with (fun _ => false) (root_name p) (root_directory p).

Definition relative_path (p : path) : path :=
  let root := _path (root_path p) in
  Path (Str.substr_from
          (maths_min (String.length root) (String.length (_path p)))
          (_path p)).

Definition has_root_path (p : path) : bool := negb (empty (root_path p)).

Definition has_relative_path (p : path) : bool :=
  negb (empty (relative_path p)).

Definition get_filename (p : path) : path :=
  if negb (has_relative_path p) then Path ""
  else _current (iterator_decr (path_end p)).

Definition has_filename (p : path) : bool := negb (empty (get_filename p)).

Definition append (this other : path) : path :=
  append_with has_filename this other.

(** [path::get_extension]. *)
Definition get_extension (p : path) : path :=
  let file_name := native (get_filename p) in
  match Str.find_last_of "."%char file_name with
  | None => Path ""
  | Some 0 => Path ""
  | Some pos => Path (Str.substr_from pos file_name)
  end.

(** [path::to_string]: on the POSIX build the native string itself; on
    the Windows build the UTF-8 transcoding of the [lstring] service,
    the identity on the code units represented here. *)
Definition to_string (p : path) : string := _path p.

End Lexical.

(* ===================================================================== *)
(** * Vocabulary for statements about paths *)

(** Whether the character occurs in the string. *)
Fixpoint occurs (c : ascii) (s : string) : bool :=
  match s with
  | EmptyString => false
  | String x s' => Ascii.eqb x c || occurs c s'
  end.

(** Whether a native string ends in the preferred separator. *)
Definition ends_in_separator (pl : platform) (s : string) : bool :=
  negb (Str.is_empty s) && Ascii.eqb (Str.back s) (preferred_separator pl).

(** The shapes a component of a path can take: the empty path, the bare
    separator, a name free of separators, or (for the first component
    only) two separators followed by a non-empty name free of them. *)
Definition component_shape (pl : platform) (first : bool) (c : string)
  : bool :=
  String.eqb c "" || String.eqb c (sep_string pl)
  || negb (occurs (preferred_separator pl) c)
  || (first
      && match c with
         | String a (String b (String x rest)) =>
             Ascii.eqb a (preferred_separator pl)
             && Ascii.eqb b (preferred_separator pl)
             && negb (occurs (preferred_separator pl) (String x rest))
         | _ => false
         end).

(** A plain name: not empty, free of separators, no colon in second
    place, and not a root name. *)
Definition plain_name (pl : platform) (n : string) : Prop :=
  n <> "" /\ occurs (preferred_separator pl) n = false
  /\ Str.at_ n 1 <> colon /\ has_root_name pl (Path n) = false.


(** [plain_name], decided. *)
Definition plain_nameb (pl : platform) (n : string) : bool :=
  negb (Str.is_empty n) && negb (occurs (preferred_separator pl) n)
  && negb (Ascii.eqb (Str.at_ n 1) colon)
  && negb (has_root_name pl (Path n)).

(** The native string that spells a list of names on the POSIX
    grammar: the names in order, with one separator between two of
    them. *)
Fixpoint spell (names : list string) : string :=
  match names with
  | [] => ""
  | n :: rest =>
      match rest with
      | [] => n
      | _ :: _ => n ++ "/" ++ spell rest
      end
  end.

(** The paths that [append] puts together from plain names on the POSIX
    grammar: not empty, not starting with two separators, not ending in
    one. *)
Definition grown (acc : string) : Prop :=
  acc <> ""
  /\ Ascii.eqb (Str.at_ acc 0) "/" && Ascii.eqb (Str.at_ acc 1) "/" = false
  /\ Ascii.eqb (Str.back acc) "/" = false.

(** The number of characters [iterator::increment] moves over when
    [_pos] stands at the start of the suffix [t] of the iterated string;
    [from_start] says that the suffix is the whole string.  This is
    [increment] read off the suffix alone, as lemma [increment_step]
    shows; it serves the proofs about the traversal. *)
Definition step (pl : platform) (from_start : bool) (t : string) : nat :=
  let sep := preferred_separator pl in
  match t with
  | EmptyString => 0
  | String a t1 =>
      if Ascii.eqb a sep then
        match t1 with
        | String b t2 =>
            if Ascii.eqb b sep then
              if from_start
                 && negb (negb (Str.is_empty t2) && Ascii.eqb (Str.at_ t2 0) sep)
              then 2 + Str.find_if (Ascii.eqb sep) t2
              else 1 + Str.find_if (fun x => negb (Ascii.eqb sep x)) t1
            else 1
        | EmptyString => 1
        end
      else
        if from_start && negb (Str.is_empty t1)
           && Ascii.eqb (Str.at_ t1 0) colon
        then 2
        else 1 + Str.find_if (Ascii.eqb sep) t1
  end.


(* ===================================================================== *)
(** * Error codes, [stat] results and file status *)

(** [std::error_code] of the system category: its value, [0] when clear. *)
Definition error_code : Type := Z.

Definition ec_clear : error_code := 0%Z.

(** [if (ec)]. *)
Definition ec_set (ec : error_code) : bool := negb (ec =? 0)%Z.

(** [errno] values of <cerrno> (Linux numbering). *)
Definition ENOENT : positive := 2%positive.
Definition EACCES : positive := 13%positive.
Definition EBUSY : positive := 16%positive.
Definition EEXIST : positive := 17%positive.
Definition ENOTDIR : positive := 20%positive.
Definition EINVAL : positive := 22%positive.
Definition ENOTEMPTY : positive := 39%positive.
Definition ELOOP : positive := 40%positive.
Definition ENAMETOOLONG : positive := 36%positive.

(** [#define ERROR_INVALID_PARAMETER EINVAL],
    [#define ERROR_PATH_NOT_FOUND ENOENT]. *)
Definition ERROR_INVALID_PARAMETER : error_code := Zpos EINVAL.
Definition ERROR_PATH_NOT_FOUND : error_code := Zpos ENOENT.

(** The outcome of a system call: success with a value, or failure with
    the (non-zero) [errno] it leaves. *)
Inductive sysres (A : Type) : Type :=
| Ok (a : A)
| Err (errno : positive).

Arguments Ok {A} a.
Arguments Err {A} errno.

(** [struct stat], the fields read by [fs.cpp]. *)
Record stat_t : Type := Stat {
  st_mode : Z;
  st_nlink : Z;
  st_size : Z;
  st_mtime : Z;
  st_dev : Z;
  st_ino : Z
}.

(** <sys/stat.h>: the file type bits of [st_mode]. *)
Definition S_IFMT : Z := 61440.   (* 0170000 *)
Definition S_IFSOCK : Z := 49152. (* 0140000 *)
Definition S_IFLNK : Z := 40960.  (* 0120000 *)
Definition S_IFREG : Z := 32768.  (* 0100000 *)
Definition S_IFBLK : Z := 24576.  (* 0060000 *)
Definition S_IFDIR : Z := 16384.  (* 0040000 *)
Definition S_IFCHR : Z := 8192.   (* 0020000 *)
Definition S_IFIFO : Z := 4096.   (* 0010000 *)

Definition S_ISTYPE (mode mask : Z) : bool := (Z.land mode S_IFMT =? mask)%Z.

Inductive file_type : Type :=
| ft_not_found
| ft_unknown
| ft_none
| ft_regular
| ft_directory
| ft_symlink
| ft_character
| ft_block
| ft_fifo
| ft_socket.

Definition file_type_eqb (a b : file_type) : bool :=
  match a, b with
  | ft_not_found, ft_not_found | ft_unknown, ft_unknown | ft_none, ft_none
  | ft_regular, ft_regular | ft_directory, ft_directory
  | ft_symlink, ft_symlink | ft_character, ft_character
  | ft_block, ft_block | ft_fifo, ft_fifo | ft_socket, ft_socket => true
  | _, _ => false
  end.

(** [enum class perms] as its bit mask. *)
Definition perms : Type := Z.

(** Modelled from the spec: [perms::unknown] and [perms::all] are
    declared in [fs.h], which is not part of the sources at hand; they
    take the values of the standard filesystem library the file says it
    follows. *)
Definition perms_unknown : perms := 65535%Z.
Definition perms_all : perms := 511%Z.

Record file_status : Type := FileStatus {
  type : file_type;
  prms : perms
}.

(** [fs.prms], where a parameter named [prms] is in scope. *)
Definition status_prms (s : file_status) : perms := prms s.

(** [{file_type::X}]: a status built from the type alone. *)
Definition status_of_type (t : file_type) : file_status :=
  FileStatus t perms_unknown.

(** Modelled from the spec: [fs::is_directory(file_status)] is declared
    in [fs.h], which is not part of the sources at hand; the status is a
    directory when its type is [directory]. *)
Definition is_directory (s : file_status) : bool :=
  file_type_eqb (type s) ft_directory.

(** [file_status_from_st_mode], POSIX branch. *)
Definition file_status_from_st_mode (mode : Z) : file_status :=
  let ft :=
    if S_ISTYPE mode S_IFDIR then ft_directory
    else if S_ISTYPE mode S_IFREG then ft_regular
    else if S_ISTYPE mode S_IFCHR then ft_character
    else if S_ISTYPE mode S_IFBLK then ft_block
    else if S_ISTYPE mode S_IFIFO then ft_fifo
    else if S_ISTYPE mode S_IFLNK then ft_symlink
    else if S_ISTYPE mode S_IFSOCK then ft_socket
    else ft_unknown in
  FileStatus ft (Z.land mode 4095).

(** [uintmax_t]. *)
Definition uintmax_wrap (z : Z) : Z := (z mod 2 ^ 64)%Z.

(** [static_cast<uintmax_t>(-1)]. *)
Definition uintmax_unknown : Z := uintmax_wrap (-1).

(** [static_cast<int>(n)] of a [size_t]. *)
Definition int_of_size_t (n : Z) : Z :=
  ((n + 2 ^ 31) mod 2 ^ 32 - 2 ^ 31)%Z.

(** [size_t] arithmetic. *)
Definition size_t_wrap (z : Z) : Z := (z mod 2 ^ 64)%Z.

(** [file_time_type]: [(file_time_type::min)()] or
    [system_clock::from_time_t(t)]. *)
Inductive file_time_type : Type :=
| file_time_min
| from_time_t (t : Z).

(** [class filesystem_error]: message, offending paths, code. *)
Record filesystem_error : Type := FilesystemError {
  what : string;
  path1 : option path;
  path2 : option path;
  code : error_code
}.

(** A call of a throwing form: it returns, or raises. *)
Inductive outcome (A : Type) : Type :=
| Returns (a : A)
| Throws (e : filesystem_error).

Arguments Returns {A} a.
Arguments Throws {A} e.

Definition raised {A : Type} (o : outcome A) : bool :=
  match o with
  | Returns _ => false
  | Throws _ => true
  end.

(* ===================================================================== *)
(** * The system calls issued by the POSIX build *)

(** The operating system as [fs.cpp] sees it.  [fsys] is the state of
    the file system; a query reads it, a mutating call returns the new
    state or fails leaving it as it was.  [sys_opendir] gives the stream
    of results that successive [readdir] calls on the opened directory
    return, the empty stream being the end of the directory; the stream
    is that of the directory as it was opened.
    [sys_readlink fs p n] gives the bytes placed in a buffer of [n]
    bytes.  [get_error_message] is [system::get_error_message] of
    [system.h], not part of the sources at hand. *)
Class OS : Type := {
  fsys : Type;
  sys_lstat : fsys -> string -> sysres stat_t;
  sys_stat : fsys -> string -> sysres stat_t;
  sys_opendir : fsys -> string -> sysres (list (sysres string));
  sys_remove : fsys -> string -> sysres fsys;
  sys_mkdir : fsys -> string -> Z -> sysres fsys;
  sys_chmod : fsys -> string -> Z -> sysres fsys;
  sys_readlink : fsys -> string -> Z -> sysres string;
  get_error_message : Z -> string
}.

(* ===================================================================== *)
(** * Status, metadata and tree-mutating operations (POSIX build) *)

Section Operations.

Context {os : OS}.

Local Open Scope Z_scope.

(** [operator/] and [operator/=] of the POSIX build. *)
Let join (a b : path) : path := append Posix a b.

(** ** Status *)

(** [internal_status(p, ec, hard_link_count, lwt)].  The third
    component is the [stat] buffer from which [*hard_link_count] and
    [*lwt] are written when the entry was found. *)
Definition internal_status (fs : fsys) (p : path)
  : file_status * error_code * option stat_t :=
  match sys_lstat fs (c_str p) with
  | Ok st =>
      let fs0 := file_status_from_st_mode (st_mode st) in
      if file_type_eqb (type fs0) ft_symlink then
        match sys_stat fs (c_str p) with
        | Ok st' => (file_status_from_st_mode (st_mode st'), ec_clear, Some st')
        | Err _ => (fs0, ec_clear, Some st)
        end
      else (fs0, ec_clear, Some st)
  | Err error =>
      if (error =? ENOENT)%positive
      then (FileStatus ft_not_found perms_unknown, Zpos error, None)
      else (status_of_type ft_none, Zpos error, None)
  end.

(** [path::status(ec)]. *)
Definition status (fs : fsys) (p : path) : file_status * error_code :=
  let '(s, ec, _) := internal_status fs p in (s, ec).

(** [path::symlink_status(ec)]; the POSIX branch queries with
    [__STAT_METHOD], which is [::stat]. *)
Definition symlink_status (fs : fsys) (p : path)
  : file_status * error_code :=
  match sys_stat fs (c_str p) with
  | Ok st => (file_status_from_st_mode (st_mode st), ec_clear)
  | Err error =>
      if (error =? ENOENT)%positive
      then (FileStatus ft_not_found perms_unknown, Zpos error)
      else (status_of_type ft_none, Zpos error)
  end.

(** [path::exists]. *)
Definition exists_ (fs : fsys) (p : path) : bool :=
  match sys_stat fs (to_string p) with
  | Ok _ => true
  | Err _ => false
  end.

(** [path::get_file_type(ec)]. *)
Definition get_file_type (fs : fsys) (p : path) : file_type * error_code :=
  let '(s, ec) := status fs p in (type s, ec).

(** ** [file_size], [last_write_time] *)

Definition file_size_ec (fs : fsys) (p : path) : Z * error_code :=
  match sys_stat fs (c_str p) with
  | Err errno => (uintmax_unknown, Zpos errno)
  | Ok st => (uintmax_wrap (st_size st), ec_clear)
  end.

Definition file_size (fs : fsys) (p : path) : outcome Z :=
  let '(result, ec) := file_size_ec fs p in
  if ec_set ec
  then Throws (FilesystemError ("file_size -- " ++ get_error_message ec)
                               (Some p) None ec)
  else Returns result.

Definition last_write_time_ec (fs : fsys) (p : path)
  : file_time_type * error_code :=
  let '(_, ec, st) := internal_status fs p in
  let result := match st with Some st => st_mtime st | None => 0 end in
  (if ec_set ec then file_time_min else from_time_t result, ec).

Definition last_write_time (fs : fsys) (p : path) : outcome file_time_type :=
  let '(result, ec) := last_write_time_ec fs p in
  if ec_set ec
  then Throws (FilesystemError
                 ("last_write_time -- " ++ get_error_message ec)
                 (Some p) None ec)
  else Returns result.

(** ** [permissions] *)

Section Permissions.

(** The enumerators of [enum class perm_options], declared in [fs.h]
    (not part of the sources at hand), as bit masks. *)
Variables po_replace po_add po_remove po_nofollow : Z.

(** The mask handed to [::chmod]: [prms] as rewritten by the
    [if ((opts & perm_options::replace) != perm_options::replace)]
    block.  The operators [&], [|] and [~] of the two enumerations are
    those of [fs.h], the bitwise ones. *)
Definition permissions_mask (prms : perms) (opts : Z) (st : file_status)
  : perms :=
  if negb (Z.land opts po_replace =? po_replace) then
    if Z.land opts po_add =? po_add
    then Z.lor (status_prms st) prms
    else Z.land (status_prms st) (Z.lnot prms)
  else prms.

(** [path::permissions(prms, opts, ec)]; [ec] is the caller's code on
    entry, which the function does not clear. *)
Definition permissions_ec (prms : perms) (opts : Z) (ec : error_code)
           (fs : fsys) (p : path) : fsys * error_code :=
  if Z.land opts (Z.lor (Z.lor po_replace po_add) po_remove) =? 0
  then (fs, ERROR_INVALID_PARAMETER)
  else
    let '(st, ec) := symlink_status fs p in
    let prms := permissions_mask prms opts st in
    if negb (Z.land opts po_nofollow =? po_nofollow) then
      match sys_chmod fs (c_str p) prms with
      | Ok fs' => (fs', ec)
      | Err errno => (fs, Zpos errno)
      end
    else (fs, ec).

End Permissions.

(** ** [read_symlink] *)

(** The [while (true)] loop of the POSIX branch: one [readlink] per
    round, into a buffer of [buffer_size] bytes. *)
Fixpoint readlink_loop (fuel : nat) (fs : fsys) (p : path)
         (buffer_size : Z) (ec : error_code)
  : option (path * error_code) :=
  match fuel with
  | O => None
  | S fuel' =>
      match sys_readlink fs (c_str p) buffer_size with
      | Err errno => Some (Path "", Zpos errno)
      | Ok buffer =>
          let rc := Z.of_nat (String.length buffer) in
          if rc <? int_of_size_t buffer_size
          then Some (Path buffer, ec)
          else readlink_loop fuel' fs p (size_t_wrap (buffer_size * 2)) ec
      end
  end.

(** [path::read_symlink(ec)]; [None] when [fuel] rounds of the loop do
    not suffice. *)
Definition read_symlink_ec (fuel : nat) (fs : fsys) (p : path)
  : option (path * error_code) :=
  let '(type, ec) := get_file_type fs p in
  if negb (file_type_eqb type ft_symlink)
  then Some (Path "", ERROR_INVALID_PARAMETER)
  else readlink_loop fuel fs p 256 ec.

(** ** [mkdir], [mkdirs] *)

(** [path::mkdir(prms, ec)]: the new state, the result, the code. *)
Definition mkdir_ec (prms : perms) (fs : fsys) (p : path)
  : fsys * bool * error_code :=
  let '(st, ec1) := status fs p in
  if negb (file_type_eqb (type st) ft_none) && exists_ fs p
  then (fs, false, ec_clear)
  else
    match sys_mkdir fs (c_str p) prms with
    | Err errno => (fs, false, Zpos errno)
    | Ok fs' => (fs', true, ec_clear)
    end.

Definition mkdir (prms : perms) (fs : fsys) (p : path)
  : fsys * outcome bool :=
  let '(fs', result, ec) := mkdir_ec prms fs p in
  if ec_set ec
  then (fs', Throws (FilesystemError
                       ("path::mkdir -- " ++ get_error_message ec)
                       (Some p) None ec))
  else (fs', Returns result).

(** The body of the [for (const auto& part : *this)] loop of
    [mkdirs(ec)], over the parts still to visit. *)
Fixpoint mkdirs_loop (parts : list path) (root_name_v root_path_v : path)
         (fs : fsys) (current : path) (ec : error_code)
  : fsys * bool * error_code :=
  match parts with
  | [] => (fs, true, ec)
  | part :: parts' =>
      if path_eqb part root_name_v
      then mkdirs_loop parts' root_name_v root_path_v fs part ec
      else
        let current := join current part in
        if negb (path_eqb current root_name_v)
           && negb (path_eqb current root_path_v)
        then
          let '(st, ec1) := status fs current in
          if ec_set ec1 && negb (file_type_eqb (type st) ft_not_found)
          then (fs, false, ec1)
          else if negb (exists_ fs current) then
            let '(fs', _, ec) := mkdir_ec perms_all fs current in
            if ec_set ec then (fs', false, ec)
            else mkdirs_loop parts' root_name_v root_path_v fs' current ec
          else if negb (file_type_eqb (type st) ft_directory)
          then (fs, false, ec)
          else mkdirs_loop parts' root_name_v root_path_v fs current ec
        else mkdirs_loop parts' root_name_v root_path_v fs current ec
  end.

(** [path::mkdirs(ec)]. *)
Definition mkdirs_ec (fs : fsys) (p : path) : fsys * bool * error_code :=
  mkdirs_loop (components Posix p) (root_name Posix p) (root_path Posix p)
              fs (Path "") ec_clear.

(** [path::mkdirs()]: the code is tested right after its declaration,
    and [mkdirs(ec)] is called in the [return] statement. *)
Definition mkdirs (fs : fsys) (p : path) : fsys * outcome bool :=
  let ec := ec_clear in
  if ec_set ec
  then (fs, Throws (FilesystemError
                      ("path::mkdirs -- " ++ get_error_message ec)
                      (Some p) None ec))
  else
    let '(fs', result, _) := mkdirs_ec fs p in
    (fs', Returns result).

(** ** [remove] *)

Definition remove_ec (fs : fsys) (p : path) : fsys * bool * error_code :=
  match sys_remove fs (c_str p) with
  | Err error =>
      if (error =? ENOENT)%positive then (fs, false, ec_clear)
      else (fs, false, Zpos error)
  | Ok fs' => (fs', true, ec_clear)
  end.

Definition remove (fs : fsys) (p : path) : fsys * outcome bool :=
  let '(fs', result, ec) := remove_ec fs p in
  if ec_set ec
  then (fs', Throws (FilesystemError
                       ("path::remove -- " ++ get_error_message ec)
                       (Some p) None ec))
  else (fs', Returns result).

(** ** [directory_entry] and [directory_iterator] *)

(** [class directory_entry]: its only data member is [_path]. *)
Record directory_entry : Type := DirectoryEntry { de_path : path }.

(** [directory_entry::status(ec)]. *)
Definition directory_entry_status (fs : fsys) (e : directory_entry)
  : file_status * error_code :=
  status fs (de_path e).

(** [directory_iterator::impl], POSIX members: [_dir] is the open
    stream ([None] once reset or never opened) and [_entry] the name
    last read into the buffer. *)
Record impl : Type := Impl {
  _base : path;
  _dir : option (list (sysres string));
  _entry : string;
  impl_current : path;
  _dir_entry : directory_entry;
  impl_ec : error_code
}.

(** The [do ... while] loop of [impl::increment], over the stream of
    [_dir]; the second component is the caller's code. *)
Fixpoint impl_increment_loop (stream : list (sysres string)) (i : impl)
         (ec : error_code) : impl * error_code :=
  match stream with
  | [] =>
      (Impl (_base i) None (_entry i) (Path "") (_dir_entry i) (impl_ec i),
       ec)
  | Ok d_name :: stream' =>
      let current := join (_base i) (Path d_name) in
      let i' := Impl (_base i) (Some stream') d_name current
                     (DirectoryEntry current) (impl_ec i) in
      if String.eqb d_name "." || String.eqb d_name ".."
      then impl_increment_loop stream' i' ec
      else (i', ec)
  | Err errno :: stream' =>
      (Impl (_base i) (Some stream') (_entry i) (Path "") (_dir_entry i)
            (impl_ec i),
       Zpos errno)
  end.

(** [impl::increment(ec)]. *)
Definition impl_increment (i : impl) (ec : error_code)
  : impl * error_code :=
  match _dir i with
  | Some stream => impl_increment_loop stream i ec
  | None => (i, ec)
  end.

(** [impl::impl(path p)]; its first [increment] reports into the
    member [ec]. *)
Definition impl_new (fs : fsys) (p : path) : impl :=
  let base := p in
  let opened :=
    if empty base then Ok None
    else match sys_opendir fs (c_str base) with
         | Ok stream => Ok (Some stream)
         | Err errno => Err errno
         end in
  let dir := match opened with Ok d => d | Err _ => None end in
  let i := Impl base dir "" (Path "") (DirectoryEntry (Path "")) ec_clear in
  if negb (empty base) then
    match opened with
    | Err error =>
        Impl (Path "") None "" (Path "") (DirectoryEntry (Path ""))
             (if negb (error =? EACCES)%positive then Zpos error
              else ec_clear)
    | Ok _ =>
        let '(i', ec') := impl_increment i (impl_ec i) in
        Impl (_base i') (_dir i') (_entry i') (impl_current i')
             (_dir_entry i') ec'
    end
  else i.

(** [directory_iterator::directory_iterator(p, ec)]. *)
Definition directory_iterator_ec (fs : fsys) (p : path) (ec : error_code)
  : impl * error_code :=
  let i := impl_new fs p in
  (i, if ec_set (impl_ec i) then impl_ec i else ec).

(** [iter != directory_iterator()]: the default-constructed iterator
    has the empty [_current]. *)
Definition not_at_end (i : impl) : bool :=
  negb (path_eqb (impl_current i) (Path "")).

(** The entries ["."] and [".."] of a directory stream. *)
Definition dot_entry (r : sysres string) : Prop :=
  r = Ok "."%string \/ r = Ok ".."%string.

Definition stream_length (i : impl) : nat :=
  match _dir i with
  | Some stream => List.length stream
  | None => 0%nat
  end.

(** ** [remove_all] *)

(** How the [for] loop of [remove_all(ec)] is left: by a [return]
    inside it, or by falling out of it. *)
Inductive loop_exit : Type :=
| Returned (fs : fsys) (result : Z) (ec : error_code)
| Left_loop (fs : fsys) (count : Z) (ec : error_code).

(** The test that sends a child to the recursive call:
    [iter_fs.type != file_type::symlink && fs::is_directory(iter_fs)]. *)
Definition child_is_recursed (iter_fs : file_status) : bool :=
  negb (file_type_eqb (type iter_fs) ft_symlink) && is_directory iter_fs.

(** The [for] loop of [remove_all(ec)], entered with the iterator
    [iter]; [rec] is the recursive call of [remove_all(ec)] on the entry.  The
    condition is tested at most [k] times: once for the entry the
    iterator starts at, once per entry left in its stream, and once at
    the end (lemma [remove_all_loop_completes]). *)
Fixpoint remove_all_loop
         (rec : fsys -> path -> option (fsys * Z * error_code))
         (k : nat) (iter : impl) (fs : fsys) (count : Z) (ec : error_code)
  : option loop_exit :=
  match k with
  | O => None
  | S k' =>
      if negb (not_at_end iter) then Some (Left_loop fs count ec)
      else if ec_set ec then Some (Left_loop fs count ec)
      else
        let '(iter_fs, ec) := directory_entry_status fs (_dir_entry iter) in
        if child_is_recursed iter_fs then
          match rec fs (de_path (_dir_entry iter)) with
          | None => None
          | Some (fs', n, ec) =>
              let count := uintmax_wrap (count + n) in
              if ec_set ec then Some (Returned fs' uintmax_unknown ec)
              else
                let '(iter', ec) := impl_increment iter ec in
                remove_all_loop rec k' iter' fs' count ec
          end
        else
          let '(fs', _, ec) := remove_ec fs (de_path (_dir_entry iter)) in
          if ec_set ec then Some (Returned fs' uintmax_unknown ec)
          else
            let count := uintmax_wrap (count + 1) in
            let '(iter', ec) := impl_increment iter ec in
            remove_all_loop rec k' iter' fs' count ec
  end.

(** [path::remove_all(ec)]: the new state, the count, the code.  [fuel]
    bounds the depth of the recursion. *)
Fixpoint remove_all_ec (fuel : nat) (fs : fsys) (p : path)
  : option (fsys * Z * error_code) :=
  match fuel with
  | O => None
  | S fuel' =>
      if path_eqb p (Path "/") then Some (fs, uintmax_unknown, ec_clear)
      else
        let '(st, tec) := status fs p in
        let traversal :=
          if exists_ fs p && is_directory st then
            let '(iter, ec) := directory_iterator_ec fs p ec_clear in
            remove_all_loop (remove_all_ec fuel') (S (S (stream_length iter)))
                            iter fs 0 ec
          else Some (Left_loop fs 0 ec_clear) in
        match traversal with
        | None => None
        | Some (Returned fs' result ec) => Some (fs', result, ec)
        | Some (Left_loop fs1 count ec) =>
            let '(fs2, count, ec) :=
              if negb (ec_set ec) then
                let '(fs2, removed, ec) := remove_ec fs1 p in
                (fs2, if removed then uintmax_wrap (count + 1) else count, ec)
              else (fs1, count, ec) in
            if ec_set ec then Some (fs2, uintmax_unknown, ec)
            else Some (fs2, count, ec)
        end
  end.

(** [path::remove_all()]. *)
Definition remove_all (fuel : nat) (fs : fsys) (p : path)
  : option (fsys * outcome Z) :=
  match remove_all_ec fuel fs p with
  | None => None
  | Some (fs', result, ec) =>
      if ec_set ec
      then Some (fs', Throws (FilesystemError
                                ("path::remove_all -- "
                                 ++ get_error_message ec)
                                (Some p) None ec))
      else Some (fs', Returns result)
  end.

(** ** [equivalent], POSIX branch *)

(** [fs::equivalent(path1, path2, ec)].  [errno] is read after the
    first [::stat] whether or not it failed, so the value it had before
    the call is an input. *)
Definition equivalent_ec (errno0 : Z) (fs : fsys) (path1 path2 : path)
  : bool * error_code :=
  let rc1 := sys_stat fs (c_str path1) in
  let errno1 := match rc1 with Err e => Zpos e | Ok _ => errno0 end in
  let e1 := errno1 in
  let rc2 := sys_stat fs (c_str path2) in
  let errno2 := match rc2 with Err e => Zpos e | Ok _ => errno1 end in
  match rc1, rc2 with
  | Ok st1, Ok st2 =>
      ((st_dev st1 =? st_dev st2) && (st_ino st1 =? st_ino st2)
       && (st_size st1 =? st_size st2) && (st_mtime st1 =? st_mtime st2),
       ec_clear)
  | Err _, Err _ => (false, if negb (e1 =? 0) then e1 else errno2)
  | _, _ => (false, ec_clear)
  end.

End Operations.

(* ===================================================================== *)
(** * Further queries and throwing forms (POSIX build) *)

Section MoreOperations.

Context {os : OS}.

Local Open Scope Z_scope.

(** [path::status()], [path::symlink_status()] and
    [path::get_file_type()]: the forms without a code declare one of
    their own, and return the result whatever the code holds. *)
Definition status_no_ec (fs : fsys) (p : path) : file_status :=
  let '(result, ec) := status fs p in result.

Definition symlink_status_no_ec (fs : fsys) (p : path) : file_status :=
  let '(result, ec) := symlink_status fs p in result.

Definition get_file_type_no_ec (fs : fsys) (p : path) : file_type :=
  type (status_no_ec fs p).

(** [path::is_directory()], [path::is_file()], [path::is_symlink()]. *)
Definition path_is_directory (fs : fsys) (p : path) : bool :=
  file_type_eqb (get_file_type_no_ec fs p) ft_directory.

Definition path_is_file (fs : fsys) (p : path) : bool :=
  file_type_eqb (get_file_type_no_ec fs p) ft_regular.

Definition path_is_symlink (fs : fsys) (p : path) : bool :=
  file_type_eqb (get_file_type_no_ec fs p) ft_symlink.

(** [path::get_size()]: it returns, or raises a [std::runtime_error]
    with a message. *)
Inductive size_outcome : Type :=
| Size (n : Z)
| Runtime_error (what : string).

Definition double_quote : string := String (ascii_of_nat 34) EmptyString.

Definition get_size (fs : fsys) (p : path) : size_outcome :=
  if negb (exists_ fs p) then Size 0
  else
    match sys_stat fs (to_string p) with
    | Err _ =>
        Runtime_error ("lambdacommon::fs::path.get_size(): cannot stat file "
                       ++ double_quote ++ to_string p ++ double_quote ++ "!")
    | Ok sb => Size (size_t_wrap (st_size sb))
    end.

(** [path::hard_link_count(ec)], POSIX branch: [internal_status] writes
    [st_nlink] of its buffer into [result] when [::lstat] found the
    entry. *)
Definition hard_link_count_ec (fs : fsys) (p : path) : Z * error_code :=
  let '(st, ec, buf) := internal_status fs p in
  let result :=
    match buf with
    | Some b => size_t_wrap (st_nlink b)
    | None => 0
    end in
  let ec :=
    if file_type_eqb (type st) ft_not_found then ERROR_PATH_NOT_FOUND
    else ec in
  (if ec_set ec then size_t_wrap (-1) else result, ec).

Definition hard_link_count (fs : fsys) (p : path) : outcome Z :=
  let '(result, ec) := hard_link_count_ec fs p in
  if ec_set ec
  then Throws (FilesystemError
                 ("hard_link_count -- " ++ get_error_message ec)
                 (Some p) None ec)
  else Returns result.

(** The part of a directory stream that starts at its first result
    other than the entries ["."] and [".."]. *)
Fixpoint skip_dots (stream : list (sysres string)) : list (sysres string) :=
  match stream with
  | Ok d_name :: stream' =>
      if String.eqb d_name "." || String.eqb d_name ".."
      then skip_dots stream' else stream
  | _ => stream
  end.

End MoreOperations.

(* ===================================================================== *)
(** * [to_absolute] and [temp_directory_path] (POSIX build) *)

(** [realpath] and [std::getenv] as [to_absolute] and
    [temp_directory_path] call them: [sys_realpath fs p] is the resolved
    name placed in the buffer, [sys_getenv name] the value of the
    variable, [None] for the null pointer. *)
Class Environment {os : OS} : Type := {
  sys_realpath : fsys -> string -> sysres string;
  sys_getenv : string -> option string
}.

Section EnvironmentOperations.

Context {os : OS} {env : Environment}.

(** [path::to_absolute(ec)], POSIX branch. *)
Definition to_absolute_ec (fs : fsys) (p : path) : path * error_code :=
  if is_absolute Posix p then (p, ec_clear)
  else
    match sys_realpath fs (c_str p) with
    | Err errno => (Path "", Zpos errno)
    | Ok temp => (Path temp, ec_clear)
    end.

(** [path::to_absolute()]. *)
Definition to_absolute (fs : fsys) (p : path) : outcome path :=
  let '(result, ec) := to_absolute_ec fs p in
  if ec_set ec
  then Throws (FilesystemError
                 ("path::to_absolute -- " ++ get_error_message ec)
                 (Some p) None ec)
  else Returns result.

(** [temp_vars] of [temp_directory_path(ec)]. *)
Definition temp_vars : list string := ["TMPDIR"; "TMP"; "TEMP"; "TEMPDIR"].

(** The [for] loop over [temp_vars]: the path it returns, or [None]
    when it runs to the end. *)
Fixpoint temp_loop (temp_names : list string) : option path :=
  match temp_names with
  | [] => None
  | temp_name :: rest =>
      match sys_getenv temp_name with
      | Some temp_path => Some (Path temp_path)
      | None => temp_loop rest
      end
  end.

(** [fs::temp_directory_path(ec)], POSIX branch. *)
Definition temp_directory_path_ec : path * error_code :=
  match temp_loop temp_vars with
  | Some p => (p, ec_clear)
  | None => (Path "/tmp", ec_clear)
  end.

(** [fs::temp_directory_path()]. *)
Definition temp_directory_path : outcome path :=
  let '(result, ec) := temp_directory_path_ec in
  if ec_set ec
  then Throws (FilesystemError
                 ("temp_directory_path -- " ++ get_error_message ec)
                 None None ec)
  else Returns result.

End EnvironmentOperations.

(* ===================================================================== *)
(** * [equivalent], Windows build *)

(** [BY_HANDLE_FILE_INFORMATION], the fields read by [fs.cpp]. *)
Record BY_HANDLE_FILE_INFORMATION : Type := ByHandleFileInformation {
  ftLastWriteTime_dwLowDateTime : Z;
  ftLastWriteTime_dwHighDateTime : Z;
  nFileIndexHigh : Z;
  nFileIndexLow : Z;
  nFileSizeHigh : Z;
  nFileSizeLow : Z;
  dwVolumeSerialNumber : Z
}.

(** The two Win32 calls of [equivalent]: a failure carries the value
    [::GetLastError()] returns after it; a failed [CreateFileW] yields
    [INVALID_HANDLE_VALUE]. *)
Class WinOS : Type := {
  wfsys : Type;
  HANDLE : Type;
  CreateFileW : wfsys -> string -> sysres HANDLE;
  GetFileInformationByHandle :
    wfsys -> HANDLE -> sysres BY_HANDLE_FILE_INFORMATION
}.

Section WindowsOperations.

Context {wos : WinOS}.

Local Open Scope Z_scope.

(** [fs::equivalent(path1, path2, ec)], [LAMBDA_WINDOWS] branch.
    [last_error0] is the thread's last-error value on entry: [e1] is
    read after the first [CreateFileW] whether or not it failed.  The
    test [file1 == file2] compares the two handles, and is reached
    with at least one of them invalid. *)
Definition win_equivalent_ec (last_error0 : Z) (fs : wfsys)
           (path1 path2 : path) : bool * error_code :=
  let file1 := CreateFileW fs (c_str path1) in
  let last_error1 :=
    match file1 with Err e => Zpos e | Ok _ => last_error0 end in
  let e1 := last_error1 in
  let file2 := CreateFileW fs (c_str path2) in
  let last_error2 :=
    match file2 with Err e => Zpos e | Ok _ => last_error1 end in
  match file1, file2 with
  | Ok h1, Ok h2 =>
      match GetFileInformationByHandle fs h1 with
      | Err e => (false, Zpos e)
      | Ok inf1 =>
          match GetFileInformationByHandle fs h2 with
          | Err e => (false, Zpos e)
          | Ok inf2 =>
              ((ftLastWriteTime_dwLowDateTime inf1
                =? ftLastWriteTime_dwLowDateTime inf2)
               && (ftLastWriteTime_dwHighDateTime inf1
                   =? ftLastWriteTime_dwHighDateTime inf2)
               && (nFileIndexHigh inf1 =? nFileIndexHigh inf2)
               && (nFileIndexLow inf1 =? nFileIndexLow inf2)
               && (nFileSizeHigh inf1 =? nFileSizeHigh inf2)
               && (nFileSizeLow inf1 =? nFileSizeLow inf2)
               && (dwVolumeSerialNumber inf1 =? dwVolumeSerialNumber inf2),
               ec_clear)
          end
      end
  | Err _, Err _ =>
      (false, if negb (e1 =? 0) then e1 else last_error2)
  | _, _ => (false, ec_clear)
  end.

End WindowsOperations.

(* ===================================================================== *)
(** * [time_from_FILETIME] (Windows build) *)

(** [FILETIME]: the two 32-bit halves of a count of 100-nanosecond
    intervals since 1601-01-01. *)
Record FILETIME : Type := FileTime {
  dwLowDateTime : Z;
  dwHighDateTime : Z
}.

(** [ULARGE_INTEGER::QuadPart] of the value whose [LowPart] and
    [HighPart] are the two halves. *)
Definition QuadPart (ft : FILETIME) : Z :=
  (dwLowDateTime ft + dwHighDateTime ft * 2 ^ 32)%Z.

(** The conversion of an unsigned 64-bit value to the signed 64-bit
    [time_t]. *)
Definition time_t_of_u64 (z : Z) : Z :=
  ((z + 2 ^ 63) mod 2 ^ 64 - 2 ^ 63)%Z.

(** [ull.QuadPart / 10000000ULL - 11644473600ULL], computed in unsigned
    64-bit arithmetic and returned as [time_t]. *)
Definition time_from_FILETIME (ft : FILETIME) : Z :=
  time_t_of_u64 (uintmax_wrap (QuadPart ft / 10000000 - 11644473600))%Z.

(* ===================================================================== *)
(** * [maths.h] *)

(** The number types [N] the templates of [maths.h] are instantiated
    at: their [operator<], and the value the literal [0] converts to. *)
Class Number (N : Type) : Type := {
  num_lt : N -> N -> bool;
  num_zero : N
}.

#[export] Instance Z_number : Number Z := {|
  num_lt := Z.ltb;
  num_zero := 0%Z
|}.

#[export] Instance nat_number : Number nat := {|
  num_lt := Nat.ltb;
  num_zero := 0
|}.

(** [a <= b] for such numbers: [!(b < a)]. *)
Definition num_le {N : Type} {number : Number N} (a b : N) : Prop :=
  num_lt b a = false.

(** The number types on which [operator<] is a strict total order: the
    integer types, not the floating-point ones with their NaN. *)
Class NumberOrder (N : Type) {number : Number N} : Prop := {
  num_lt_irrefl : forall a : N, num_lt a a = false;
  num_lt_trans :
    forall a b c : N, num_lt a b = true -> num_lt b c = true ->
                      num_lt a c = true;
  num_lt_total :
    forall a b : N, num_lt a b = false -> num_lt b a = false -> a = b
}.

Module maths.

Section Templates.

Context {N : Type} {number : Number N}.

(** [a < b ? a : b]. *)
Definition min (a b : N) : N := if num_lt a b then a else b.

(** [a > b ? a : b]. *)
Definition max (a b : N) : N := if num_lt b a then a else b.

(** The loop of [min(const std::initializer_list<N>&)]: [None] while
    [first] is set and [minN] not yet assigned. *)
Fixpoint min_loop (numbers : list N) (minN : option N) : option N :=
  match numbers with
  | [] => minN
  | i :: rest =>
      match minN with
      | None => min_loop rest (Some i)
      | Some m => min_loop rest (Some (min m i))
      end
  end.

Definition min_list (numbers : list N) : N :=
  if List.length numbers =? 0 then num_zero
  else match min_loop numbers None with
       | Some minN => minN
       | None => num_zero
       end.

(** The loop of [max(const std::initializer_list<N>&)]. *)
Fixpoint max_loop (numbers : list N) (maxN : option N) : option N :=
  match numbers with
  | [] => maxN
  | i :: rest =>
      match maxN with
      | None => max_loop rest (Some i)
      | Some m => max_loop rest (Some (max m i))
      end
  end.

Definition max_list (numbers : list N) : N :=
  if List.length numbers =? 0 then num_zero
  else match max_loop numbers None with
       | Some maxN => maxN
       | None => num_zero
       end.

(** [maths::min(maths::max(number, min), max)]. *)
Definition clamp (number min_ max_ : N) : N := min (max number min_) max_.

End Templates.

End maths.

(* ===================================================================== *)
(** * An in-memory file system *)

(** A tree of directories, regular files and symbolic links with the
    usual resolution of path names: components separated by ['/'],
    ["."] and [".."], symbolic links followed in every component but
    (for [lstat], [remove] and [readlink]) the last, at most
    [MAXSYMLINKS] of them in one resolution.  The working directory is
    the root; permissions are recorded but not enforced. *)
Module TreeFS.

Local Open Scope list_scope.
Local Open Scope Z_scope.

Record attrs : Type := Attrs {
  a_perm : Z;
  a_ino : Z;
  a_size : Z;
  a_mtime : Z
}.

#[local] Set Warnings "-register-all".

Inductive node : Type :=
| Reg (a : attrs)
| Lnk (a : attrs) (target : string)
| Dir (a : attrs) (entries : list (string * node)).

Definition node_attrs (n : node) : attrs :=
  match n with
  | Reg a | Lnk a _ | Dir a _ => a
  end.

Fixpoint lookup (name : string) (entries : list (string * node))
  : option node :=
  match entries with
  | [] => None
  | (k, n) :: rest => if String.eqb k name then Some n else lookup name rest
  end.

(** The node at a location, a list of names from the root. *)
Fixpoint get (n : node) (loc : list string) : option node :=
  match loc with
  | [] => Some n
  | name :: rest =>
      match n with
      | Dir _ entries =>
          match lookup name entries with
          | Some m => get m rest
          | None => None
          end
      | _ => None
      end
  end.

(** Rewrites the node at a location. *)
Fixpoint modify (n : node) (loc : list string) (f : node -> node) : node :=
  match loc with
  | [] => f n
  | name :: rest =>
      match n with
      | Dir a entries =>
          Dir a (map (fun e : string * node =>
                        if String.eqb (fst e) name
                        then (fst e, modify (snd e) rest f) else e)
                     entries)
      | _ => n
      end
  end.

Fixpoint split_aux (s cur : string) : list string :=
  match s with
  | EmptyString => [cur]
  | String c s' =>
      if Ascii.eqb c slash then cur :: split_aux s' EmptyString
      else split_aux s' (cur ++ String c EmptyString)%string
  end.

(** The non-empty components of a path name. *)
Definition split (s : string) : list string :=
  filter (fun c => negb (Str.is_empty c)) (split_aux s EmptyString).

Definition is_abs (s : string) : bool := Ascii.eqb (Str.at_ s 0) slash.

(** [MAXSYMLINKS]: the links one resolution may follow. *)
Definition MAXSYMLINKS : nat := 40.

(** The steps one resolution may take (a bound on the length of names). *)
Definition max_steps : nat := 4096.

(** Walks [comps] from the directory at [cur], with [links] symbolic
    links left to follow and [fuel] steps left to take; following one
    link more than allowed is [ELOOP]. *)
Fixpoint walk (fuel links : nat) (root : node) (follow : bool)
         (cur : list string) (comps : list string)
  : sysres (list string) :=
  match fuel with
  | O => Err ENAMETOOLONG
  | S fuel' =>
      match comps with
      | [] => Ok cur
      | c :: rest =>
          match get root cur with
          | Some (Dir _ _) =>
              if String.eqb c "." then walk fuel' links root follow cur rest
              else if String.eqb c ".."
              then walk fuel' links root follow (removelast cur) rest
              else
                match get root (cur ++ [c]) with
                | None => Err ENOENT
                | Some (Lnk _ target) =>
                    match rest, follow with
                    | [], false => Ok (cur ++ [c])
                    | _, _ =>
                        match links with
                        | O => Err ELOOP
                        | S links' =>
                            walk fuel' links' root follow
                                 (if is_abs target then [] else cur)
                                 (split target ++ rest)
                        end
                    end
                | Some _ => walk fuel' links root follow (cur ++ [c]) rest
                end
          | Some _ => Err ENOTDIR
          | None => Err ENOENT
          end
      end
  end.

Definition resolve (root : node) (follow : bool) (p : string)
  : sysres (list string) :=
  if Str.is_empty p then Err ENOENT
  else walk max_steps MAXSYMLINKS root follow [] (split p).

Definition stat_of (n : node) : stat_t :=
  let a := node_attrs n in
  let fmt := match n with
             | Reg _ => S_IFREG
             | Lnk _ _ => S_IFLNK
             | Dir _ _ => S_IFDIR
             end in
  Stat (Z.lor fmt (a_perm a)) 1 (a_size a) (a_mtime a) 1 (a_ino a).

Definition query (root : node) (follow : bool) (p : string)
  : sysres node :=
  match resolve root follow p with
  | Err e => Err e
  | Ok loc =>
      match get root loc with
      | Some n => Ok n
      | None => Err ENOENT
      end
  end.

Definition lstat (root : node) (p : string) : sysres stat_t :=
  match query root false p with
  | Ok n => Ok (stat_of n)
  | Err e => Err e
  end.

Definition stat (root : node) (p : string) : sysres stat_t :=
  match query root true p with
  | Ok n => Ok (stat_of n)
  | Err e => Err e
  end.

Definition opendir (root : node) (p : string)
  : sysres (list (sysres string)) :=
  match query root true p with
  | Ok (Dir _ entries) =>
      Ok (map (fun name => Ok name) ("." :: ".." :: map fst entries)%string)
  | Ok _ => Err ENOTDIR
  | Err e => Err e
  end.

Definition drop_entry (name : string) (n : node) : node :=
  match n with
  | Dir a entries =>
      Dir a (filter (fun e : string * node => negb (String.eqb (fst e) name))
                    entries)
  | _ => n
  end.

Definition add_entry (name : string) (child : node) (n : node) : node :=
  match n with
  | Dir a entries => Dir a (entries ++ [(name, child)])
  | _ => n
  end.

Definition remove (root : node) (p : string) : sysres node :=
  match resolve root false p with
  | Err e => Err e
  | Ok loc =>
      match loc, get root loc with
      | _, None => Err ENOENT
      | [], _ => Err EBUSY
      | _, Some (Dir _ (_ :: _)) => Err ENOTEMPTY
      | _, Some _ =>
          Ok (modify root (removelast loc) (drop_entry (last loc ""%string)))
      end
  end.

Definition mkdir (root : node) (p : string) (mode : Z) : sysres node :=
  if Str.is_empty p then Err ENOENT
  else
    match split p with
    | [] => Err EEXIST
    | comps =>
        let name := last comps ""%string in
        match walk max_steps MAXSYMLINKS root true [] (removelast comps) with
        | Err e => Err e
        | Ok ploc =>
            match get root ploc with
            | Some (Dir _ _) =>
                if String.eqb name "." || String.eqb name ".."
                then Err EEXIST
                else
                  match get root (ploc ++ [name]) with
                  | Some _ => Err EEXIST
                  | None =>
                      Ok (modify root ploc
                                 (add_entry name
                                            (Dir (Attrs (Z.land mode 4095)
                                                        0 0 0) [])))
                  end
            | Some _ => Err ENOTDIR
            | None => Err ENOENT
            end
        end
    end.

Definition set_perm (mode : Z) (n : node) : node :=
  let a := node_attrs n in
  let a' := Attrs (Z.land mode 4095) (a_ino a) (a_size a) (a_mtime a) in
  match n with
  | Reg _ => Reg a'
  | Lnk _ t => Lnk a' t
  | Dir _ es => Dir a' es
  end.

Definition chmod (root : node) (p : string) (mode : Z) : sysres node :=
  match resolve root true p with
  | Err e => Err e
  | Ok loc =>
      match get root loc with
      | Some _ => Ok (modify root loc (set_perm mode))
      | None => Err ENOENT
      end
  end.

Definition readlink (root : node) (p : string) (bufsize : Z)
  : sysres string :=
  if bufsize <=? 0 then Err EINVAL
  else
    match query root false p with
    | Ok (Lnk _ target) =>
        Ok (Str.substr 0 (Z.to_nat bufsize) target)
    | Ok _ => Err EINVAL
    | Err e => Err e
    end.

Definition error_message (e : Z) : string :=
  if e =? Zpos ENOENT then "No such file or directory"
  else if e =? Zpos EEXIST then "File exists"
  else if e =? Zpos ENOTDIR then "Not a directory"
  else if e =? Zpos EINVAL then "Invalid argument"
  else if e =? Zpos ENOTEMPTY then "Directory not empty"
  else if e =? Zpos ELOOP then "Too many levels of symbolic links"
  else if e =? Zpos ENAMETOOLONG then "File name too long"
  else "Unknown error".

(** The number of entries of a tree, its root included. *)
Fixpoint size (n : node) : nat :=
  match n with
  | Dir _ entries =>
      S ((fix sizes (es : list (string * node)) : nat :=
            match es with
            | [] => 0%nat
            | e :: es' => (size (snd e) + sizes es')%nat
            end) entries)
  | _ => 1%nat
  end.

(** Builders for examples. *)
Definition file (ino : Z) : node := Reg (Attrs 420 ino 0 0).
Definition link (ino : Z) (target : string) : node :=
  Lnk (Attrs 511 ino 0 0) target.
Definition dir (ino : Z) (entries : list (string * node)) : node :=
  Dir (Attrs 493 ino 0 0) entries.

End TreeFS.

#[export] Instance tree_os : OS := {|
  fsys := TreeFS.node;
  sys_lstat := TreeFS.lstat;
  sys_stat := TreeFS.stat;
  sys_opendir := TreeFS.opendir;
  sys_remove := TreeFS.remove;
  sys_mkdir := TreeFS.mkdir;
  sys_chmod := TreeFS.chmod;
  sys_readlink := TreeFS.readlink;
  get_error_message := TreeFS.error_message
|}.

(** ** Example file systems *)

Module Examples.

Import TreeFS.
Local Open Scope list_scope.

(** [/d/l -> /t], [/t/y]: a directory holding a link to a directory. *)
Definition linked_tree : node :=
  dir 1 [("d", dir 2 [("l", link 3 "/t")]);
         ("t", dir 4 [("y", file 5)])]%string.

(** What is left of [linked_tree] when [/d] and all below it is gone,
    and what [remove_all("/d")] leaves of it. *)
Definition linked_tree_without_d : node :=
  dir 1 [("t", dir 4 [("y", file 5)])]%string.

Definition linked_tree_emptied : node := dir 1 [("t", dir 4 [])]%string.

(** [/f] a regular file, [/e] an empty directory, [/l -> /nowhere] a
    dangling link, [/k -> /f] a link to the file. *)
Definition small_tree : node :=
  dir 1 [("f", file 2); ("e", dir 3 []); ("l", link 4 "/nowhere");
         ("k", link 5 "/f")]%string.

(** [/a/b/c/f.txt], and the tree once [/a] is gone. *)
Definition nested_tree : node :=
  dir 1 [("a", dir 2 [("b", dir 3 [("c", dir 4 [("f.txt", file 5)])])])]%string.

Definition empty_root : node := dir 1 [].

(** [/d/l -> /d], [/d/x]: a directory holding a link to itself. *)
Definition loop_tree : node :=
  dir 1 [("d", dir 2 [("l", link 3 "/d"); ("x", file 4)])]%string.

(** [/d/l/l/.../l], through [n] links. *)
Fixpoint through_links (n : nat) : string :=
  match n with
  | O => "/d"
  | S n' => through_links n' ++ "/l"
  end%string.

(** [loop_tree] once the link is removed. *)
Definition loop_tree_unlinked : node :=
  dir 1 [("d", dir 2 [("x", file 4)])]%string.

End Examples.

(** ** A table of files for the Windows calls of [equivalent] *)

(** The files that can be opened, by name, with the information their
    handles give; a handle is the position of the file in the table. *)
Module TableWin.

Local Open Scope list_scope.

Definition table : Type := list (string * BY_HANDLE_FILE_INFORMATION).

(** [ERROR_FILE_NOT_FOUND], [ERROR_INVALID_HANDLE]. *)
Definition ERROR_FILE_NOT_FOUND : positive := 2%positive.
Definition ERROR_INVALID_HANDLE : positive := 6%positive.

Fixpoint open_from (t : table) (name : string) (h : nat) : sysres nat :=
  match t with
  | [] => Err ERROR_FILE_NOT_FOUND
  | (k, _) :: t' => if String.eqb k name then Ok h else open_from t' name (S h)
  end.

Definition create_file (t : table) (name : string) : sysres nat :=
  open_from t name 0.

Definition information (t : table) (h : nat)
  : sysres BY_HANDLE_FILE_INFORMATION :=
  match nth_error t h with
  | Some (_, inf) => Ok inf
  | None => Err ERROR_INVALID_HANDLE
  end.

(** Two names of one file, and another file. *)
Definition sample : table :=
  [("C:\a.txt", ByHandleFileInformation 10 20 0 7 0 100 99);
   ("C:\hardlink.txt", ByHandleFileInformation 10 20 0 7 0 100 99);
   ("C:\b.txt", ByHandleFileInformation 11 20 0 8 0 100 99)]%string.

End TableWin.

#[export] Instance table_wos : WinOS := {|
  wfsys := TableWin.table;
  HANDLE := nat;
  CreateFileW := TableWin.create_file;
  GetFileInformationByHandle := TableWin.information
|}.


(* ===================================================================== *)
(** * Properties of the lexical part *)

Section LexicalFacts.

Variable pl : platform.

Lemma is_empty_true (s : string) : Str.is_empty s = true <-> s = "".
Proof.
  destruct s; simpl; split; intro H; try reflexivity; discriminate.
Qed.

Lemma path_eqb_eq (a b : path) : path_eqb a b = true <-> a = b.
Proof.
  destruct a as [a], b as [b]; unfold path_eqb; simpl.
  rewrite String.eqb_eq. split; intro H.
  - now subst.
  - now inversion H.
Qed.

Lemma path_eqb_neq (a b : path) : path_eqb a b = false <-> a <> b.
Proof.
  rewrite <- path_eqb_eq. destruct (path_eqb a b); split; intro H.
  - discriminate.
  - now elim H.
  - discriminate.
  - reflexivity.
Qed.

(** At [first] and at [last], where [begin] and [end] construct their
    iterators, [update_current] does not read [_root]. *)
Lemma update_current_root_irrelevant (s : string) (pos r r' : nat)
      (c c' : path) :
  pos = 0 \/ pos = String.length s ->
  _current (update_current pl (Iterator s pos r c))
  = _current (update_current pl (Iterator s pos r' c')).
Proof.
  intros Hpos. unfold update_current, increment, _first, _last. simpl.
  destruct Hpos as [-> | ->].
  - simpl.
    destruct (negb (0 =? String.length s)); simpl;
      repeat match goal with
             | |- context [if ?b then _ else _] => destruct b; simpl
             end; reflexivity.
  - rewrite Nat.eqb_refl. simpl. rewrite !andb_false_r. simpl.
    rewrite Nat.sub_diag.
    repeat match goal with
           | |- context [if ?b then _ else _] => destruct b; simpl
           end; reflexivity.
Qed.

(** A root directory is empty or the bare separator. *)
Lemma root_directory_cases (p : path) :
  root_directory pl p = Path "" \/ root_directory pl p = Path (sep_string pl).
Proof.
  unfold root_directory.
  destruct (_ && _); [right | left]; reflexivity.
Qed.

Lemma has_root_directory_sep :
  has_root_directory pl (Path (sep_string pl)) = true.
Proof. destruct pl; reflexivity. Qed.

(** [root_path] is [root_name() / root_directory()] with the [append]
    of the class: the [has_filename] test is not reached. *)
Lemma root_path_append (p : path) :
  root_path pl p = append pl (root_name pl p) (root_directory pl p).
Proof.
  unfold root_path, append, append_with.
  destruct (root_directory_cases p) as [-> | ->].
  - reflexivity.
  - rewrite has_root_directory_sep.
    destruct (empty _); [reflexivity |].
    destruct (_ && _); reflexivity.
Qed.

(** An absolute path is not empty. *)
Lemma is_absolute_not_empty (p : path) :
  is_absolute pl p = true -> empty p = false.
Proof.
  destruct p as [[| c s]]; [| reflexivity].
  destruct pl; discriminate.
Qed.

(** [relative_path] is the suffix of the native string past the length
    of [root_path], clamped to the length of the string. *)
Lemma relative_path_suffix (p : path) :
  _path (relative_path pl p)
  = Str.substr_from
      (Nat.min (String.length (_path (root_path pl p)))
               (String.length (_path p)))
      (_path p).
Proof.
  unfold relative_path, maths_min. simpl.
  destruct (Nat.ltb_spec (String.length (_path (root_path pl p)))
                         (String.length (_path p))).
  - now rewrite Nat.min_l by lia.
  - now rewrite Nat.min_r by lia.
Qed.

(** ** The traversals are not cut short by their bounds *)

Lemma substr_from_length (s : string) :
  forall i : nat,
    String.length (Str.substr_from i s) = String.length s - i.
Proof.
  induction s as [| c s IH]; intros [| i]; simpl; try reflexivity.
  apply IH.
Qed.

Lemma find_if_le (f : ascii -> bool) (s : string) :
  Str.find_if f s <= String.length s.
Proof.
  induction s as [| c s IH]; simpl; [lia |].
  destruct (f c); lia.
Qed.

Lemma find_from_bounds (c : ascii) (i : nat) (s : string) :
  i <= String.length s ->
  i <= Str.find_from c i s <= String.length s.
Proof.
  intros H. unfold Str.find_from.
  pose proof (find_if_le (Ascii.eqb c) (Str.substr_from i s)) as Hf.
  rewrite substr_from_length in Hf. lia.
Qed.

Lemma skip_from_bounds (c : ascii) (i : nat) (s : string) :
  i <= String.length s ->
  i <= Str.skip_from c i s <= String.length s.
Proof.
  intros H. unfold Str.skip_from.
  pose proof (find_if_le (fun x => negb (Ascii.eqb c x))
                         (Str.substr_from i s)) as Hf.
  rewrite substr_from_length in Hf. lia.
Qed.

(** [increment] moves forward, and not past [_last]. *)
Lemma increment_advances (it : iterator) (pos : nat) :
  _pos it < _last it ->
  _pos it < increment pl it pos <= _last it.
Proof.
  intros H. unfold increment, _first, _last in *.
  destruct (Nat.eqb_spec (_pos it) (String.length (it_str it))) as [E | _];
    [lia |].
  cbn [negb].
  repeat match goal with
         | |- context [if ?b then _ else _] => destruct b eqn:?
         end;
    repeat match goal with
           | Hb : (_ && _) = true |- _ => apply andb_prop in Hb; destruct Hb
           | Hb : negb (_ =? _) = true |- _ =>
               apply negb_true_iff, Nat.eqb_neq in Hb
           end;
    try lia;
    try (match goal with
         | |- _ < Str.find_from ?c ?i ?s <= _ =>
             pose proof (find_from_bounds c i s)
         | |- _ < Str.skip_from ?c ?i ?s <= _ =>
             pose proof (skip_from_bounds c i s)
         end; lia).
Qed.

Lemma skip_redundant_bounds (s : string) (root : nat) :
  forall fuel pos : nat,
    pos <= String.length s ->
    pos <= skip_redundant pl fuel s root pos <= String.length s.
Proof.
  induction fuel as [| fuel IH]; intros pos H; simpl; [lia |].
  destruct (Nat.eqb_spec pos (String.length s)) as [E | E]; simpl; [lia |].
  destruct (_ && _); [| lia].
  specialize (IH (S pos)). lia.
Qed.


Lemma update_current_fields (it : iterator) :
  it_str (update_current pl it) = it_str it
  /\ _pos (update_current pl it) = _pos it
  /\ _root (update_current pl it) = _root it.
Proof.
  unfold update_current.
  repeat match goal with
         | |- context [if ?b then _ else _] => destruct b
         end; repeat split.
Qed.

(** [operator++] keeps the string and moves forward. *)
Lemma iterator_incr_advances (it : iterator) :
  _pos it < _last it ->
  it_str (iterator_incr pl it) = it_str it
  /\ _pos it < _pos (iterator_incr pl it) <= _last it.
Proof.
  intros H. unfold iterator_incr.
  destruct (update_current_fields
              (Iterator (it_str it)
                        (skip_redundant pl (String.length (it_str it))
                                        (it_str it) (_root it)
                                        (increment pl it (_pos it)))
                        (_root it) (_current it))) as (Hs & Hp & _).
  rewrite Hs, Hp. simpl. split; [reflexivity |].
  pose proof (increment_advances it (_pos it) H) as Hi.
  unfold _last in *.
  pose proof (skip_redundant_bounds (it_str it) (_root it)
                (String.length (it_str it)) (increment pl it (_pos it))).
  lia.
Qed.

(** More rounds than characters are left never change the traversal. *)
Lemma components_from_fuel :
  forall (fuel fuel' : nat) (it : iterator),
    _pos it <= _last it ->
    _last it - _pos it < fuel ->
    _last it - _pos it < fuel' ->
    components_from pl fuel it = components_from pl fuel' it.
Proof.
  induction fuel as [| fuel IH]; intros [| fuel'] it Hle H H'; try lia.
  simpl.
  destruct (Nat.eqb_spec (_pos it) (_last it)) as [E | E]; [reflexivity |].
  destruct (iterator_incr_advances it) as [Hs Hp]; [lia |].
  f_equal. apply IH; unfold _last in *; rewrite ?Hs; lia.
Qed.

Lemma append_loop_fuel :
  forall (fuel fuel' : nat) (acc : string) (first : bool) (it : iterator),
    _pos it <= _last it ->
    _last it - _pos it < fuel ->
    _last it - _pos it < fuel' ->
    append_loop pl fuel acc first it = append_loop pl fuel' acc first it.
Proof.
  induction fuel as [| fuel IH]; intros [| fuel'] acc first it Hle H H';
    try lia.
  simpl.
  destruct (Nat.eqb_spec (_pos it) (_last it)) as [E | E]; [reflexivity |].
  destruct (iterator_incr_advances it) as [Hs Hp]; [lia |].
  apply IH; unfold _last in *; rewrite ?Hs; lia.
Qed.

Lemma make_iterator_fields (s : string) (pos : nat) :
  it_str (make_iterator pl s pos) = s /\ _pos (make_iterator pl s pos) = pos.
Proof. split; reflexivity. Qed.

(** The bound that [components] passes is enough. *)
Lemma components_any_fuel (p : path) (fuel : nat) :
  String.length (_path p) < fuel ->
  components_from pl fuel (path_begin pl p) = components pl p.
Proof.
  intros H. unfold components. apply components_from_fuel;
    unfold _last, path_begin; simpl; lia.
Qed.

(** ** Where the reconstruction invariant holds *)

(** A path without root name is its root directory followed by its
    relative path, and its root path is its root directory. *)
Lemma reconstruction_without_root_name (p : path) :
  root_name pl p = Path "" ->
  _path (root_path pl p)
  = _path (root_name pl p) ++ _path (root_directory pl p)
  /\ _path (root_name pl p) ++ _path (root_directory pl p)
     ++ _path (relative_path pl p) = _path p.
Proof.
  intros Hn.
  assert (Hsep : append_with pl (fun _ => false) (Path "")
                             (Path (sep_string pl))
                 = Path (sep_string pl))
    by (destruct pl; reflexivity).
  unfold relative_path, root_path.
  pose proof (root_directory_cases p) as Hd.
  unfold root_directory in *. rewrite Hn in *. simpl in *.
  clear Hd.
  destruct p as [[| c s]]; simpl in *.
  - split; reflexivity.
  - change (Str.at_ (String c s) 0) with c.
    destruct (Ascii.eqb_spec c (preferred_separator pl)) as [-> | Hc];
      simpl.
    + rewrite Hsep. simpl. unfold maths_min.
      destruct s; split; reflexivity.
    + split; reflexivity.
Qed.

End LexicalFacts.

(** C2 (reconstruction invariant), evaluated on the POSIX grammar: the
    path ["//a"] has root name ["//a"] and no root directory, yet its
    [root_path()] is ["//a/"], because [root_name() / root_directory()]
    appends a separator for the empty right operand; and for ["//a\b"]
    the three parts concatenate to ["//ab"], not to the native string.
    The Windows grammar does the same on ["//a/b"]. *)
Theorem root_path_gains_separator :
  root_name Posix (Path "//a") = Path "//a"
  /\ root_directory Posix (Path "//a") = Path ""
  /\ root_path Posix (Path "//a") = Path "//a/"
  /\ _path (root_name Posix (Path "//a\b"))
     ++ _path (root_directory Posix (Path "//a\b"))
     ++ _path (relative_path Posix (Path "//a\b")) = "//ab"
  /\ _path (root_name Windows (Path "//a/b"))
     ++ _path (root_directory Windows (Path "//a/b"))
     ++ _path (relative_path Windows (Path "//a/b")) = "//ab".
Proof. repeat split. Qed.

(** C7, as stated, fails on the POSIX grammar for [a = "//srv"] and
    [b = "/"]: [b] is absolute, its root name and its root path differ
    from those of [a], and [a / b] is ["//srv/"], not [b]. *)
Lemma append_absolute_counterexample :
  is_absolute Posix (Path "/") = true
  /\ root_name Posix (Path "/") <> root_name Posix (Path "//srv")
  /\ root_path Posix (Path "/") <> root_path Posix (Path "//srv")
  /\ append Posix (Path "//srv") (Path "/") = Path "//srv/"
  /\ append Posix (Path "//srv") (Path "/") <> Path "/".
Proof. repeat split; discriminate. Qed.

(** C7, amended.  Appending the empty path adds exactly one preferred
    separator to a non-empty path that ends neither in the separator nor
    in a colon, and leaves every other path as it is.  Appending an
    absolute [b] yields exactly [b] whenever [a] is not exactly its own
    root name, or [b] is not the bare separator, or [b] has a root name
    that differs from the root name of [a]. *)
Theorem append_laws (pl : platform) (a b : path) :
  (_path a <> ""
   -> Str.back (_path a) <> preferred_separator pl
   -> Str.back (_path a) <> colon
   -> append pl a (Path "") = Path (_path a ++ sep_string pl))
  /\ (_path a = "" \/ Str.back (_path a) = preferred_separator pl
      \/ Str.back (_path a) = colon
      -> append pl a (Path "") = a)
  /\ (is_absolute pl b = true
      -> _path a <> _path (root_name pl a)
         \/ _path b <> sep_string pl
         \/ (has_root_name pl b = true /\ root_name pl b <> root_name pl a)
      -> append pl a b = b).
Proof.
  split; [| split].
  - intros Hne Hsep Hcolon.
    unfold append, append_with. simpl.
    destruct (Str.is_empty (_path a)) eqn:He.
    + apply is_empty_true in He. contradiction.
    + apply Ascii.eqb_neq in Hsep, Hcolon. rewrite Hsep, Hcolon. reflexivity.
  - intros H. unfold append, append_with. simpl.
    destruct H as [H | [H | H]].
    + rewrite H. reflexivity.
    + rewrite H, Ascii.eqb_refl. simpl. rewrite andb_false_r. reflexivity.
    + rewrite H, Ascii.eqb_refl. simpl. rewrite !andb_false_r. reflexivity.
  - intros Habs H. unfold append, append_with.
    rewrite (is_absolute_not_empty pl b Habs), Habs. simpl.
    assert (Hc : (negb (_path a =? native (root_name pl a))%string
                  || negb (_path b =? sep_string pl)%string
                  || has_root_name pl b
                     && negb (path_eqb (root_name pl b) (root_name pl a)))
                 = true).
    { destruct H as [H | [H | [H1 H2]]].
      - apply String.eqb_neq in H. unfold native. rewrite H. reflexivity.
      - apply String.eqb_neq in H. rewrite H. simpl.
        rewrite orb_true_r. reflexivity.
      - apply path_eqb_neq in H2. rewrite H1, H2. simpl. apply orb_true_r. }
    rewrite Hc. reflexivity.
Qed.

(** [append_laws] at ["/usr"] and ["/etc"]. *)
Lemma append_laws_witness :
  append Posix (Path "/usr") (Path "") = Path "/usr/"
  /\ append Posix (Path "/usr/") (Path "") = Path "/usr/"
  /\ append Posix (Path "/usr") (Path "/etc") = Path "/etc".
Proof.
  split; [| split].
  - apply (proj1 (append_laws Posix (Path "/usr") (Path "/etc")));
      discriminate.
  - apply (proj1 (proj2 (append_laws Posix (Path "/usr/") (Path "/etc")))).
    right; left; reflexivity.
  - apply (proj2 (proj2 (append_laws Posix (Path "/usr") (Path "/etc")))).
    + reflexivity.
    + left; discriminate.
Defined.



(* ===================================================================== *)
(** * Properties of the operations, for every operating system *)

Section OperationFacts.

Context {os : OS}.

Local Open Scope Z_scope.

Lemma ec_set_clear : ec_set ec_clear = false.
Proof. reflexivity. Qed.

Lemma ec_set_errno (e : positive) : ec_set (Zpos e) = true.
Proof. reflexivity. Qed.

Lemma file_type_eqb_eq (a b : file_type) : file_type_eqb a b = true <-> a = b.
Proof. destruct a, b; simpl; split; intro H; congruence. Qed.

(** A status read from [st_mode] is never [none] and never [not_found]. *)
Lemma file_status_from_st_mode_found (mode : Z) :
  type (file_status_from_st_mode mode) <> ft_none
  /\ type (file_status_from_st_mode mode) <> ft_not_found.
Proof.
  unfold file_status_from_st_mode. simpl.
  repeat match goal with
         | |- context [if ?b then _ else _] => destruct b
         end; split; discriminate.
Qed.

(** When [lstat] finds the entry, [status] reports a type and no error. *)
Lemma status_of_found_entry (fs : fsys) (p : path) (st : stat_t) :
  sys_lstat fs (c_str p) = Ok st ->
  type (fst (status fs p)) <> ft_none /\ snd (status fs p) = ec_clear.
Proof.
  intros H. unfold status, internal_status. rewrite H.
  destruct (file_type_eqb _ ft_symlink) eqn:Hl.
  - destruct (sys_stat fs (c_str p)); simpl; split;
      try reflexivity; apply file_status_from_st_mode_found.
  - simpl; split; try reflexivity; apply file_status_from_st_mode_found.
Qed.

(** ** The throwing forms that test the code after the call *)

Lemma file_size_raises (fs : fsys) (p : path) :
  raised (file_size fs p) = ec_set (snd (file_size_ec fs p)).
Proof.
  unfold file_size. destruct (file_size_ec fs p) as [r ec]. simpl.
  destruct (ec_set ec); reflexivity.
Qed.

Lemma last_write_time_raises (fs : fsys) (p : path) :
  raised (last_write_time fs p) = ec_set (snd (last_write_time_ec fs p)).
Proof.
  unfold last_write_time. destruct (last_write_time_ec fs p) as [r ec]. simpl.
  destruct (ec_set ec); reflexivity.
Qed.

Lemma remove_raises (fs : fsys) (p : path) :
  raised (snd (remove fs p)) = ec_set (snd (remove_ec fs p)).
Proof.
  unfold remove. destruct (remove_ec fs p) as [[fs' r] ec]. simpl.
  destruct (ec_set ec); reflexivity.
Qed.

Lemma mkdir_raises (prms : perms) (fs : fsys) (p : path) :
  raised (snd (mkdir prms fs p)) = ec_set (snd (mkdir_ec prms fs p)).
Proof.
  unfold mkdir. destruct (mkdir_ec prms fs p) as [[fs' r] ec]. simpl.
  destruct (ec_set ec); reflexivity.
Qed.

Lemma remove_all_raises (fuel : nat) (fs fs' : fsys) (p : path) (n : Z)
      (ec : error_code) :
  remove_all_ec fuel fs p = Some (fs', n, ec) ->
  exists o, remove_all fuel fs p = Some (fs', o) /\ raised o = ec_set ec.
Proof.
  intros H. unfold remove_all. rewrite H.
  destruct (ec_set ec); eexists; split; reflexivity.
Qed.

(** [mkdirs()] tests a code that nothing has written yet: it returns the
    result of [mkdirs(ec)] and never raises. *)
Lemma mkdirs_never_raises (fs : fsys) (p : path) :
  mkdirs fs p = (fst (fst (mkdirs_ec fs p)),
                 Returns (snd (fst (mkdirs_ec fs p)))).
Proof.
  unfold mkdirs. simpl. destruct (mkdirs_ec fs p) as [[fs' r] ec].
  reflexivity.
Qed.

(** ** C10: [mkdir] on an existing entry *)

(** The guard of [mkdir(prms, ec)]: an entry that [lstat] finds and for
    which [exists()] holds is left alone. *)
Lemma mkdir_ec_on_existing (prms : perms) (fs : fsys) (p : path)
      (st : stat_t) :
  sys_lstat fs (c_str p) = Ok st ->
  exists_ fs p = true ->
  mkdir_ec prms fs p = (fs, false, ec_clear).
Proof.
  intros Hl He. unfold mkdir_ec.
  destruct (status_of_found_entry fs p st Hl) as [Ht _].
  destruct (status fs p) as [s ec1]. simpl in Ht.
  rewrite He.
  destruct (file_type_eqb (type s) ft_none) eqn:Hn.
  - apply file_type_eqb_eq in Hn. contradiction.
  - reflexivity.
Qed.

(** C10, amended.  When the path names an existing entry for which
    [exists()] holds ([lstat] finds the entry and [::stat] resolves the
    path), [mkdir(prms, ec)] returns [false] with the code clear and the
    file system as it was, [::mkdir] not being called; when [exists()]
    does not hold and the creation fails, it returns [false] with the
    non-empty code of the failure. *)
Theorem mkdir_existing_entry (prms : perms) (fs : fsys) (p : path) :
  (forall st : stat_t,
      sys_lstat fs (c_str p) = Ok st ->
      exists_ fs p = true ->
      mkdir_ec prms fs p = (fs, false, ec_clear))
  /\ (forall e : positive,
         exists_ fs p = false ->
         sys_mkdir fs (c_str p) prms = Err e ->
         mkdir_ec prms fs p = (fs, false, Zpos e)
         /\ ec_set (Zpos e) = true).
Proof.
  split.
  - intros st Hl He. exact (mkdir_ec_on_existing prms fs p st Hl He).
  - intros e He Hm. unfold mkdir_ec.
    destruct (status fs p) as [s ec1].
    rewrite He, Hm, andb_false_r. split; reflexivity.
Qed.

(** ** C9: [permissions] *)

Section PermissionFacts.

Variables po_replace po_add po_remove po_nofollow : Z.

(** C9.  Without any of [replace], [add], [remove] in [opts],
    [permissions(prms, opts, ec)] reports the invalid-parameter error and
    changes nothing.  Otherwise, when [opts] does not contain [replace],
    the mask handed to [::chmod] is the union of the permissions that
    [symlink_status] reports with [prms] when [opts] contains [add], and
    those permissions without the bits of [prms] when it does not. *)
Theorem permissions_contract (prms : perms) (opts : Z) (ec : error_code)
        (fs : fsys) (p : path) :
  (Z.land opts (Z.lor (Z.lor po_replace po_add) po_remove) = 0 ->
   permissions_ec po_replace po_add po_remove po_nofollow prms opts ec fs p
   = (fs, ERROR_INVALID_PARAMETER))
  /\ (Z.land opts (Z.lor (Z.lor po_replace po_add) po_remove) <> 0 ->
      Z.land opts po_replace <> po_replace ->
      Z.land opts po_nofollow <> po_nofollow ->
      let current := status_prms (fst (symlink_status fs p)) in
      let mask := if Z.land opts po_add =? po_add
                  then Z.lor current prms
                  else Z.ldiff current prms in
      permissions_ec po_replace po_add po_remove po_nofollow prms opts ec fs p
      = match sys_chmod fs (c_str p) mask with
        | Ok fs' => (fs', snd (symlink_status fs p))
        | Err errno => (fs, Zpos errno)
        end).
Proof.
  split.
  - intros H. unfold permissions_ec. rewrite H. reflexivity.
  - intros Hany Hrep Hnof current mask. unfold permissions_ec.
    apply Z.eqb_neq in Hany, Hrep, Hnof. rewrite Hany.
    destruct (symlink_status fs p) as [st ec1] eqn:Hs.
    unfold permissions_mask. rewrite Hrep, Hnof. simpl.
    subst mask current. simpl.
    rewrite Z.ldiff_land.
    destruct (Z.land opts po_add =? po_add); reflexivity.
Qed.

End PermissionFacts.

End OperationFacts.

(* ===================================================================== *)
(** * C3: [equivalent] *)

Section EquivalentFacts.

Context {os : OS} {wos : WinOS}.

Local Open Scope Z_scope.

(** C3, amended.  POSIX grammar: when exactly one [::stat] fails the
    result is [false] with the code clear; when both fail the result is
    [false] and the code is the error of the first failure; when both
    succeed the code is clear and the result compares device, inode,
    size and modification time, which is the comparison of device and
    inode whenever entries of equal device and inode report equal size
    and modification time.  Windows grammar: the same for [CreateFileW],
    and with both handles and their information obtained the result
    compares last-write time, file index, size and volume serial. *)
Theorem equivalent_cases (errno0 : Z) (fs : fsys) (wfs : wfsys)
        (path1 path2 : path) :
  (forall st1 e2,
      sys_stat fs (c_str path1) = Ok st1 ->
      sys_stat fs (c_str path2) = Err e2 ->
      equivalent_ec errno0 fs path1 path2 = (false, ec_clear))
  /\ (forall e1 st2,
         sys_stat fs (c_str path1) = Err e1 ->
         sys_stat fs (c_str path2) = Ok st2 ->
         equivalent_ec errno0 fs path1 path2 = (false, ec_clear))
  /\ (forall e1 e2,
         sys_stat fs (c_str path1) = Err e1 ->
         sys_stat fs (c_str path2) = Err e2 ->
         equivalent_ec errno0 fs path1 path2 = (false, Zpos e1)
         /\ ec_set (Zpos e1) = true)
  /\ (forall st1 st2,
         sys_stat fs (c_str path1) = Ok st1 ->
         sys_stat fs (c_str path2) = Ok st2 ->
         equivalent_ec errno0 fs path1 path2
         = ((st_dev st1 =? st_dev st2) && (st_ino st1 =? st_ino st2)
            && (st_size st1 =? st_size st2)
            && (st_mtime st1 =? st_mtime st2), ec_clear)
         /\ ((st_dev st1 = st_dev st2 -> st_ino st1 = st_ino st2 ->
              st_size st1 = st_size st2 /\ st_mtime st1 = st_mtime st2) ->
             equivalent_ec errno0 fs path1 path2
             = ((st_dev st1 =? st_dev st2) && (st_ino st1 =? st_ino st2),
                ec_clear)))
  /\ (forall h1 e2,
         CreateFileW wfs (c_str path1) = Ok h1 ->
         CreateFileW wfs (c_str path2) = Err e2 ->
         win_equivalent_ec errno0 wfs path1 path2 = (false, ec_clear))
  /\ (forall e1 h2,
         CreateFileW wfs (c_str path1) = Err e1 ->
         CreateFileW wfs (c_str path2) = Ok h2 ->
         win_equivalent_ec errno0 wfs path1 path2 = (false, ec_clear))
  /\ (forall e1 e2,
         CreateFileW wfs (c_str path1) = Err e1 ->
         CreateFileW wfs (c_str path2) = Err e2 ->
         win_equivalent_ec errno0 wfs path1 path2 = (false, Zpos e1))
  /\ (forall h1 h2 inf1 inf2,
         CreateFileW wfs (c_str path1) = Ok h1 ->
         CreateFileW wfs (c_str path2) = Ok h2 ->
         GetFileInformationByHandle wfs h1 = Ok inf1 ->
         GetFileInformationByHandle wfs h2 = Ok inf2 ->
         win_equivalent_ec errno0 wfs path1 path2
         = ((ftLastWriteTime_dwLowDateTime inf1
             =? ftLastWriteTime_dwLowDateTime inf2)
            && (ftLastWriteTime_dwHighDateTime inf1
                =? ftLastWriteTime_dwHighDateTime inf2)
            && (nFileIndexHigh inf1 =? nFileIndexHigh inf2)
            && (nFileIndexLow inf1 =? nFileIndexLow inf2)
            && (nFileSizeHigh inf1 =? nFileSizeHigh inf2)
            && (nFileSizeLow inf1 =? nFileSizeLow inf2)
            && (dwVolumeSerialNumber inf1 =? dwVolumeSerialNumber inf2),
            ec_clear)).
Proof.
  repeat split.
  - intros st1 e2 H1 H2. unfold equivalent_ec. rewrite H1, H2. reflexivity.
  - intros e1 st2 H1 H2. unfold equivalent_ec. rewrite H1, H2. reflexivity.
  - unfold equivalent_ec. rewrite H, H0. reflexivity.
  - unfold equivalent_ec. rewrite H, H0. reflexivity.
  - intros Hino. unfold equivalent_ec. rewrite H, H0. f_equal.
    destruct (Z.eqb_spec (st_dev st1) (st_dev st2)) as [Hd | Hd];
      [| reflexivity].
    destruct (Z.eqb_spec (st_ino st1) (st_ino st2)) as [Hi | Hi];
      [| reflexivity].
    destruct (Hino Hd Hi) as [-> ->]. simpl.
    now rewrite !Z.eqb_refl.
  - intros h1 e2 H1 H2. unfold win_equivalent_ec. rewrite H1, H2.
    reflexivity.
  - intros e1 h2 H1 H2. unfold win_equivalent_ec. rewrite H1, H2.
    reflexivity.
  - intros e1 e2 H1 H2. unfold win_equivalent_ec. rewrite H1, H2.
    reflexivity.
  - intros h1 h2 inf1 inf2 H1 H2 H3 H4. unfold win_equivalent_ec.
    rewrite H1, H2, H3, H4. reflexivity.
Qed.

End EquivalentFacts.

(* ===================================================================== *)
(** * C4: [read_symlink] *)

Section ReadSymlinkFacts.

Context {os : OS}.

Local Open Scope Z_scope.

Lemma substring_prefix_length (t : string) (m : nat) :
  String.length (String.substring 0 m t) = Nat.min m (String.length t).
Proof.
  revert m. induction t as [| c t IH]; intros [| m]; simpl; try reflexivity.
  now rewrite IH.
Qed.

Lemma substring_prefix_all (t : string) (m : nat) :
  (String.length t <= m)%nat -> String.substring 0 m t = t.
Proof.
  revert m. induction t as [| c t IH]; intros [| m] H; simpl in *;
    try reflexivity; try lia.
  rewrite IH by lia. reflexivity.
Qed.

Lemma int_of_size_t_small (n : Z) : 0 <= n < 2 ^ 31 -> int_of_size_t n = n.
Proof.
  intros H. unfold int_of_size_t.
  rewrite Z.mod_small by lia. lia.
Qed.

(** A link has resolved type [symlink] only on the branch of
    [internal_status] that leaves the code clear. *)
Lemma get_file_type_symlink_clear (fs : fsys) (p : path) :
  fst (get_file_type fs p) = ft_symlink ->
  snd (get_file_type fs p) = ec_clear.
Proof.
  unfold get_file_type, status, internal_status.
  destruct (sys_lstat fs (c_str p)) as [st | e].
  - destruct (file_type_eqb _ ft_symlink);
      [destruct (sys_stat fs (c_str p)) |]; reflexivity.
  - destruct (e =? ENOENT)%positive; simpl; discriminate.
Qed.

(** The first of the buffers 256, 512, ... longer than a length. *)
Lemma first_longer_buffer (n : nat) :
  forall l : Z,
    0 <= l < 256 * 2 ^ Z.of_nat n ->
    exists rounds : nat,
      (rounds <= n)%nat
      /\ l < 256 * 2 ^ Z.of_nat rounds
      /\ (forall k : nat, (k < rounds)%nat -> 256 * 2 ^ Z.of_nat k <= l).
Proof.
  induction n as [| n IH]; intros l Hl.
  - exists 0%nat. split; [lia |]. split; [lia |]. intros k Hk. lia.
  - destruct (Z.lt_ge_cases l (256 * 2 ^ Z.of_nat n)) as [Hlt | Hge].
    + destruct (IH l (conj (proj1 Hl) Hlt)) as (r & Hr & H1 & H2).
      exists r. split; [lia |]. split; [exact H1 | exact H2].
    + exists (S n). split; [lia |]. split; [lia |].
      intros k Hk.
      assert (2 ^ Z.of_nat k <= 2 ^ Z.of_nat n)
        by (apply Z.pow_le_mono_r; lia).
      lia.
Qed.

(** A symbolic link whose target [::stat] finds has the resolved type of
    its target, and [read_symlink(ec)] rejects it as an invalid
    parameter without reading it. *)
Lemma read_symlink_of_resolvable_link (fuel : nat) (fs : fsys) (p : path)
      (st st' : stat_t) :
  sys_lstat fs (c_str p) = Ok st ->
  S_ISTYPE (st_mode st) S_IFLNK = true ->
  sys_stat fs (c_str p) = Ok st' ->
  S_ISTYPE (st_mode st') S_IFLNK = false ->
  read_symlink_ec fuel fs p = Some (Path "", ERROR_INVALID_PARAMETER).
Proof.
  intros Hl Hk Hs Hk'.
  unfold read_symlink_ec, get_file_type, status, internal_status.
  rewrite Hl.
  assert (Ht : type (file_status_from_st_mode (st_mode st)) = ft_symlink).
  { unfold file_status_from_st_mode, S_ISTYPE in *. apply Z.eqb_eq in Hk.
    rewrite Hk. reflexivity. }
  rewrite Ht, Hs. simpl. rewrite Hk'.
  repeat match goal with
         | |- context [if S_ISTYPE ?m ?k then _ else _] =>
             destruct (S_ISTYPE m k)
         end; reflexivity.
Qed.

Variables (fs : fsys) (p : path) (target : string).

(** [::readlink] places the target, cut to the size of the buffer. *)
Hypothesis readlink_copies :
  forall n : Z,
    0 < n ->
    sys_readlink fs (c_str p) n = Ok (Str.substr 0 (Z.to_nat n) target).

Let len : Z := Z.of_nat (String.length target).

(** With a buffer longer than the target a round returns it; [n]
    doublings away from such a buffer, [n + 1] rounds do. *)
Lemma readlink_loop_enough (n : nat) :
  forall (b : Z) (fuel : nat) (ec : error_code),
    0 < b < 2 ^ 31 ->
    len < 2 ^ 30 ->
    len < b * 2 ^ Z.of_nat n ->
    (n < fuel)%nat ->
    readlink_loop fuel fs p b ec = Some (Path target, ec).
Proof.
  induction n as [| n IH]; intros b fuel ec Hb Hlen Hn Hfuel;
    (destruct fuel as [| fuel]; [lia |]); simpl;
    rewrite (readlink_copies b) by lia; unfold Str.substr;
    rewrite substring_prefix_length, int_of_size_t_small by lia;
    subst len.
  - replace (Z.of_nat (Nat.min _ _) <? b) with true
      by (symmetry; apply Z.ltb_lt; lia).
    rewrite substring_prefix_all by lia. reflexivity.
  - destruct (Z.ltb_spec (Z.of_nat (Nat.min (Z.to_nat b)
                                            (String.length target))) b)
      as [Hlt | Hge].
    + rewrite substring_prefix_all by lia. reflexivity.
    + assert (Hbl : b <= Z.of_nat (String.length target)) by lia.
      unfold size_t_wrap. rewrite Z.mod_small by lia.
      apply IH; try lia.
      rewrite Nat2Z.inj_succ, Z.pow_succ_r in Hn by lia. lia.
Qed.

(** While the buffers are not longer than the target, every round
    doubles: [k + 1] rounds starting [k] doublings below the length of
    the target do not return. *)
Lemma readlink_loop_short (k : nat) :
  forall (b : Z) (ec : error_code),
    0 < b ->
    len < 2 ^ 30 ->
    b * 2 ^ Z.of_nat k <= len ->
    readlink_loop (S k) fs p b ec = None.
Proof.
  assert (Hround : forall (b : Z) (ec : error_code) (fuel : nat),
             0 < b -> len < 2 ^ 30 -> b <= len ->
             readlink_loop (S fuel) fs p b ec
             = readlink_loop fuel fs p (b * 2) ec).
  { intros b ec fuel Hb Hlen Hbl. cbn [readlink_loop].
    rewrite (readlink_copies b) by lia. unfold Str.substr.
    rewrite substring_prefix_length, int_of_size_t_small by lia.
    subst len.
    replace (Z.of_nat (Nat.min _ _) <? b) with false
      by (symmetry; apply Z.ltb_ge; lia).
    unfold size_t_wrap. rewrite Z.mod_small by lia. reflexivity. }
  induction k as [| k IH]; intros b ec Hb Hlen Hk.
  - rewrite Hround by (simpl in Hk; lia). reflexivity.
  - rewrite Nat2Z.inj_succ, Z.pow_succ_r in Hk by lia.
    assert (1 <= 2 ^ Z.of_nat k) by (apply Z.pow_le_mono_r with (b := 0); lia).
    rewrite Hround by nia.
    apply IH; lia.
Qed.

End ReadSymlinkFacts.

(** C4.  [read_symlink(ec)] returns the empty path with the
    invalid-parameter error whenever the resolved type of the path, the
    type [get_file_type(ec)] reports, is not [symlink]; when it is
    [symlink] the guard is passed and the result is that of the
    [::readlink] loop, started with a buffer of 256 bytes.  For such a
    path on which [::readlink] places the stored target (shorter than
    [2^30]) cut to the size of the buffer, the call returns the target
    with the code clear, and nothing else, after one [::readlink] per
    buffer of 256, 512, ... bytes up to the first that is longer than
    the target: every shorter buffer is filled and doubled. *)
Theorem read_symlink_contract {os : OS} (fs : fsys) (p : path) :
  (fst (get_file_type fs p) <> ft_symlink ->
   forall fuel : nat,
     read_symlink_ec fuel fs p = Some (Path "", ERROR_INVALID_PARAMETER))
  /\ (fst (get_file_type fs p) = ft_symlink ->
      forall fuel : nat,
        read_symlink_ec fuel fs p = readlink_loop fuel fs p 256 ec_clear)
  /\ (forall target : string,
         fst (get_file_type fs p) = ft_symlink ->
         (forall n : Z,
             (0 < n)%Z ->
             sys_readlink fs (c_str p) n
             = Ok (Str.substr 0 (Z.to_nat n) target)) ->
         (Z.of_nat (String.length target) < 2 ^ 30)%Z ->
         exists rounds : nat,
           (Z.of_nat (String.length target) < 256 * 2 ^ Z.of_nat rounds)%Z
           /\ (forall k : nat,
                  (k < rounds)%nat ->
                  (256 * 2 ^ Z.of_nat k
                   <= Z.of_nat (String.length target))%Z)
           /\ (forall fuel : nat,
                  (rounds < fuel)%nat ->
                  read_symlink_ec fuel fs p = Some (Path target, ec_clear))
           /\ read_symlink_ec rounds fs p = None
           /\ (forall (fuel : nat) (r : path * error_code),
                  read_symlink_ec fuel fs p = Some r ->
                  r = (Path target, ec_clear))).
Proof.
  assert (Hloop : fst (get_file_type fs p) = ft_symlink ->
                  forall fuel : nat,
                    read_symlink_ec fuel fs p
                    = readlink_loop fuel fs p 256 ec_clear).
  { intros Ht fuel.
    pose proof (get_file_type_symlink_clear fs p Ht) as Hec.
    unfold read_symlink_ec.
    destruct (get_file_type fs p) as [t ec]. simpl in Ht, Hec.
    subst t ec. reflexivity. }
  split; [| split; [exact Hloop |]].
  - intros Ht fuel. unfold read_symlink_ec.
    destruct (get_file_type fs p) as [t ec]. simpl in Ht.
    destruct (file_type_eqb t ft_symlink) eqn:He.
    + apply file_type_eqb_eq in He. contradiction.
    + reflexivity.
  - intros target Ht Hcopy Hlen.
    destruct (first_longer_buffer 22 (Z.of_nat (String.length target)))
      as (rounds & Hr & Hlt & Hshort).
    { split; [lia |]. change (256 * 2 ^ Z.of_nat 22)%Z with (2 ^ 30)%Z. lia. }
    exists rounds. split; [exact Hlt |]. split; [exact Hshort |].
    assert (Henough : forall fuel : nat,
               (rounds < fuel)%nat ->
               read_symlink_ec fuel fs p = Some (Path target, ec_clear)).
    { intros fuel Hfuel. rewrite (Hloop Ht).
      apply (readlink_loop_enough fs p target Hcopy rounds); lia. }
    assert (Hfew : forall fuel : nat,
               (fuel <= rounds)%nat -> read_symlink_ec fuel fs p = None).
    { intros fuel Hfuel. rewrite (Hloop Ht).
      destruct fuel as [| k]; [reflexivity |].
      apply (readlink_loop_short fs p target Hcopy k); try lia.
      apply Hshort. lia. }
    split; [exact Henough |]. split; [now apply Hfew |].
    intros fuel r Hret.
    destruct (Nat.lt_ge_cases rounds fuel) as [Hgt | Hle].
    + rewrite (Henough fuel Hgt) in Hret. congruence.
    + rewrite (Hfew fuel Hle) in Hret. discriminate.
Qed.

(* ===================================================================== *)
(** * C6: the counts of [remove_all] *)

Section RemoveAllFacts.

Context {os : OS}.

Local Open Scope Z_scope.

Lemma status_of_directory (fs : fsys) (p : path) (st : stat_t) :
  sys_lstat fs (c_str p) = Ok st ->
  S_ISTYPE (st_mode st) S_IFDIR = true ->
  status fs p = (FileStatus ft_directory (Z.land (st_mode st) 4095), ec_clear).
Proof.
  intros Hl Hd. unfold status, internal_status, file_status_from_st_mode.
  rewrite Hl, Hd. reflexivity.
Qed.

Lemma status_of_regular (fs : fsys) (p : path) (st : stat_t) :
  sys_lstat fs (c_str p) = Ok st ->
  S_ISTYPE (st_mode st) S_IFREG = true ->
  status fs p = (FileStatus ft_regular (Z.land (st_mode st) 4095), ec_clear).
Proof.
  intros Hl Hr. unfold status, internal_status, file_status_from_st_mode.
  rewrite Hl, Hr.
  assert (Hd : S_ISTYPE (st_mode st) S_IFDIR = false).
  { unfold S_ISTYPE in *. apply Z.eqb_eq in Hr. rewrite Hr. reflexivity. }
  rewrite Hd. reflexivity.
Qed.

Lemma status_of_missing (fs : fsys) (p : path) :
  sys_lstat fs (c_str p) = Err ENOENT ->
  status fs p = (FileStatus ft_not_found perms_unknown, Zpos ENOENT).
Proof.
  intros Hl. unfold status, internal_status. rewrite Hl. reflexivity.
Qed.

(** Over a stream of dot entries [impl::increment] runs to the end of
    the directory. *)
Lemma impl_increment_loop_dots (stream : list (sysres string)) :
  Forall dot_entry stream ->
  forall (i : impl) (ec : error_code),
    impl_current (fst (impl_increment_loop stream i ec)) = Path ""
    /\ snd (impl_increment_loop stream i ec) = ec.
Proof.
  induction 1 as [| r stream Hr _ IH]; intros i ec.
  - split; reflexivity.
  - destruct Hr as [-> | ->]; simpl; apply IH.
Qed.

(** A directory that holds only its dot entries opens at the end. *)
Lemma impl_new_dots (fs : fsys) (p : path) (stream : list (sysres string)) :
  sys_opendir fs (c_str p) = Ok stream ->
  Forall dot_entry stream ->
  not_at_end (impl_new fs p) = false /\ impl_ec (impl_new fs p) = ec_clear.
Proof.
  intros Ho Hs. unfold impl_new, not_at_end.
  destruct (empty p); simpl.
  - split; reflexivity.
  - rewrite Ho. unfold impl_increment. simpl.
    destruct (impl_increment_loop_dots stream Hs
                (Impl p (Some stream) "" (Path "")
                      (DirectoryEntry (Path "")) ec_clear) ec_clear)
      as [Hc He].
    destruct (impl_increment_loop stream _ ec_clear) as [i' ec'].
    simpl in *. subst. rewrite Hc. split; reflexivity.
Qed.

(** The status of a symbolic link whose target [::stat] finds is the
    status of the target. *)
Lemma status_of_link (fs : fsys) (p : path) (st st' : stat_t) :
  sys_lstat fs (c_str p) = Ok st ->
  S_ISTYPE (st_mode st) S_IFLNK = true ->
  sys_stat fs (c_str p) = Ok st' ->
  status fs p = (file_status_from_st_mode (st_mode st'), ec_clear).
Proof.
  intros Hl Hk Hs. unfold status, internal_status. rewrite Hl.
  assert (Ht : type (file_status_from_st_mode (st_mode st)) = ft_symlink).
  { unfold file_status_from_st_mode, S_ISTYPE in *. apply Z.eqb_eq in Hk.
    rewrite Hk. reflexivity. }
  rewrite Ht, Hs. reflexivity.
Qed.

(** The children that the loop of [remove_all] hands to the recursive
    call: a directory, and also a symbolic link to a directory, because
    the status of the child is read through the link. *)
Lemma directory_child_is_recursed (fs : fsys) (p : path) (st : stat_t) :
  sys_lstat fs (c_str p) = Ok st ->
  S_ISTYPE (st_mode st) S_IFDIR = true ->
  child_is_recursed (fst (directory_entry_status fs (DirectoryEntry p)))
  = true.
Proof.
  intros Hl Hd. unfold directory_entry_status. simpl.
  rewrite (status_of_directory fs p st Hl Hd). reflexivity.
Qed.

Lemma linked_directory_is_recursed (fs : fsys) (p : path) (st st' : stat_t) :
  sys_lstat fs (c_str p) = Ok st ->
  S_ISTYPE (st_mode st) S_IFLNK = true ->
  sys_stat fs (c_str p) = Ok st' ->
  S_ISTYPE (st_mode st') S_IFDIR = true ->
  child_is_recursed (fst (directory_entry_status fs (DirectoryEntry p)))
  = true.
Proof.
  intros Hl Hk Hs Hd. unfold directory_entry_status. simpl.
  rewrite (status_of_link fs p st st' Hl Hk Hs).
  unfold child_is_recursed, is_directory, file_status_from_st_mode.
  rewrite Hd. reflexivity.
Qed.

(** A regular file is removed directly. *)
Lemma regular_child_is_leaf (fs : fsys) (p : path) (st : stat_t) :
  sys_lstat fs (c_str p) = Ok st ->
  S_ISTYPE (st_mode st) S_IFREG = true ->
  child_is_recursed (fst (directory_entry_status fs (DirectoryEntry p)))
  = false.
Proof.
  intros Hl Hr. unfold directory_entry_status. simpl.
  rewrite (status_of_regular fs p st Hl Hr). reflexivity.
Qed.

(** The leaf branch of the loop counts a child whether or not it was
    removed: when the child is already gone ([::remove] reports
    [ENOENT]), [remove(ec)] returns [false] with the code clear and the
    loop goes on with the count raised by one.  The removal of the path
    itself, after the loop, counts only when [remove(ec)] returns
    [true]. *)
Lemma leaf_branch_counts_missing_child
      (rec : fsys -> path -> option (fsys * Z * error_code))
      (k : nat) (iter : impl) (fs : fsys) (count : Z) :
  not_at_end iter = true ->
  child_is_recursed (fst (directory_entry_status fs (_dir_entry iter)))
  = false ->
  sys_remove fs (c_str (de_path (_dir_entry iter))) = Err ENOENT ->
  remove_ec fs (de_path (_dir_entry iter)) = (fs, false, ec_clear)
  /\ remove_all_loop rec (S k) iter fs count ec_clear
     = remove_all_loop rec k (fst (impl_increment iter ec_clear)) fs
                       (uintmax_wrap (count + 1))
                       (snd (impl_increment iter ec_clear)).
Proof.
  intros Hnot Hleaf Hrm.
  assert (Hr : remove_ec fs (de_path (_dir_entry iter))
               = (fs, false, ec_clear))
    by (unfold remove_ec; rewrite Hrm; reflexivity).
  split; [exact Hr |].
  cbn [remove_all_loop]. rewrite Hnot. simpl.
  destruct (directory_entry_status fs (_dir_entry iter)) as [iter_fs ec1].
  simpl in Hleaf. rewrite Hleaf, Hr. simpl.
  destruct (impl_increment iter ec_clear) as [iter' ec']. reflexivity.
Qed.

(** One [impl::increment] over an open stream ends at the end state, or
    leaves a shorter stream. *)
Lemma impl_increment_loop_shape (stream : list (sysres string)) :
  forall (i : impl) (ec : error_code),
    impl_current (fst (impl_increment_loop stream i ec)) = Path ""
    \/ exists stream',
        _dir (fst (impl_increment_loop stream i ec)) = Some stream'
        /\ (List.length stream' < List.length stream)%nat.
Proof.
  induction stream as [| r stream IH]; intros i ec.
  - left. reflexivity.
  - destruct r as [d_name | errno]; simpl.
    + destruct (String.eqb d_name "." || String.eqb d_name "..").
      * destruct (IH (Impl (_base i) (Some stream) d_name
                           (append Posix (_base i) (Path d_name))
                           (DirectoryEntry
                              (append Posix (_base i) (Path d_name)))
                           (impl_ec i)) ec)
          as [H | (stream' & H1 & H2)].
        -- left. exact H.
        -- right. exists stream'. split; [exact H1 | lia].
      * right. exists stream. split; [reflexivity | lia].
    + left. reflexivity.
Qed.

(** The bound on the [for] loop of [remove_all] is never what stops it:
    started on an iterator whose stream is open unless it is at the end,
    with more rounds than the stream has entries plus one, the loop
    returns whenever the recursive calls do. *)
Lemma remove_all_loop_completes
      (rec : fsys -> path -> option (fsys * Z * error_code)) :
  (forall fs p, rec fs p <> None) ->
  forall (k : nat) (iter : impl) (fs : fsys) (count : Z) (ec : error_code),
    (_dir iter = None -> impl_current iter = Path "") ->
    (stream_length iter + 1 < k)%nat ->
    remove_all_loop rec k iter fs count ec <> None.
Proof.
  intros Hrec.
  assert (Hend : forall k iter fs count ec,
             impl_current iter = Path "" ->
             remove_all_loop rec (S k) iter fs count ec
             = Some (Left_loop fs count ec)).
  { intros k iter fs count ec H. cbn [remove_all_loop].
    unfold not_at_end. rewrite H. reflexivity. }
  assert (Hstep : forall (k : nat) (iter : impl) (ec : error_code),
             (stream_length iter + 1 < S k)%nat ->
             not_at_end iter = true ->
             (_dir iter = None -> impl_current iter = Path "") ->
             (forall iter' fs' count' ec',
                 (_dir iter' = None -> impl_current iter' = Path "") ->
                 (stream_length iter' + 1 < k)%nat ->
                 remove_all_loop rec k iter' fs' count' ec' <> None) ->
             forall fs' count' ec',
               remove_all_loop rec k (fst (impl_increment iter ec))
                               fs' count' ec' <> None).
  { intros k iter ec Hk Hnot Hwf IH fs' count' ec'.
    unfold impl_increment. unfold stream_length in Hk.
    destruct (_dir iter) as [stream |] eqn:Hdir.
    - destruct (impl_increment_loop_shape stream iter ec)
        as [H | (stream' & H1 & H2)].
      + destruct k as [| k]; [lia |]. rewrite Hend by exact H. discriminate.
      + apply IH.
        * rewrite H1. discriminate.
        * unfold stream_length. rewrite H1. lia.
    - unfold not_at_end in Hnot. rewrite (Hwf eq_refl) in Hnot.
      discriminate. }
  induction k as [| k IH]; intros iter fs count ec Hwf Hk; [lia |].
  cbn [remove_all_loop].
  destruct (not_at_end iter) eqn:Hnot; simpl; [| discriminate].
  destruct (ec_set ec); [discriminate |].
  destruct (directory_entry_status fs (_dir_entry iter)) as [iter_fs ec1].
  destruct (child_is_recursed iter_fs).
  - destruct (rec fs (de_path (_dir_entry iter))) as [[[fs' n] ec2] |] eqn:Hr.
    + destruct (ec_set ec2); [discriminate |].
      pose proof (Hstep k iter ec2 Hk Hnot Hwf IH) as H.
      destruct (impl_increment iter ec2) as [iter' ec3]. apply H.
    + elim (Hrec _ _ Hr).
  - destruct (remove_ec fs (de_path (_dir_entry iter))) as [[fs' r] ec2].
    destruct (ec_set ec2); [discriminate |].
    pose proof (Hstep k iter ec2 Hk Hnot Hwf IH) as H.
    destruct (impl_increment iter ec2) as [iter' ec3]. apply H.
Qed.

(** The iterator that [remove_all] constructs is at the end unless its
    stream is open. *)
Lemma impl_new_open_or_end (fs : fsys) (p : path) :
  _dir (impl_new fs p) = None -> impl_current (impl_new fs p) = Path "".
Proof.
  unfold impl_new.
  destruct (empty p); simpl; [reflexivity |].
  destruct (sys_opendir fs (c_str p)) as [stream | e]; simpl;
    [| reflexivity].
  unfold impl_increment. simpl.
  destruct (impl_increment_loop_shape stream
              (Impl p (Some stream) "" (Path "") (DirectoryEntry (Path ""))
                    ec_clear) ec_clear)
    as [H | (stream' & H1 & H2)];
    destruct (impl_increment_loop stream _ ec_clear) as [i' ec']; simpl in *.
  - intros _. exact H.
  - rewrite H1. discriminate.
Qed.

(** The four situations that C6 lists: [remove_all(ec)] returns [1] for
    a regular file that [::remove] removes, [1] for a directory holding
    only its dot entries that [::remove] removes, [0] with the file
    system untouched for a path that no call finds, and the
    unknown-count value [2^64 - 1] with the file system untouched for the
    path ["/"]; the code is clear in all four cases, and one level of
    recursion suffices. *)
Theorem remove_all_counts (fuel : nat) (fs : fsys) (p : path) :
  (forall (st : stat_t) (fs' : fsys),
      p <> Path "/" ->
      sys_lstat fs (c_str p) = Ok st ->
      S_ISTYPE (st_mode st) S_IFREG = true ->
      sys_remove fs (c_str p) = Ok fs' ->
      remove_all_ec (S fuel) fs p = Some (fs', 1, ec_clear))
  /\ (forall (st st' : stat_t) (stream : list (sysres string)) (fs' : fsys),
         p <> Path "/" ->
         sys_lstat fs (c_str p) = Ok st ->
         S_ISTYPE (st_mode st) S_IFDIR = true ->
         sys_stat fs (c_str p) = Ok st' ->
         sys_opendir fs (c_str p) = Ok stream ->
         Forall dot_entry stream ->
         sys_remove fs (c_str p) = Ok fs' ->
         remove_all_ec (S fuel) fs p = Some (fs', 1, ec_clear))
  /\ (p <> Path "/" ->
      sys_lstat fs (c_str p) = Err ENOENT ->
      sys_stat fs (c_str p) = Err ENOENT ->
      sys_remove fs (c_str p) = Err ENOENT ->
      remove_all_ec (S fuel) fs p = Some (fs, 0, ec_clear))
  /\ remove_all_ec (S fuel) fs (Path "/") = Some (fs, 2 ^ 64 - 1, ec_clear).
Proof.
  split; [| split; [| split]].
  - intros st fs' Hp Hl Hr Hrm.
    apply path_eqb_neq in Hp.
    cbn [remove_all_ec]. rewrite Hp, (status_of_regular fs p st Hl Hr).
    unfold is_directory. simpl. rewrite andb_false_r.
    unfold remove_ec. rewrite Hrm. reflexivity.
  - intros st st' stream fs' Hp Hl Hd Hs Ho Hdots Hrm.
    apply path_eqb_neq in Hp.
    cbn [remove_all_ec]. rewrite Hp, (status_of_directory fs p st Hl Hd).
    unfold exists_, to_string. unfold c_str in Hs. rewrite Hs.
    unfold is_directory, directory_iterator_ec. simpl.
    destruct (impl_new_dots fs p stream Ho Hdots) as [Hend Hec].
    rewrite Hec. cbn [remove_all_loop]. rewrite Hend. simpl.
    unfold remove_ec. rewrite Hrm. reflexivity.
  - intros Hp Hl Hs Hrm.
    apply path_eqb_neq in Hp.
    cbn [remove_all_ec]. rewrite Hp, (status_of_missing fs p Hl).
    unfold exists_, to_string. unfold c_str in Hs. rewrite Hs. simpl.
    unfold remove_ec. rewrite Hrm. reflexivity.
  - reflexivity.
Qed.

End RemoveAllFacts.

(* ===================================================================== *)
(** * The operations run on the in-memory file system *)

Section Runs.

Import Examples.

Local Open Scope Z_scope.

(** C1, evaluated.  In [linked_tree] the child [/d/l] of [/d] is a
    symbolic link ([lstat]) to the directory [/t].  The status that
    [remove_all] reads for it follows the link and is [directory], so the
    child is recursed into: the file [/t/y] behind the link is removed
    and counted, and [remove_all("/d")] returns [3] for the two entries
    [/d/l] and [/d] of the tree it was given, leaving
    [linked_tree_emptied] where removing the link as a leaf would leave
    [linked_tree_without_d]. *)
Theorem remove_all_descends_into_linked_directory :
  S_ISTYPE (match sys_lstat linked_tree "/d/l" with
            | Ok st => st_mode st
            | Err _ => 0
            end) S_IFLNK = true
  /\ type (fst (directory_entry_status linked_tree
                                       (DirectoryEntry (Path "/d/l"))))
     = ft_directory
  /\ remove_all_ec 2 linked_tree (Path "/d")
     = Some (linked_tree_emptied, 3, ec_clear)
  /\ sys_stat linked_tree "/t/y" = Ok (TreeFS.stat_of (TreeFS.file 5))
  /\ sys_stat linked_tree_emptied "/t/y" = Err ENOENT
  /\ sys_stat linked_tree_without_d "/t/y"
     = Ok (TreeFS.stat_of (TreeFS.file 5))
  /\ (TreeFS.size linked_tree - TreeFS.size linked_tree_emptied)%nat = 3%nat.
Proof. repeat split. Qed.

(** A tree without links loses exactly what is below the path. *)
Example remove_all_nested_tree :
  remove_all_ec 4 nested_tree (Path "/a") = Some (empty_root, 4, ec_clear)
  /\ (TreeFS.size nested_tree - TreeFS.size empty_root)%nat = 4%nat.
Proof. repeat split. Qed.

(** C5, evaluated.  [/l] is a dangling link of [small_tree]:
    [mkdirs(ec)] on it leaves the code [EEXIST], and the throwing
    [mkdirs()] returns [false] without raising. *)
Theorem mkdirs_swallows_error :
  snd (mkdirs_ec small_tree (Path "/l")) = Zpos EEXIST
  /\ ec_set (snd (mkdirs_ec small_tree (Path "/l"))) = true
  /\ snd (mkdirs small_tree (Path "/l")) = Returns false
  /\ raised (snd (mkdirs small_tree (Path "/l"))) = false
  /\ raised (snd (mkdir perms_all small_tree (Path "/l"))) = true.
Proof. repeat split. Qed.

(** C3, as stated, fails: of [/f] and [/zz] in [small_tree] exactly one
    cannot be identified, and [equivalent] returns [false] with the code
    clear; neither [/zz] nor [/yy] can, and it reports [ENOENT]. *)
Lemma equivalent_one_missing_counterexample :
  sys_stat small_tree "/f" = Ok (TreeFS.stat_of (TreeFS.file 2))
  /\ sys_stat small_tree "/zz" = Err ENOENT
  /\ sys_stat small_tree "/yy" = Err ENOENT
  /\ equivalent_ec 0 small_tree (Path "/f") (Path "/zz") = (false, ec_clear)
  /\ ec_set (snd (equivalent_ec 0 small_tree (Path "/f") (Path "/zz")))
     = false
  /\ equivalent_ec 0 small_tree (Path "/zz") (Path "/yy")
     = (false, Zpos ENOENT)
  /\ ec_set (snd (equivalent_ec 0 small_tree (Path "/zz") (Path "/yy")))
     = true.
Proof. repeat split. Qed.

(** [equivalent_cases] on [small_tree] and on the table [sample]. *)
Lemma equivalent_cases_witness :
  equivalent_ec 0 small_tree (Path "/f") (Path "/zz") = (false, ec_clear)
  /\ equivalent_ec 0 small_tree (Path "/zz") (Path "/f") = (false, ec_clear)
  /\ equivalent_ec 0 small_tree (Path "/zz") (Path "/yy")
     = (false, Zpos ENOENT)
  /\ equivalent_ec 0 small_tree (Path "/f") (Path "/k") = (true, ec_clear)
  /\ equivalent_ec 0 small_tree (Path "/f") (Path "/e") = (false, ec_clear)
  /\ win_equivalent_ec 0 TableWin.sample (Path "C:\a.txt") (Path "C:\no")
     = (false, ec_clear)
  /\ win_equivalent_ec 0 TableWin.sample (Path "C:\no") (Path "C:\a.txt")
     = (false, ec_clear)
  /\ win_equivalent_ec 0 TableWin.sample (Path "C:\no") (Path "C:\nope")
     = (false, Zpos TableWin.ERROR_FILE_NOT_FOUND)
  /\ win_equivalent_ec 0 TableWin.sample (Path "C:\a.txt")
                       (Path "C:\hardlink.txt")
     = (true, ec_clear).
Proof.
  pose proof (fun a b =>
                equivalent_cases (os := tree_os) (wos := table_wos)
                                 0 small_tree TableWin.sample
                                 (Path a) (Path b)) as E.
  split; [| split; [| split; [| split; [| split; [| split; [| split;
    [| split]]]]]]].
  - eapply (proj1 (E "/f" "/zz")%string); reflexivity.
  - eapply (proj1 (proj2 (E "/zz" "/f")%string)); reflexivity.
  - eapply (proj1 (proj2 (proj2 (E "/zz" "/yy")%string))); reflexivity.
  - destruct (proj1 (proj2 (proj2 (proj2 (E "/f" "/k")%string)))
                (TreeFS.stat_of (TreeFS.file 2))
                (TreeFS.stat_of (TreeFS.file 2)) eq_refl eq_refl)
      as [_ H].
    rewrite H; [reflexivity | intros; split; reflexivity].
  - destruct (proj1 (proj2 (proj2 (proj2 (E "/f" "/e")%string)))
                (TreeFS.stat_of (TreeFS.file 2))
                (TreeFS.stat_of (TreeFS.dir 3 [])) eq_refl eq_refl)
      as [H _].
    rewrite H. reflexivity.
  - eapply (proj1 (proj2 (proj2 (proj2 (proj2
             (E "C:\a.txt" "C:\no")%string)))));
      reflexivity.
  - eapply (proj1 (proj2 (proj2 (proj2 (proj2 (proj2
             (E "C:\no" "C:\a.txt")%string))))));
      reflexivity.
  - eapply (proj1 (proj2 (proj2 (proj2 (proj2 (proj2 (proj2
             (E "C:\no" "C:\nope")%string)))))));
      reflexivity.
  - rewrite (proj2 (proj2 (proj2 (proj2 (proj2 (proj2 (proj2
               (E "C:\a.txt" "C:\hardlink.txt")%string))))))
               0%nat 1%nat
               (ByHandleFileInformation 10 20 0 7 0 100 99)
               (ByHandleFileInformation 10 20 0 7 0 100 99)
               eq_refl eq_refl eq_refl eq_refl).
    reflexivity.
Defined.

(** [read_symlink_contract] on the dangling link [/l -> /nowhere] and
    on the regular file [/f] of [small_tree]. *)
Lemma read_symlink_contract_witness :
  read_symlink_ec 1 small_tree (Path "/l") = Some (Path "/nowhere", ec_clear)
  /\ read_symlink_ec 1 small_tree (Path "/f")
     = Some (Path "", ERROR_INVALID_PARAMETER).
Proof.
  split.
  - destruct (proj2 (proj2 (read_symlink_contract (os := tree_os) small_tree
                                                  (Path "/l")))
                    "/nowhere"%string)
      as (rounds & Hlt & Hshort & Hret & _).
    + reflexivity.
    + intros n Hn. simpl. unfold TreeFS.readlink.
      destruct (Z.leb_spec n 0); [lia | reflexivity].
    + reflexivity.
    + apply Hret.
      destruct rounds as [| k]; [lia |].
      specialize (Hshort 0%nat (Nat.lt_0_succ k)). simpl in Hshort. lia.
  - apply (proj1 (read_symlink_contract (os := tree_os) small_tree
                                        (Path "/f"))).
    discriminate.
Defined.

(** C6, evaluated.  [loop_tree] holds the directory [/d] with a link
    [l] to [/d] itself and a file [x].  [remove_all("/d")] follows the
    link 40 levels deep, removes the link there, and from then on every
    level finds its listed child [x] already unreachable and counts it
    all the same: the call returns [43] with the code clear, and has
    removed the three entries [/d/l], [/d/x] and [/d]. *)
Theorem remove_all_overcounts_vanished_children :
  remove_all_ec 41 loop_tree (Path "/d") = Some (empty_root, 43, ec_clear)
  /\ (TreeFS.size loop_tree - TreeFS.size empty_root)%nat = 3%nat.
Proof. split; vm_compute; reflexivity. Qed.

(** How the run above gets there.  Through 40 links the path still is
    a directory to [status]; through 41 [::stat] fails with [ELOOP], the
    status keeps the type [symlink] of [lstat], and the child is removed
    as a leaf, which unlinks [/d/l].  From then on the listed child [x]
    of every level cannot be found, [remove(ec)] returns [false] for it
    with the code clear, and so for the level itself. *)
Example remove_all_at_the_link_limit :
  type (fst (status loop_tree (Path (through_links 40)))) = ft_directory
  /\ sys_stat loop_tree (through_links 41) = Err ELOOP
  /\ status loop_tree (Path (through_links 41))
     = (FileStatus ft_symlink 511, ec_clear)
  /\ remove_ec loop_tree (Path (through_links 41))
     = (loop_tree_unlinked, true, ec_clear)
  /\ status loop_tree_unlinked (Path (through_links 40 ++ "/x"))
     = (FileStatus ft_not_found perms_unknown, Zpos ENOENT)
  /\ remove_ec loop_tree_unlinked (Path (through_links 40 ++ "/x"))
     = (loop_tree_unlinked, false, ec_clear)
  /\ remove_ec loop_tree_unlinked (Path (through_links 40))
     = (loop_tree_unlinked, false, ec_clear)
  /\ remove_all_ec 1 loop_tree_unlinked (Path "/d")
     = Some (empty_root, 2, ec_clear).
Proof. repeat split. Qed.

(** The resolved type of a link is that of its target where [::stat]
    finds one.  [/k] is a symbolic link to the regular file [/f] of
    [small_tree]: [lstat] reports a link, [readlink] would place its
    target ["/f"], the resolved type is [regular], and
    [read_symlink(ec)] returns the empty path with the
    invalid-parameter error. *)
Example read_symlink_rejects_resolvable_link :
  S_ISTYPE (match sys_lstat small_tree "/k" with
            | Ok st => st_mode st
            | Err _ => 0
            end) S_IFLNK = true
  /\ sys_readlink small_tree "/k" 256 = Ok "/f"%string
  /\ get_file_type small_tree (Path "/k") = (ft_regular, ec_clear)
  /\ read_symlink_ec 1 small_tree (Path "/k")
     = Some (Path "", ERROR_INVALID_PARAMETER).
Proof. repeat split. Qed.

(** C10, as stated, fails for the dangling link [/l] of [small_tree]:
    the path names an existing entry, and [mkdir] attempts the creation
    and returns [false] with the code [EEXIST]. *)
Lemma mkdir_dangling_link_counterexample :
  S_ISTYPE (match sys_lstat small_tree "/l" with
            | Ok st => st_mode st
            | Err _ => 0
            end) S_IFLNK = true
  /\ type (fst (status small_tree (Path "/l"))) = ft_symlink
  /\ exists_ small_tree (Path "/l") = false
  /\ mkdir_ec perms_all small_tree (Path "/l")
     = (small_tree, false, Zpos EEXIST)
  /\ ec_set (snd (mkdir_ec perms_all small_tree (Path "/l"))) = true.
Proof. repeat split. Qed.

(** [remove_all_counts] on the file [/f], the empty directory [/e] and
    the missing [/zz] of [small_tree]. *)
Lemma remove_all_counts_witness :
  remove_all_ec 1 small_tree (Path "/f")
  = Some (TreeFS.dir 1 [("e", TreeFS.dir 3 []);
                        ("l", TreeFS.link 4 "/nowhere");
                        ("k", TreeFS.link 5 "/f")]%string, 1, ec_clear)
  /\ remove_all_ec 1 small_tree (Path "/e")
     = Some (TreeFS.dir 1 [("f", TreeFS.file 2);
                           ("l", TreeFS.link 4 "/nowhere");
                           ("k", TreeFS.link 5 "/f")]%string, 1, ec_clear)
  /\ remove_all_ec 1 small_tree (Path "/zz") = Some (small_tree, 0, ec_clear)
  /\ remove_all_ec 1 small_tree (Path "/")
     = Some (small_tree, 18446744073709551615, ec_clear).
Proof.
  split; [| split; [| split]].
  - eapply (proj1 (remove_all_counts (os := tree_os) 0 small_tree
                                     (Path "/f")));
      try reflexivity; discriminate.
  - eapply (proj1 (proj2 (remove_all_counts (os := tree_os) 0 small_tree
                                            (Path "/e"))));
      try reflexivity; try discriminate.
    apply Forall_cons; [left; reflexivity |].
    apply Forall_cons; [right; reflexivity | apply Forall_nil].
  - apply (proj1 (proj2 (proj2 (remove_all_counts (os := tree_os) 0
                                                  small_tree (Path "/zz")))));
      try reflexivity; discriminate.
  - apply (proj2 (proj2 (proj2 (remove_all_counts (os := tree_os) 0
                                                  small_tree (Path "/"))))).
Defined.

(** [mkdir_existing_entry] on the regular file [/f] of [small_tree],
    and on [/x/y], whose parent is missing. *)
Lemma mkdir_existing_entry_witness :
  mkdir_ec perms_all small_tree (Path "/f") = (small_tree, false, ec_clear)
  /\ mkdir_ec perms_all small_tree (Path "/x/y")
     = (small_tree, false, Zpos ENOENT).
Proof.
  split.
  - eapply (proj1 (mkdir_existing_entry (os := tree_os) perms_all small_tree
                                        (Path "/f")));
      reflexivity.
  - eapply (proj2 (mkdir_existing_entry (os := tree_os) perms_all small_tree
                                        (Path "/x/y")));
      reflexivity.
Defined.

(** [permissions_contract] with the enumerators [replace = 3],
    [add = 1], [remove = 2], [nofollow = 4]: no option at all on [/f],
    and the execute bits added to its mode [0644]. *)
Lemma permissions_contract_witness :
  permissions_ec 3 1 2 4 73 0 ec_clear small_tree (Path "/f")
  = (small_tree, ERROR_INVALID_PARAMETER)
  /\ sys_stat (fst (permissions_ec 3 1 2 4 73 1 ec_clear small_tree
                                   (Path "/f"))) "/f"
     = Ok (Stat (Z.lor S_IFREG 493) 1 0 0 1 2)
  /\ sys_stat (fst (permissions_ec 3 1 2 4 36 2 ec_clear small_tree
                                   (Path "/f"))) "/f"
     = Ok (Stat (Z.lor S_IFREG 384) 1 0 0 1 2).
Proof.
  split; [| split].
  - apply (proj1 (permissions_contract (os := tree_os) 3 1 2 4 73 0 ec_clear
                                       small_tree (Path "/f"))).
    reflexivity.
  - rewrite (proj2 (permissions_contract (os := tree_os) 3 1 2 4 73 1
                                         ec_clear small_tree (Path "/f")));
      try discriminate.
    reflexivity.
  - rewrite (proj2 (permissions_contract (os := tree_os) 3 1 2 4 36 2
                                         ec_clear small_tree (Path "/f")));
      try discriminate.
    reflexivity.
Defined.

End Runs.


(* ===================================================================== *)
(** * Properties of the in-memory file system *)

Section TreeFacts.

Import TreeFS.

(** A name that resolves when the last link is followed resolves when
    it is not: what [stat] finds, [lstat] finds. *)
Lemma walk_follow_found (root : node) :
  forall (fuel links : nat) (cur comps loc : list string) (n : node),
    walk fuel links root true cur comps = Ok loc ->
    get root loc = Some n ->
    exists loc' n',
      walk fuel links root false cur comps = Ok loc'
      /\ get root loc' = Some n'.
Proof.
  induction fuel as [| fuel IH]; intros links cur comps loc n Hw Hg;
    [discriminate |].
  simpl in *.
  destruct comps as [| c rest].
  - exists loc, n. split; assumption.
  - destruct (get root cur) as [[a | a t | a es] |]; try discriminate.
    destruct (String.eqb c "."); [eapply IH; eassumption |].
    destruct (String.eqb c ".."); [eapply IH; eassumption |].
    destruct (get root (cur ++ [c])%list) as [[a' | a' t | a' es'] |] eqn:Hc;
      try discriminate.
    + eapply IH; eassumption.
    + destruct rest as [| r rest].
      * exists (cur ++ [c])%list, (Lnk a' t). split; [reflexivity | exact Hc].
      * destruct links as [| links]; [discriminate |].
        eapply IH; eassumption.
    + eapply IH; eassumption.
Qed.

Lemma stat_found_lstat_found (root : node) (p : string) (st : stat_t) :
  stat root p = Ok st -> exists st', lstat root p = Ok st'.
Proof.
  unfold stat, lstat, query, resolve.
  destruct (Str.is_empty p); [discriminate |].
  destruct (walk max_steps MAXSYMLINKS root true [] (split p))
    as [loc | e] eqn:Hw; [| discriminate].
  destruct (get root loc) as [n |] eqn:Hg; [| discriminate].
  intros _.
  destruct (walk_follow_found root max_steps MAXSYMLINKS [] (split p) loc n
                              Hw Hg)
    as (loc' & n' & Hw' & Hg').
  rewrite Hw', Hg'. eexists. reflexivity.
Qed.

(** On the in-memory file system [exists()] alone decides: [mkdir] on a
    path for which it holds returns [false], leaves the code clear and
    the tree as it was. *)
Lemma mkdir_existing_on_tree (prms : perms) (root : node) (p : path) :
  exists_ (os := tree_os) root p = true ->
  mkdir_ec (os := tree_os) prms root p = (root, false, ec_clear).
Proof.
  intros He.
  assert (Hs : exists st, stat root (c_str p) = Ok st).
  { unfold exists_, to_string in He. simpl in He. unfold c_str.
    destruct (stat root (_path p)) as [st | e]; [| discriminate].
    exists st. reflexivity. }
  destruct Hs as [st Hs].
  destruct (stat_found_lstat_found root (c_str p) st Hs) as [st' Hl].
  exact (mkdir_ec_on_existing (os := tree_os) prms root p st' Hl He).
Qed.

End TreeFacts.

(* ===================================================================== *)
(** * Further properties of the lexical part *)

Section TraversalFacts.
Variable pl : platform.

Lemma has_root_path_cases (p : path) :
  has_root_path pl p = has_root_name pl p || has_root_directory pl p.
Proof.
  unfold has_root_path, has_root_name, has_root_directory, root_path.
  destruct (root_directory_cases pl p) as [-> | ->].
  - unfold append_with. cbn [empty _path Str.is_empty].
    destruct (root_name pl p) as [[| c s]]; cbn.
    + reflexivity.
    + destruct (_ && _); reflexivity.
  - rewrite orb_true_r.
    destruct (root_name pl p) as [rn].
    unfold append_with.
    replace (empty (Path (sep_string pl))) with false by (destruct pl; reflexivity).
    destruct (_ && _).
    + destruct pl; reflexivity.
    + rewrite has_root_directory_sep.
      replace (has_root_name pl (Path (sep_string pl))) with false
        by (destruct pl; reflexivity).
      destruct (root_name pl (Path rn)) as [acc].
      destruct pl; cbn; destruct acc; reflexivity.
Qed.


(** ** Prefixes and suffixes *)

Lemma substring_substr_from (s : string) :
  forall n : nat, String.substring 0 n s ++ Str.substr_from n s = s.
Proof.
  induction s as [| c s IH]; intros [| n]; simpl; try reflexivity.
  now rewrite IH.
Qed.

Lemma at_app_length (a b : string) :
  Str.at_ (a ++ b) (String.length a) = Str.at_ b 0.
Proof.
  unfold Str.at_. induction a as [| c a IH]; simpl; [reflexivity | exact IH].
Qed.

Lemma string_length_app (a b : string) :
  String.length (a ++ b) = String.length a + String.length b.
Proof. induction a as [| c a IH]; simpl; [reflexivity | now rewrite IH]. Qed.

Lemma root_name_prefix (p : path) :
  exists n : nat, _path (root_name pl p) = String.substring 0 n (_path p).
Proof.
  unfold root_name, Str.substr.
  destruct (_ && _).
  - now exists 2.
  - destruct (_ && _).
    + destruct (Str.find_first_of _ 3 (_path p)) as [pos |].
      * now exists pos.
      * exists (String.length (_path p)). simpl.
        pose proof (substring_substr_from (_path p) (String.length (_path p)))
          as H.
        assert (Hs : Str.substr_from (String.length (_path p)) (_path p) = "").
        { pose proof (substr_from_length (_path p) (String.length (_path p)))
            as Hl.
          destruct (Str.substr_from _ _); [reflexivity | simpl in Hl; lia]. }
        rewrite Hs in H.
        clear Hs. revert H. generalize (String.substring 0 (String.length (_path p)) (_path p)).
        intros t Ht. rewrite <- Ht at 1.
        clear. induction t; simpl; [reflexivity | now f_equal].
    + now exists 0; destruct (_path p).
Qed.

(** The root name followed by the root directory is a prefix of the
    native string, and the relative path a suffix of it. *)
Lemma root_prefix_relative_suffix (p : path) :
  (exists rest : string,
      _path p = _path (root_name pl p) ++ _path (root_directory pl p) ++ rest)
  /\ (exists front : string, _path p = front ++ _path (relative_path pl p)).
Proof.
  split.
  - destruct (root_name_prefix p) as [n Hn].
    pose proof (substring_substr_from (_path p) n) as Hs.
    rewrite <- Hn in Hs.
    unfold root_directory.
    destruct (_ && _) eqn:Hc.
    + apply andb_prop in Hc. destruct Hc as [Hlt Hc].
      apply Nat.ltb_lt in Hlt.
      rewrite <- Hs in Hc at 1. rewrite at_app_length in Hc.
      rewrite <- Hs in Hlt at 1. rewrite string_length_app in Hlt.
      destruct (Str.substr_from n (_path p)) as [| c r]; [simpl in Hlt; lia |].
      unfold Str.at_ in Hc. simpl in Hc.
      apply Ascii.eqb_eq in Hc. subst c.
      exists r. now rewrite <- Hs at 1.
    + exists (Str.substr_from n (_path p)). now rewrite <- Hs at 1.
  - unfold relative_path. simpl.
    eexists. symmetry. apply substring_substr_from.
Qed.


(** ** [get_extension] *)

Lemma find_last_of_aux_spec (c : ascii) :
  forall (s : string) (k : nat) (acc : option nat),
    match Str.find_last_of_aux c s k acc with
    | Some r =>
        (acc = Some r /\ occurs c s = false)
        \/ (exists rest : string,
               k <= r /\ Str.substr_from (r - k) s = String c rest
               /\ occurs c rest = false)
    | None => acc = None /\ occurs c s = false
    end.
Proof.
  induction s as [| x s IH]; intros k acc; simpl.
  - destruct acc; [left |]; split; reflexivity.
  - specialize (IH (S k) (if Ascii.eqb x c then Some k else acc)).
    destruct (Str.find_last_of_aux c s (S k) _) as [r |].
    + destruct IH as [[Hacc Hno] | (rest & Hle & Hsub & Hno)].
      * destruct (Ascii.eqb_spec x c) as [-> | Hx].
        -- injection Hacc as <-. right. exists s.
           rewrite Nat.sub_diag. simpl. repeat split; [lia | exact Hno].
        -- left. simpl. split; [exact Hacc | exact Hno].
      * right. exists rest. replace (r - k) with (S (r - S k)) by lia.
        simpl. repeat split; [lia | exact Hsub | exact Hno].
    + destruct IH as [Hacc Hno].
      destruct (Ascii.eqb_spec x c) as [-> | Hx]; [discriminate |].
      simpl. split; [exact Hacc | exact Hno].
Qed.

Lemma occurs_substr_from (c : ascii) (s : string) :
  forall n : nat, occurs c (Str.substr_from n s) = true -> occurs c s = true.
Proof.
  induction s as [| x s IH]; intros [| n]; simpl; intro H; try assumption.
  rewrite (IH n H). apply orb_true_r.
Qed.

Lemma substr_from_S (s : string) (n : nat) :
  Str.substr_from (S n) s = Str.substr_from n (Str.substr_from 1 s).
Proof. destruct s; [destruct n |]; reflexivity. Qed.

(** X1.  [get_extension] returns the empty path, or the
    part of the file name that starts at its last dot, a dot that is
    not the first character of the file name.  It returns the empty path
    exactly when the file name has no dot past its first character: a
    name such as [".profile"] has no extension, and a name that ends in
    a dot has the extension ["."]. *)
Theorem get_extension_shape (p : path) :
  let file_name := native (get_filename pl p) in
  (get_extension pl p = Path ""
   \/ exists stem rest : string,
       stem <> "" /\ file_name = stem ++ String "." rest
       /\ occurs "." rest = false
       /\ get_extension pl p = Path (String "." rest))
  /\ (get_extension pl p = Path ""
      <-> occurs "." (Str.substr_from 1 file_name) = false).
Proof.
  intros file_name. unfold get_extension. fold file_name.
  unfold Str.find_last_of.
  pose proof (find_last_of_aux_spec "."%char file_name 0 None) as H.
  destruct (Str.find_last_of_aux "."%char file_name 0 None) as [[| n] |].
  - destruct H as [[H _] | (rest & _ & Hsub & Hno)]; [discriminate |].
    simpl in Hsub. split; [now left |].
    split; [| reflexivity]. intros _. rewrite Hsub. exact Hno.
  - destruct H as [[H _] | (rest & _ & Hsub & Hno)]; [discriminate |].
    rewrite Nat.sub_0_r in Hsub. split.
    + right. exists (String.substring 0 (S n) file_name), rest.
      repeat split.
      * destruct file_name; [discriminate | simpl; discriminate].
      * rewrite <- Hsub. symmetry. apply substring_substr_from.
      * exact Hno.
      * now rewrite Hsub.
    + rewrite Hsub. split; [discriminate |].
      intros Hocc. exfalso.
      rewrite substr_from_S in Hsub.
      assert (Ht : occurs "." (Str.substr_from 1 file_name) = true).
      { apply (occurs_substr_from _ _ n). rewrite Hsub. reflexivity. }
      congruence.
  - destruct H as [_ Hno]. split; [now left |].
    split; [| reflexivity]. intros _.
    destruct (occurs "." (Str.substr_from 1 file_name)) eqn:E;
      [| reflexivity].
    apply occurs_substr_from in E. congruence.
Qed.


(** ** Forward and backward traversal *)

Lemma iterator_incr_at_end (it : iterator) :
  _pos it = _last it ->
  it_str (iterator_incr pl it) = it_str it
  /\ _pos (iterator_incr pl it) = _last it.
Proof.
  intros H. unfold iterator_incr.
  match goal with
  | |- context [update_current pl ?i] =>
      destruct (update_current_fields pl i) as (Hs & Hp & _)
  end.
  rewrite Hs, Hp. simpl. split; [reflexivity |].
  assert (Hi : increment pl it (_pos it) = _last it).
  { unfold increment. rewrite H, Nat.eqb_refl. reflexivity. }
  rewrite Hi. unfold _last.
  destruct (String.length (it_str it)) eqn:E; simpl; [reflexivity |].
  rewrite E, Nat.eqb_refl. reflexivity.
Qed.

Lemma iter_incr_invariant (it : iterator) :
  _pos it <= _last it ->
  forall k : nat,
    it_str (Nat.iter k (iterator_incr pl) it) = it_str it
    /\ Nat.min (_pos it + k) (_last it)
       <= _pos (Nat.iter k (iterator_incr pl) it) <= _last it.
Proof.
  intros Hle. induction k as [| k (Hs & Hp)]; simpl.
  - split; [reflexivity | lia].
  - set (it' := Nat.iter k (iterator_incr pl) it) in *.
    assert (Hl : _last it' = _last it) by (unfold _last; now rewrite Hs).
    destruct (Nat.eq_dec (_pos it') (_last it')) as [E | E].
    + destruct (iterator_incr_at_end it' E) as [Hs' Hp'].
      rewrite Hs', Hs, Hp'. split; [reflexivity | lia].
    + destruct (iterator_incr_advances pl it') as [Hs' Hp']; [lia |].
      rewrite Hs', Hs. split; [reflexivity | lia].
Qed.

Lemma components_from_length :
  forall (fuel : nat) (it : iterator),
    _pos it <= _last it ->
    List.length (components_from pl fuel it) <= _last it - _pos it.
Proof.
  induction fuel as [| fuel IH]; intros it Hle; simpl; [lia |].
  destruct (Nat.eqb_spec (_pos it) (_last it)) as [E | E]; simpl; [lia |].
  destruct (iterator_incr_advances pl it) as [Hs Hp]; [lia |].
  specialize (IH (iterator_incr pl it)).
  unfold _last in *. rewrite Hs in *. lia.
Qed.

(** X2.  On either grammar, incrementing [begin()]
    as many times as the native string has characters gives an iterator
    equal to [end()]: every increment before [end()] moves forward and
    an increment at [end()] stays there.  The traversal from [begin()]
    to [end()] so yields at most one component per character. *)
Theorem forward_traversal_ends (p : path) :
  iterator_eqb
    (Nat.iter (String.length (_path p)) (iterator_incr pl) (path_begin pl p))
    (path_end pl p) = true
  /\ List.length (components pl p) <= String.length (_path p).
Proof.
  split.
  - unfold iterator_eqb. apply Nat.eqb_eq.
    destruct (iter_incr_invariant (path_begin pl p)) with
      (k := String.length (_path p)) as [_ H].
    + unfold path_begin, _last. simpl. lia.
    + unfold path_begin, path_end, _last in *. simpl in *. lia.
  - unfold components.
    pose proof (components_from_length (S (String.length (_path p)))
                  (path_begin pl p)) as H.
    unfold path_begin, _last in *. simpl in *. lia.
Qed.

Lemma rfind_base_aux_le (f : ascii -> bool) :
  forall (s : string) (i k acc : nat),
    acc <= k -> Str.rfind_base_aux f s i k acc <= k + i.
Proof.
  induction s as [| c s IH]; intros [| i] k acc H; simpl; try lia.
  specialize (IH i (S k) (if f c then S k else acc)).
  destruct (f c); lia.
Qed.

Lemma rfind_base_le (f : ascii -> bool) (i : nat) (s : string) :
  Str.rfind_base f i s <= i.
Proof. unfold Str.rfind_base. apply (rfind_base_aux_le f s i 0 0). lia. Qed.

Lemma posix_decrement_lt (it : iterator) (pos : nat) :
  0 < pos -> decrement Posix it pos < pos.
Proof.
  intros H. unfold decrement, _first.
  destruct (Nat.eqb_spec pos 0) as [E | _]; [lia |]. cbn [negb].
  destruct (_ && _); [| lia].
  pose proof (rfind_base_le (fun c => Ascii.eqb c slash) (pos - 1) (it_str it)).
  destruct (_ && _); lia.
Qed.


(** ** [increment] and [update_current] on the suffix at [_pos] *)

Lemma at_substr_from (s : string) :
  forall pos j : nat,
    Str.at_ s (pos + j) = Str.at_ (Str.substr_from pos s) j.
Proof.
  unfold Str.at_.
  induction s as [| c s IH]; intros [| pos] j; try reflexivity.
  simpl. apply IH.
Qed.

Lemma substr_from_add (s : string) :
  forall a b : nat,
    Str.substr_from (a + b) s = Str.substr_from b (Str.substr_from a s).
Proof.
  induction s as [| c s IH]; intros [| a] b; simpl; try reflexivity.
  - destruct b; reflexivity.
  - apply IH.
Qed.

Lemma substring_substr_from_0 (s : string) :
  forall pos n : nat,
    String.substring pos n s = String.substring 0 n (Str.substr_from pos s).
Proof.
  induction s as [| c s IH]; intros [| pos] n; simpl; try reflexivity.
  - destruct n; reflexivity.
  - apply IH.
Qed.

Lemma substr_from_empty (s : string) (pos : nat) :
  pos <= String.length s ->
  (pos =? String.length s) = Str.is_empty (Str.substr_from pos s).
Proof.
  intros H. pose proof (substr_from_length s pos) as Hl.
  destruct (Str.substr_from pos s); simpl in *.
  - apply Nat.eqb_eq. lia.
  - apply Nat.eqb_neq. lia.
Qed.

Lemma increment_step (s : string) (pos root : nat) (cur : path) (x : nat) :
  pos <= String.length s ->
  increment pl (Iterator s pos root cur) x
  = pos + step pl (pos =? 0) (Str.substr_from pos s).
Proof.
  intros Hle. unfold increment, _first, _last. cbn [it_str _pos].
  rewrite (substr_from_empty s pos Hle).
  pose proof (substr_from_length s pos) as Hl.
  pose proof (at_substr_from s pos) as Hat.
  pose proof (substr_from_add s pos) as Hadd.
  destruct (Str.substr_from pos s) as [| a t1] eqn:Et; cbn [Str.is_empty negb].
  - cbn. lia.
  - rewrite <- (Nat.add_0_r pos) at 1. rewrite Hat.
    change (Str.at_ (String a t1) 0) with a.
    replace (Nat.eqb pos 0) with (Nat.eqb pos 0) by reflexivity.
    assert (H1 : (S pos =? String.length s) = Str.is_empty t1).
    { destruct t1; cbn [Str.is_empty]; simpl in Hl;
        [apply Nat.eqb_eq | apply Nat.eqb_neq]; lia. }
    assert (A1 : Str.at_ s (S pos) = Str.at_ t1 0).
    { replace (S pos) with (pos + 1) by lia. rewrite Hat. reflexivity. }
    assert (S1 : Str.substr_from (S pos) s = t1).
    { replace (S pos) with (pos + 1) by lia. rewrite Hadd. reflexivity. }
    cbn [step].
    destruct (Ascii.eqb a (preferred_separator pl)).
    + rewrite H1, A1.
      destruct t1 as [| b t2]; cbn [Str.is_empty negb andb].
      * lia.
      * change (Str.at_ (String b t2) 0) with b.
        destruct (Ascii.eqb b (preferred_separator pl)); [| lia].
        assert (H2 : (S pos + 1 =? String.length s) = Str.is_empty t2).
        { destruct t2; cbn [Str.is_empty]; simpl in Hl;
            [apply Nat.eqb_eq | apply Nat.eqb_neq]; lia. }
        assert (A2 : Str.at_ s (S pos + 1) = Str.at_ t2 0).
        { replace (S pos + 1) with (pos + 2) by lia. rewrite Hat.
          reflexivity. }
        rewrite H2, A2.
        destruct (_ && _).
        -- unfold Str.find_from.
           replace (S (S pos)) with (pos + 2) by lia. rewrite Hadd.
           cbn [Str.substr_from]. lia.
        -- unfold Str.skip_from. rewrite S1. lia.
    + rewrite H1, A1.
      destruct (_ && _); [lia |].
      unfold Str.find_from. rewrite S1. lia.
Qed.


Lemma update_current_suffix (s : string) (pos root : nat) (cur0 : path) :
  pos <= String.length s ->
  let t := Str.substr_from pos s in
  _current (update_current pl (Iterator s pos root cur0))
  = if negb (pos =? 0) && negb (Str.is_empty t)
       && (Ascii.eqb (Str.at_ t 0) (preferred_separator pl)
           && negb (pos =? root))
       && Str.is_empty (Str.substr_from 1 t)
    then Path ""
    else
      let cur := String.substring 0 (step pl (pos =? 0) t) t in
      if (1 <? String.length cur)
         && Ascii.eqb (Str.at_ cur 0) (preferred_separator pl)
         && Ascii.eqb (Str.back cur) (preferred_separator pl)
      then Path (sep_string pl)
      else Path cur.
Proof.
  intros Hle t. unfold update_current. cbn [it_str _pos _root].
  rewrite (increment_step s pos root cur0 pos Hle). fold t.
  unfold _first, _last. cbn [it_str].
  rewrite (substr_from_empty s pos Hle). fold t.
  assert (A0 : Str.at_ s pos = Str.at_ t 0).
  { unfold t. rewrite <- at_substr_from. now rewrite Nat.add_0_r. }
  rewrite A0.
  assert (H1 : negb (Str.is_empty t) && (pos + 1 =? String.length s)
               = negb (Str.is_empty t) && Str.is_empty (Str.substr_from 1 t)).
  { unfold t. rewrite <- substr_from_add.
    pose proof (substr_from_length s pos) as Hl.
    destruct (Str.substr_from pos s) eqn:E; [reflexivity |].
    cbn [Str.is_empty negb andb]. apply substr_from_empty.
    simpl in Hl. lia. }
  replace (pos + step pl (pos =? 0) t - pos) with (step pl (pos =? 0) t)
    by lia.
  unfold Str.substr. rewrite substring_substr_from_0. fold t.
  set (c1 := negb (pos =? 0)).
  set (c3 := Ascii.eqb (Str.at_ t 0) (preferred_separator pl)
             && negb (pos =? root)).
  assert (H2 : c1 && negb (Str.is_empty t) && c3
               && (pos + 1 =? String.length s)
               = c1 && negb (Str.is_empty t) && c3
                 && Str.is_empty (Str.substr_from 1 t)).
  { destruct c1, c3; cbn [andb]; rewrite ?andb_false_r; try reflexivity.
    rewrite ?andb_true_r. exact H1. }
  rewrite H2. clear H2 H1.
  destruct (c1 && negb (Str.is_empty t) && c3
            && Str.is_empty (Str.substr_from 1 t)); [reflexivity |].
  cbv zeta.
  match goal with
  | |- context [if ?b then Iterator _ _ _ (Path (sep_string pl)) else _] =>
      destruct b
  end; reflexivity.
Qed.

Lemma no_separator_before_find (c : ascii) (t : string) :
  occurs c (String.substring 0 (Str.find_if (Ascii.eqb c) t) t) = false.
Proof.
  induction t as [| x t IH]; simpl; [reflexivity |].
  destruct (Ascii.eqb c x) eqn:E; simpl; [reflexivity |].
  rewrite Ascii.eqb_sym, E. exact IH.
Qed.

Lemma back_cons (d x : ascii) (u : string) :
  Str.back (String d (String x u)) = Str.back (String x u).
Proof. unfold Str.back, Str.at_. simpl. now rewrite Nat.sub_0_r. Qed.

Lemma back_of_run (c : ascii) (t : string) :
  forall d : ascii,
    d = c ->
    Str.back (String d (String.substring
                          0 (Str.find_if (fun x => negb (Ascii.eqb c x)) t) t))
    = c.
Proof.
  induction t as [| x t IH]; intros d ->; simpl; [reflexivity |].
  destruct (Ascii.eqb_spec c x) as [<- | Hx]; simpl; [| reflexivity].
  rewrite back_cons. now apply IH.
Qed.

Lemma substring_0_0 (s : string) : String.substring 0 0 s = "".
Proof. destruct s; reflexivity. Qed.

Lemma colon_is_no_separator : Ascii.eqb colon (preferred_separator pl) = false.
Proof. destruct pl; reflexivity. Qed.

Lemma step_component_shape (first : bool) (t : string) :
  let cur := String.substring 0 (step pl first t) t in
  component_shape
    pl first
    (if (1 <? String.length cur)
        && Ascii.eqb (Str.at_ cur 0) (preferred_separator pl)
        && Ascii.eqb (Str.back cur) (preferred_separator pl)
     then sep_string pl else cur) = true.
Proof.
  assert (Hsep : component_shape pl first (sep_string pl) = true).
  { unfold component_shape. rewrite String.eqb_refl.
    now rewrite orb_true_r. }
  intros cur.
  destruct (_ && _ && _) eqn:Htest; [exact Hsep |].
  subst cur. revert Htest. unfold step.
  destruct t as [| a t1]; [reflexivity |].
  destruct (Ascii.eqb_spec a (preferred_separator pl)) as [-> | Ha].
  - destruct t1 as [| b t2]; [intros _; exact Hsep |].
    destruct (Ascii.eqb_spec b (preferred_separator pl)) as [-> | Hb];
      [| intros _; exact Hsep].
    destruct (first && _) eqn:Hf.
    + apply andb_prop in Hf. destruct Hf as [-> _].
      cbn [Nat.add String.substring].
      pose proof (no_separator_before_find (preferred_separator pl) t2) as Hno.
      destruct (String.substring 0 _ t2) as [| x rest].
      * unfold Str.back, Str.at_. simpl.
        now rewrite Ascii.eqb_refl.
      * intros _. unfold component_shape.
        rewrite !Ascii.eqb_refl, Hno. cbn; rewrite ?orb_true_r; reflexivity.
    + cbn [Str.find_if]. rewrite Ascii.eqb_refl. cbn [negb Nat.add String.substring].
      rewrite back_cons, back_of_run by reflexivity.
      unfold Str.at_. simpl. now rewrite Ascii.eqb_refl.
  - intros _. unfold component_shape.
    assert (Ha' : Ascii.eqb a (preferred_separator pl) = false)
      by now apply Ascii.eqb_neq.
    destruct (first && _ && _) eqn:Hc.
    + apply andb_prop in Hc. destruct Hc as [Hc Hcol].
      apply andb_prop in Hc. destruct Hc as [_ Hne].
      destruct t1 as [| b t2]; [discriminate |].
      unfold Str.at_ in Hcol. simpl in Hcol. apply Ascii.eqb_eq in Hcol.
      subst b. cbn [String.substring]. rewrite substring_0_0.
      cbn [occurs]. rewrite Ha', colon_is_no_separator.
      cbn; rewrite ?orb_true_r; reflexivity.
    + cbn [Nat.add String.substring occurs].
      rewrite Ha', (no_separator_before_find (preferred_separator pl) t1).
      cbn; rewrite ?orb_true_r; reflexivity.
Qed.

Lemma update_current_shape (s : string) (pos root : nat) (cur0 : path) :
  pos <= String.length s ->
  component_shape
    pl (pos =? 0)
    (_path (_current (update_current pl (Iterator s pos root cur0)))) = true.
Proof.
  intros Hle. rewrite (update_current_suffix s pos root cur0 Hle).
  cbv zeta.
  destruct (_ && _ && _ && _); [reflexivity |].
  pose proof (step_component_shape (pos =? 0) (Str.substr_from pos s)) as H.
  cbv zeta in H.
  destruct (_ && _ && _); exact H.
Qed.


(** ** The components of a traversal *)

Lemma update_current_ext (a b : iterator) :
  it_str a = it_str b -> _pos a = _pos b -> _root a = _root b ->
  update_current pl a = update_current pl b.
Proof.
  destruct a as [s p r c], b as [s' p' r' c']. simpl.
  intros <- <- <-. reflexivity.
Qed.

Lemma iterator_incr_read (it : iterator) :
  _current (iterator_incr pl it)
  = _current (update_current pl (iterator_incr pl it)).
Proof.
  unfold iterator_incr.
  match goal with
  | |- _current (update_current pl ?i) = _ =>
      destruct (update_current_fields pl i) as (Hs & Hp & Hr);
      now rewrite (update_current_ext (update_current pl i) i Hs Hp Hr)
  end.
Qed.

Lemma path_begin_read (p : path) :
  _current (path_begin pl p) = _current (update_current pl (path_begin pl p)).
Proof.
  unfold path_begin, make_iterator. cbn [_current].
  destruct (update_current_fields pl (Iterator (_path p) 0 0 (Path "")))
    as (Hs & Hp & _).
  cbn [it_str _pos] in Hs, Hp.
  apply update_current_root_irrelevant. now left.
Qed.

Lemma step_positive (first : bool) (a : ascii) (t1 : string) :
  0 < step pl first (String a t1).
Proof.
  unfold step.
  repeat match goal with
         | |- context [if ?b then _ else _] => destruct b
         | |- context [match ?t with EmptyString => _ | String _ _ => _ end] =>
             destruct t
         end; lia.
Qed.

Lemma empty_component_is_trailing (it : iterator) :
  _pos it < _last it ->
  _current (update_current pl it) = Path "" ->
  _pos it + 1 = _last it
  /\ Str.at_ (it_str it) (_pos it) = preferred_separator pl.
Proof.
  destruct it as [s pos root cur]. unfold _last. cbn [it_str _pos].
  intros Hlt. rewrite update_current_suffix by lia. cbv zeta.
  pose proof (substr_from_length s pos) as Hl.
  pose proof (substr_from_length (Str.substr_from pos s) 1) as Hl1.
  pose proof (at_substr_from s pos 0) as Hat.
  rewrite Nat.add_0_r in Hat.
  destruct (Str.substr_from pos s) as [| a t1] eqn:Et;
    [simpl in Hl; lia |].
  destruct (_ && _ && _ && _) eqn:Hc.
  - intros _. apply andb_prop in Hc. destruct Hc as [Hc Hc4].
    apply andb_prop in Hc. destruct Hc as [_ Hc3].
    apply andb_prop in Hc3. destruct Hc3 as [Hc3 _].
    apply Ascii.eqb_eq in Hc3. split; [| congruence].
    destruct (Str.substr_from 1 (String a t1)); [| discriminate].
    simpl in Hl, Hl1. lia.
  - pose proof (step_positive (pos =? 0) a t1) as Hs.
    destruct (step pl (pos =? 0) (String a t1)); [lia |].
    cbn [String.substring].
    match goal with
    | |- (if ?b then _ else _) = _ -> _ => destruct b
    end; unfold sep_string; intros H; discriminate H.
Qed.

Lemma components_from_shape :
  forall (fuel : nat) (it : iterator),
    0 < _pos it <= _last it ->
    _current it = _current (update_current pl it) ->
    Forall (fun c => component_shape pl false (_path c) = true)
           (components_from pl fuel it).
Proof.
  induction fuel as [| fuel IH]; intros it Hpos Hread; simpl;
    [constructor |].
  destruct (Nat.eqb_spec (_pos it) (_last it)) as [E | E]; [constructor |].
  destruct (iterator_incr_advances pl it) as [Hs Hp]; [lia |].
  constructor.
  - rewrite Hread. destruct it as [s pos root cur].
    unfold _last in *. cbn [it_str _pos] in *.
    pose proof (update_current_shape s pos root cur) as H.
    replace (pos =? 0) with false in H
      by (symmetry; apply Nat.eqb_neq; lia).
    apply H. lia.
  - apply IH.
    + unfold _last in *. rewrite Hs. lia.
    + apply iterator_incr_read.
Qed.

Lemma components_from_nonempty :
  forall (fuel : nat) (it : iterator),
    _pos it <= _last it ->
    _current it = _current (update_current pl it) ->
    Forall (fun c => empty c = false)
           (removelast (components_from pl fuel it)).
Proof.
  induction fuel as [| fuel IH]; intros it Hpos Hread; simpl;
    [constructor |].
  destruct (Nat.eqb_spec (_pos it) (_last it)) as [E | E]; [constructor |].
  destruct (iterator_incr_advances pl it) as [Hs Hp]; [lia |].
  specialize (IH (iterator_incr pl it)).
  destruct (components_from pl fuel (iterator_incr pl it)) as [| c rest] eqn:El;
    [constructor |].
  constructor.
  - destruct (_current it) as [[| x cur]] eqn:Ec; [| reflexivity].
    exfalso.
    assert (Hend : _pos it + 1 = _last it)
      by (apply empty_component_is_trailing; [lia | congruence]).
    assert (Hp' : _pos (iterator_incr pl it) = _last (iterator_incr pl it))
      by (unfold _last in *; rewrite Hs; lia).
    destruct fuel; simpl in El; [discriminate |].
    apply Nat.eqb_eq in Hp'. rewrite Hp' in El. discriminate.
  - apply IH.
    + unfold _last in *. rewrite Hs. lia.
    + apply iterator_incr_read.
Qed.

(** X3.  On either grammar the traversal of a path yields
    no component only for the empty path.  Its first component is empty,
    the bare separator, free of separators, or two separators followed
    by a non-empty run free of them; every later component is empty, the
    bare separator or free of separators; and only the last component
    can be the empty path. *)
Theorem components_shape (p : path) :
  match components pl p with
  | [] => _path p = ""
  | c :: rest =>
      component_shape pl true (_path c) = true
      /\ Forall (fun c => component_shape pl false (_path c) = true) rest
  end
  /\ Forall (fun c => empty c = false) (removelast (components pl p)).
Proof.
  split.
  - unfold components. cbn [components_from].
    unfold _last. cbn [path_begin make_iterator it_str _pos].
    destruct (Nat.eqb_spec 0 (String.length (_path p))) as [E | E].
    + destruct (_path p); [reflexivity | discriminate].
    + split.
      * apply (update_current_shape (_path p) 0 0 (Path "")). lia.
      * destruct (iterator_incr_advances pl (path_begin pl p)) as [Hs Hp].
        { unfold _last. simpl. lia. }
        apply components_from_shape.
        -- unfold _last in *. rewrite Hs. simpl in *. lia.
        -- apply iterator_incr_read.
  - apply components_from_nonempty.
    + unfold _last. simpl. lia.
    + apply path_begin_read.
Qed.


(** ** [get_filename] and the trailing separator *)

Lemma substr_from_last (s : string) :
  s <> "" ->
  Str.substr_from (String.length s - 1) s = String (Str.back s) "".
Proof.
  induction s as [| c s IH]; intros H; [now elim H |].
  destruct s as [| c' s]; [reflexivity |].
  rewrite back_cons.
  replace (String.length (String c (String c' s)) - 1)
    with (S (String.length (String c' s) - 1)) by (simpl; lia).
  cbn [Str.substr_from]. apply IH. discriminate.
Qed.

(** Where [end()] places [_root]: at [_last], at [_first] before a
    leading separator, or (Windows build) past a drive. *)
Lemma root_of_end (p : path) :
  let s := _path p in
  let r := _root (path_end pl p) in
  r = String.length s
  \/ (r = 0 /\ 0 < String.length s
      /\ Str.at_ s 0 = preferred_separator pl)
  \/ (pl = Windows /\ r = 2 /\ 3 <= String.length s
      /\ is_drive_letter (Str.at_ s 0) = true
      /\ Str.at_ s 1 = colon /\ Str.at_ s 2 = preferred_separator pl).
Proof.
  intros s r. subst r. unfold path_end, make_iterator. fold s.
  cbn [_root].
  destruct (_ && _ && _ && _ && _) eqn:Hd.
  - right; right.
    repeat (apply andb_prop in Hd; destruct Hd as [Hd ?]).
    destruct pl; [| discriminate].
    repeat split; try reflexivity.
    + now apply Nat.leb_le.
    + assumption.
    + now apply Ascii.eqb_eq.
    + now apply Ascii.eqb_eq.
  - destruct (negb (0 =? String.length s) && _) eqn:Hs; [| now left].
    apply andb_prop in Hs. destruct Hs as [Hs Hsep].
    apply negb_true_iff, Nat.eqb_neq in Hs. apply Ascii.eqb_eq in Hsep.
    match goal with
    | |- context [if ?b then increment _ _ _ else _] => destruct b
    end; [| right; left; repeat split; [lia | exact Hsep]].
    left.
    match goal with
    | |- increment pl ?i 0 = _ =>
        destruct (update_current_fields
                    pl (Iterator s (String.length s) 0 (Path "")))
          as (Hstr & Hpos & _)
    end.
    unfold increment, _last. rewrite Hstr, Hpos. cbn [it_str _pos].
    now rewrite Nat.eqb_refl.
Qed.

Lemma separator_has_no_relative_path :
  has_relative_path pl (Path (sep_string pl)) = false.
Proof. destruct pl; reflexivity. Qed.

Lemma drive_root_has_no_relative_path (c : ascii) :
  is_drive_letter c = true ->
  has_relative_path Windows (Path (String c (String colon (String backslash ""))))
  = false.
Proof.
  intros Hdl.
  unfold has_relative_path, relative_path, root_path, root_directory, root_name.
  cbn -[is_drive_letter]. rewrite Hdl. cbn -[is_drive_letter].
  unfold root_name. cbn -[is_drive_letter]. rewrite Hdl.
  reflexivity.
Qed.

Lemma decrement_at_trailing_separator (p : path) :
  ends_in_separator pl (_path p) = true ->
  decrement pl (path_end pl p) (String.length (_path p))
  = String.length (_path p) - 1.
Proof.
  unfold ends_in_separator, Str.back. intros H.
  apply andb_prop in H. destruct H as [Hne Hb].
  unfold decrement, _first, _last.
  cbn [path_end make_iterator it_str].
  destruct (_path p) as [| c s] eqn:E; [discriminate |].
  cbn [String.length]. cbn [Nat.eqb negb].
  rewrite Nat.eqb_refl. cbn [negb orb].
  cbn [String.length] in Hb. rewrite Hb. cbn [negb].
  now rewrite andb_false_r.
Qed.

Lemma trailing_separator_no_filename (p : path) :
  ends_in_separator pl (_path p) = true ->
  get_filename pl p = Path "".
Proof.
  intros Hend. unfold get_filename.
  destruct (has_relative_path pl p) eqn:Hrel; [| reflexivity].
  cbn [negb]. unfold iterator_decr.
  assert (Hpos : _pos (path_end pl p) = String.length (_path p))
    by reflexivity.
  assert (Hstr : it_str (path_end pl p) = _path p) by reflexivity.
  rewrite Hpos, Hstr, (decrement_at_trailing_separator p Hend).
  pose proof (root_of_end p) as Hroot. cbv zeta in Hroot.
  set (r := _root (path_end pl p)) in *.
  set (s := _path p) in *.
  assert (Hs : s <> "").
  { unfold ends_in_separator in Hend. destruct s; [discriminate |].
    discriminate. }
  assert (Hlen : 0 < String.length s) by (destruct s; [now elim Hs | simpl; lia]).
  rewrite update_current_suffix by lia. cbv zeta.
  rewrite (substr_from_last s Hs).
  unfold ends_in_separator in Hend.
  apply andb_prop in Hend. destruct Hend as [_ Hb].
  change (Str.at_ (String (Str.back s) "") 0) with (Str.back s).
  rewrite Hb. cbn [Str.is_empty Str.substr_from negb andb].
  rewrite andb_true_r.
  destruct (Nat.eqb_spec (String.length s - 1) 0) as [E0 | E0].
  - exfalso.
    assert (Hsep : s = sep_string pl).
    { apply Ascii.eqb_eq in Hb.
      pose proof (substr_from_last s Hs) as Hl. rewrite E0, Hb in Hl.
      exact Hl. }
    destruct p as [sp]. cbn in s. subst s. subst sp.
    rewrite separator_has_no_relative_path in Hrel. discriminate.
  - destruct (Nat.eqb_spec (String.length s - 1) r) as [Er | Er];
      [| reflexivity].
    exfalso.
    destruct Hroot as [Hr | [(Hr & _) | (Hpl & Hr & Hl3 & Hdl & Hcol & Hsep)]];
      try lia.
    assert (Hl : String.length s = 3) by lia.
    destruct s as [| c0 [| c1 [| c2 [| c3 s3]]]]; try discriminate.
    unfold Str.at_ in Hcol, Hsep, Hdl. simpl in Hcol, Hsep, Hdl.
    subst c1 c2. destruct p as [sp]. cbn in *. subst sp.
    revert Hrel. rewrite Hpl. cbn [preferred_separator].
    rewrite (drive_root_has_no_relative_path c0 Hdl). discriminate.
Qed.

End TraversalFacts.

Lemma relative_path_of_empty (pl : platform) (p : path) :
  has_relative_path pl p = true -> _path p <> "".
Proof.
  unfold has_relative_path, relative_path. intros H E. rewrite E in H.
  cbn [_path] in H. destruct (maths_min _ _); discriminate.
Qed.

Lemma posix_has_filename (p : path) :
  has_filename Posix p
  = has_relative_path Posix p
    && negb (ends_in_separator Posix (_path p)).
Proof.
  unfold has_filename.
  destruct (ends_in_separator Posix (_path p)) eqn:Hend.
  - rewrite (trailing_separator_no_filename Posix p Hend).
    now rewrite andb_false_r.
  - rewrite andb_true_r. unfold get_filename.
    destruct (has_relative_path Posix p) eqn:Hrel; [| reflexivity].
    cbn [negb].
    pose proof (relative_path_of_empty Posix p Hrel) as Hs.
    assert (Hlen : 0 < String.length (_path p))
      by (destruct (_path p); [now elim Hs | simpl; lia]).
    unfold iterator_decr.
    assert (Hpos : _pos (path_end Posix p) = String.length (_path p))
      by reflexivity.
    assert (Hstr : it_str (path_end Posix p) = _path p) by reflexivity.
    rewrite Hpos, Hstr.
    pose proof (posix_decrement_lt (path_end Posix p)
                                   (String.length (_path p)) Hlen) as Hj.
    set (j := decrement Posix (path_end Posix p) (String.length (_path p)))
      in *.
    match goal with
    | |- negb (empty (_current (update_current Posix ?i))) = true =>
        destruct (_current (update_current Posix i)) as [[| x c]] eqn:Ec;
        [| reflexivity];
        destruct (empty_component_is_trailing Posix i) as [H1 H2];
        [unfold _last; simpl; lia | exact Ec |]
    end.
    exfalso. unfold _last in H1. cbn [it_str _pos] in H1, H2.
    unfold ends_in_separator, Str.back in Hend.
    replace (String.length (_path p) - 1) with j in Hend by lia.
    rewrite H2 in Hend. cbn [preferred_separator] in Hend.
    destruct (_path p); [now elim Hs |]. discriminate.
Qed.


(** X4.  On either grammar the root name followed by
    the root directory is a prefix of the native string and the relative
    path is a suffix of it.  A path has a root path exactly when it has
    a root name or a root directory; an absolute path has a root path
    and is not empty; and the empty path has no root path, no relative
    path and no file name, and is not absolute. *)
Theorem decomposition_parts (pl : platform) (p : path) :
  (exists rest : string,
      _path p = _path (root_name pl p) ++ _path (root_directory pl p) ++ rest)
  /\ (exists front : string, _path p = front ++ _path (relative_path pl p))
  /\ has_root_path pl p = has_root_name pl p || has_root_directory pl p
  /\ (is_absolute pl p = true ->
      has_root_path pl p = true /\ empty p = false)
  /\ (empty p = true ->
      has_root_path pl p = false /\ has_relative_path pl p = false
      /\ has_filename pl p = false /\ is_absolute pl p = false).
Proof.
  destruct (root_prefix_relative_suffix pl p) as [Hpre Hsuf].
  split; [exact Hpre |]. split; [exact Hsuf |].
  split; [apply has_root_path_cases |]. split.
  - intros Habs. split; [| now apply (is_absolute_not_empty pl)].
    rewrite has_root_path_cases.
    assert (Hrd : has_root_directory pl p = true).
    { unfold is_absolute in Habs. destruct pl; cbn [is_windows] in Habs.
      - now apply andb_prop in Habs.
      - exact Habs. }
    rewrite Hrd. apply orb_true_r.
  - intros He. destruct p as [[| c s]]; [| discriminate He].
    destruct pl; repeat split.
Qed.

(** X5.  On either grammar a path whose
    native string ends in the separator has the empty file name.  On the
    POSIX grammar these are the only paths with a relative path and
    without a file name: [has_filename] holds exactly when the path has
    a relative path and does not end in the separator.  The Windows
    grammar has others: ["a::"] has a relative path and does not end in
    the separator, and has no file name. *)
Theorem filename_and_trailing_separator (pl : platform) (p : path) :
  (ends_in_separator pl (_path p) = true ->
   get_filename pl p = Path "" /\ has_filename pl p = false)
  /\ has_filename Posix p
     = has_relative_path Posix p
       && negb (ends_in_separator Posix (_path p))
  /\ (has_relative_path Windows (Path "a::") = true
      /\ ends_in_separator Windows "a::" = false
      /\ has_filename Windows (Path "a::") = false).
Proof.
  split; [| split].
  - intros Hend.
    pose proof (trailing_separator_no_filename pl p Hend) as H.
    split; [exact H |]. unfold has_filename. now rewrite H.
  - apply posix_has_filename.
  - repeat split.
Qed.

Section AppendName.

Variable pl : platform.

Lemma find_if_absent (c : ascii) (t : string) :
  occurs c t = false -> Str.find_if (Ascii.eqb c) t = String.length t.
Proof.
  induction t as [| x t IH]; simpl; [reflexivity |].
  intros H. apply orb_false_iff in H. destruct H as [Hx Ht].
  rewrite Ascii.eqb_sym, Hx. now rewrite IH.
Qed.

Lemma substring_all (s : string) : String.substring 0 (String.length s) s = s.
Proof. induction s as [| c s IH]; simpl; [reflexivity | now rewrite IH]. Qed.

Lemma skip_redundant_at_end (s : string) (root fuel : nat) :
  skip_redundant pl fuel s root (String.length s) = String.length s.
Proof. destruct fuel; simpl; [| rewrite Nat.eqb_refl]; reflexivity. Qed.
Lemma plain_name_step (n : string) :
  plain_name pl n -> step pl true n = String.length n.
Proof.
  intros (Hne & Hocc & Hcol & _). unfold step.
  destruct n as [| a t1]; [now elim Hne |].
  cbn [occurs] in Hocc. apply orb_false_iff in Hocc.
  destruct Hocc as [Ha Ht1]. rewrite Ha.
  replace (true && negb (Str.is_empty t1) && Ascii.eqb (Str.at_ t1 0) colon)
    with false.
  - rewrite (find_if_absent _ _ Ht1). reflexivity.
  - symmetry. cbn [andb]. destruct t1 as [| b t2]; [reflexivity |].
    cbn [Str.is_empty negb andb].
    apply Ascii.eqb_neq. exact Hcol.
Qed.

Lemma plain_name_begin (n : string) :
  plain_name pl n -> _current (path_begin pl (Path n)) = Path n.
Proof.
  intros Hn. unfold path_begin, make_iterator. cbn [_current _path].
  rewrite update_current_suffix by lia. cbv zeta.
  cbn [Nat.eqb negb andb Str.substr_from].
  rewrite (plain_name_step n Hn), substring_all.
  destruct Hn as (Hne & Hocc & _).
  destruct n as [| a t1]; [now elim Hne |].
  cbn [occurs] in Hocc. apply orb_false_iff in Hocc.
  destruct Hocc as [Ha _].
  change (Str.at_ (String a t1) 0) with a. rewrite Ha.
  now rewrite andb_false_r.
Qed.

Lemma increment_step_it (it : iterator) (x : nat) :
  _pos it <= _last it ->
  increment pl it x
  = _pos it + step pl (_pos it =? 0) (Str.substr_from (_pos it) (it_str it)).
Proof. destruct it. apply increment_step. Qed.

Lemma plain_name_incr (n : string) :
  plain_name pl n ->
  _pos (iterator_incr pl (path_begin pl (Path n))) = String.length n.
Proof.
  intros Hn. unfold iterator_incr.
  match goal with
  | |- _pos (update_current pl ?i) = _ =>
      destruct (update_current_fields pl i) as (_ & Hp & _); rewrite Hp
  end.
  cbn [_pos].
  rewrite increment_step_it by (unfold _last; simpl; lia).
  cbn [path_begin make_iterator it_str _pos _root _path Nat.eqb
       Str.substr_from Nat.add].
  rewrite (plain_name_step n Hn).
  apply skip_redundant_at_end.
Qed.

Lemma plain_name_not_rooted (n : string) :
  plain_name pl n ->
  has_root_directory pl (Path n) = false /\ is_absolute pl (Path n) = false.
Proof.
  intros (Hne & Hocc & _ & Hrn).
  assert (Hd : has_root_directory pl (Path n) = false).
  { unfold has_root_directory, root_directory.
    unfold has_root_name in Hrn. apply negb_false_iff in Hrn.
    destruct (root_name pl (Path n)) as [[| x r]]; [| discriminate].
    cbn [_path String.length].
    destruct n as [| a t1]; [now elim Hne |].
    cbn [occurs] in Hocc. apply orb_false_iff in Hocc.
    destruct Hocc as [Ha _].
    change (Str.at_ (String a t1) 0) with a. rewrite Ha.
    now rewrite andb_false_r. }
  split; [exact Hd |].
  unfold is_absolute. rewrite Hd. destruct pl; [apply andb_false_r |].
  reflexivity.
Qed.

Lemma append_of_plain_name (a : path) (n : string) :
  plain_name pl n ->
  append pl a (Path n)
  = Path ((if has_filename pl a then _path a ++ sep_string pl else _path a)
          ++ n).
Proof.
  intros Hn. pose proof Hn as (Hne & _ & _ & Hrn).
  destruct (plain_name_not_rooted n Hn) as [Hrd Habs].
  unfold append, append_with.
  replace (empty (Path n)) with false
    by (destruct n; [now elim Hne | reflexivity]).
  rewrite Habs, Hrd, Hrn. cbn [andb].
  replace (negb (has_root_directory pl a) && is_absolute pl a) with false.
  2:{ unfold is_absolute. clear.
      destruct pl;
        [destruct (has_root_directory Windows a), (has_root_name Windows a)
        | destruct (has_root_directory Posix a)];
        reflexivity. }
  cbn [orb]. f_equal.
  cbn [append_loop _path].
  assert (Hp0 : _pos (path_begin pl (Path n)) = 0) by reflexivity.
  assert (Hl : _last (path_begin pl (Path n)) = String.length n)
    by reflexivity.
  rewrite Hp0, Hl.
  replace (0 =? String.length n) with false
    by (destruct n; [now elim Hne | reflexivity]).
  cbn [negb andb]. rewrite (plain_name_begin n Hn). cbn [_path].
  assert (Hend : forall acc : string,
             append_loop pl (String.length n) acc false
                         (iterator_incr pl (path_begin pl (Path n)))
             = acc).
  { intros acc. destruct (String.length n) eqn:E; [reflexivity |].
    cbn [append_loop].
    rewrite (plain_name_incr n Hn), E.
    unfold _last.
    destruct (iterator_incr_advances pl (path_begin pl (Path n))) as [Hs _].
    { rewrite Hp0, Hl. lia. }
    rewrite Hs. cbn [path_begin make_iterator it_str _path].
    now rewrite E, Nat.eqb_refl. }
  rewrite Hend.
  destruct (has_filename pl a); reflexivity.
Qed.

End AppendName.

(** [plain_nameb] decides [plain_name]. *)
Lemma plain_nameb_true (pl : platform) (n : string) :
  plain_nameb pl n = true -> plain_name pl n.
Proof.
  unfold plain_nameb, plain_name. intros H.
  repeat (apply andb_prop in H; destruct H as [H ?]).
  repeat match goal with
         | H : negb _ = true |- _ => apply negb_true_iff in H
         end.
  split; [| split; [| split]].
  - intros ->. discriminate.
  - assumption.
  - intros E. rewrite E in *. discriminate.
  - assumption.
Qed.

Lemma all_plain_names (pl : platform) (names : list string) :
  forallb (plain_nameb pl) names = true -> Forall (plain_name pl) names.
Proof.
  intros H. apply Forall_forall. intros n Hn.
  apply plain_nameb_true. rewrite forallb_forall in H. now apply H.
Qed.

(** X6.  On either grammar, appending a plain name to a
    path gives the path's string, then one separator if the path has a
    file name, then the name.  So nothing is put between a path that
    ends in the separator and the name, and appending to the empty path
    gives the name alone. *)
Theorem append_plain_name (pl : platform) (a : path) (n : string) :
  plain_name pl n ->
  append pl a (Path n)
  = Path ((if has_filename pl a then _path a ++ sep_string pl else _path a)
          ++ n)
  /\ (ends_in_separator pl (_path a) = true ->
      append pl a (Path n) = Path (_path a ++ n))
  /\ append pl (Path "") (Path n) = Path n.
Proof.
  intros Hn. split; [now apply append_of_plain_name |]. split.
  - intros Hend. rewrite (append_of_plain_name pl a n Hn).
    unfold has_filename.
    now rewrite (trailing_separator_no_filename pl a Hend).
  - rewrite (append_of_plain_name pl (Path "") n Hn).
    destruct pl; reflexivity.
Qed.

Lemma append_plain_name_witness :
  append Posix (Path "/usr") (Path "lib") = Path "/usr/lib"
  /\ append Windows (Path "C:\Users\") (Path "me") = Path "C:\Users\me".
Proof.
  split.
  - apply (proj1 (append_plain_name Posix (Path "/usr") "lib"
                                    (plain_nameb_true Posix "lib" eq_refl))).
  - apply (proj1 (proj2 (append_plain_name
                           Windows (Path "C:\Users\") "me"
                           (plain_nameb_true Windows "me" eq_refl)))).
    reflexivity.
Defined.


(** ** Names appended one after the other *)

Section Spelled.

Let plain := plain_name Posix.

Lemma string_app_assoc (a b c : string) : (a ++ b) ++ c = a ++ b ++ c.
Proof. induction a as [| x a IH]; cbn; [reflexivity | now rewrite IH]. Qed.

Lemma string_app_nil_r (a : string) : a ++ "" = a.
Proof. induction a as [| x a IH]; cbn; [reflexivity | now rewrite IH]. Qed.

Lemma plain_first (n : string) :
  plain n -> exists a t, n = String a t /\ Ascii.eqb a "/" = false.
Proof.
  intros (Hne & Hocc & _). destruct n as [| a t]; [now elim Hne |].
  exists a, t. split; [reflexivity |].
  cbn [occurs preferred_separator] in Hocc.
  now apply orb_false_iff in Hocc.
Qed.

Lemma substr_from_app (pre x : string) :
  Str.substr_from (String.length pre) (pre ++ x) = x.
Proof. induction pre as [| c pre IH]; [now destruct x | exact IH]. Qed.

Lemma back_app (x n : string) : n <> "" -> Str.back (x ++ n) = Str.back n.
Proof.
  intros Hn. induction x as [| c x IH]; [reflexivity |].
  cbn [String.append]. destruct (x ++ n) as [| d r] eqn:E.
  - destruct x, n; try discriminate. now elim Hn.
  - rewrite back_cons. exact IH.
Qed.

Lemma back_plain (n : string) :
  plain n -> Ascii.eqb (Str.back n) "/" = false.
Proof.
  intros (Hne & Hocc & _). cbn [preferred_separator] in Hocc.
  induction n as [| a t IH]; [now elim Hne |].
  cbn [occurs] in Hocc. apply orb_false_iff in Hocc.
  destruct Hocc as [Ha Ht].
  destruct t as [| b t']; [exact Ha |].
  rewrite back_cons. apply IH; [discriminate | exact Ht].
Qed.


Lemma unrooted_root_name (acc : string) :
  Ascii.eqb (Str.at_ acc 0) "/" && Ascii.eqb (Str.at_ acc 1) "/" = false ->
  root_name Posix (Path acc) = Path "".
Proof.
  intros H. unfold root_name. cbn [is_windows andb _path].
  fold slash. unfold slash at 1 2.
  destruct (2 <? String.length acc); [| reflexivity]. cbn [andb].
  rewrite H. reflexivity.
Qed.

Lemma grown_has_filename (acc : string) :
  grown acc -> has_filename Posix (Path acc) = true.
Proof.
  intros (Hne & Hroot & Hback).
  rewrite posix_has_filename. cbn [_path].
  unfold ends_in_separator. cbn [preferred_separator]. unfold slash.
  rewrite Hback.
  rewrite andb_false_r. cbn [negb]. rewrite andb_true_r.
  destruct (reconstruction_without_root_name
              Posix (Path acc) (unrooted_root_name acc Hroot)) as [_ Hrec].
  rewrite (unrooted_root_name acc Hroot) in Hrec. cbn [_path String.append] in Hrec.
  unfold has_relative_path.
  destruct (relative_path Posix (Path acc)) as [[| x r]] eqn:Er;
    [| reflexivity].
  exfalso. cbn [_path] in Hrec.
  destruct (root_directory_cases Posix (Path acc)) as [Hd | Hd];
    rewrite Hd in Hrec; cbn in Hrec; subst acc.
  - now elim Hne.
  - discriminate.
Qed.

Lemma grown_append (acc n : string) :
  plain n ->
  acc = "" \/ acc = "/" \/ grown acc ->
  let acc' := _path (append Posix (Path acc) (Path n)) in
  grown acc'
  /\ acc' = acc ++ (if has_filename Posix (Path acc) then "/" else "") ++ n.
Proof.
  intros Hn Hacc acc'. subst acc'.
  rewrite (append_of_plain_name Posix (Path acc) n Hn). cbn [_path].
  destruct (plain_first n Hn) as (a & t & -> & Ha).
  pose proof (back_plain _ Hn) as Hb.
  destruct Hacc as [-> | [-> | Hg]].
  - change (has_filename Posix (Path "")) with false. cbn [String.append].
    split; [| reflexivity]. repeat split; [discriminate | | exact Hb].
    change (Str.at_ (String a t) 0) with a. now rewrite Ha.
  - change (has_filename Posix (Path "/")) with false.
    split; [| reflexivity]. repeat split; [discriminate | |].
    + cbn [String.append]. change (Str.at_ (String "/" (String a t)) 1) with a.
      rewrite Ha. apply andb_false_r.
    + rewrite back_app by discriminate. exact Hb.
  - rewrite (grown_has_filename acc Hg). cbn [sep_string preferred_separator].
    split.
    + destruct Hg as (Hne & Hroot & Hback). repeat split.
      * destruct acc; [now elim Hne | discriminate].
      * destruct acc as [| c [| d r]]; [now elim Hne | |].
        -- cbn. unfold Str.back, Str.at_ in Hback. cbn in Hback.
           unfold Str.at_. cbn. now rewrite Hback.
        -- exact Hroot.
      * rewrite back_app by discriminate. exact Hb.
    + apply string_app_assoc.
Qed.


Lemma fold_append_names :
  forall (names : list string) (acc : string),
    Forall plain names ->
    acc = "" \/ acc = "/" \/ grown acc ->
    fold_left (append Posix) (map Path names) (Path acc)
    = Path (acc ++ match names with
                   | [] => ""
                   | _ :: _ =>
                       (if has_filename Posix (Path acc) then "/" else "")
                       ++ spell names
                   end).
Proof.
  induction names as [| n rest IH]; intros acc Hall Hacc; cbn [map fold_left].
  - now rewrite string_app_nil_r.
  - inversion Hall as [| ? ? Hn Hrest]; subst.
    destruct (grown_append acc n Hn Hacc) as [Hg Heq]. cbv zeta in Hg, Heq.
    destruct (append Posix (Path acc) (Path n)) as [acc'].
    cbn [_path] in Hg, Heq.
    rewrite (IH acc' Hrest (or_intror (or_intror Hg))).
    rewrite (grown_has_filename acc' Hg). f_equal. subst acc'.
    destruct rest as [| n2 rest'].
    + cbn [spell]. now rewrite string_app_nil_r.
    + cbn [spell]. now rewrite !string_app_assoc.
Qed.

(** ** The traversal of spelled names *)

Lemma find_if_plain (n rest : string) :
  occurs "/" n = false ->
  rest = "" \/ (exists r, rest = String "/" r) ->
  Str.find_if (Ascii.eqb "/") (n ++ rest) = String.length n.
Proof.
  intros Hocc Hrest. induction n as [| a t IH]; cbn [String.append].
  - destruct Hrest as [-> | (r & ->)]; reflexivity.
  - cbn [occurs] in Hocc. apply orb_false_iff in Hocc.
    destruct Hocc as [Ha Ht]. cbn [Str.find_if String.length].
    rewrite Ascii.eqb_sym, Ha. now rewrite IH.
Qed.

Lemma substring_app (n rest : string) :
  String.substring 0 (String.length n) (n ++ rest) = n.
Proof.
  induction n as [| a t IH]; cbn [String.append String.length].
  - apply substring_0_0.
  - cbn [String.substring]. now rewrite IH.
Qed.

(** At the start of a name that ends the string or is followed by a
    separator, [increment] moves over the name. *)
Lemma step_over_name (from_start : bool) (n rest : string) :
  plain n ->
  rest = "" \/ (exists r, rest = String "/" r) ->
  step Posix from_start (n ++ rest) = String.length n.
Proof.
  intros Hn Hrest. pose proof Hn as (Hne & Hocc & Hcol & _).
  cbn [preferred_separator] in Hocc. unfold slash in Hocc.
  destruct n as [| a t]; [now elim Hne |].
  cbn [occurs] in Hocc. apply orb_false_iff in Hocc.
  destruct Hocc as [Ha Ht].
  cbn [String.append]. unfold step. cbn [preferred_separator].
  unfold slash. rewrite Ha.
  replace (from_start && negb (Str.is_empty (t ++ rest))
           && Ascii.eqb (Str.at_ (t ++ rest) 0) colon) with false.
  - rewrite (find_if_plain t rest Ht Hrest). reflexivity.
  - symmetry. destruct t as [| b t'].
    + destruct Hrest as [-> | (r & ->)]; cbn;
        now rewrite ?andb_false_r.
    + cbn [String.append Str.is_empty negb].
      change (Str.at_ (String b (t' ++ rest)) 0) with b.
      replace (Ascii.eqb b colon) with false;
        [now rewrite andb_false_r |].
      symmetry. apply Ascii.eqb_neq. exact Hcol.
Qed.

Lemma current_at_name (s : string) (pos r : nat) (c : path) (n rest : string) :
  pos <= String.length s ->
  Str.substr_from pos s = n ++ rest ->
  plain n ->
  rest = "" \/ (exists r', rest = String "/" r') ->
  _current (update_current Posix (Iterator s pos r c)) = Path n.
Proof.
  intros Hle Ht Hn Hrest.
  rewrite update_current_suffix by exact Hle. cbv zeta. rewrite Ht.
  destruct (plain_first n Hn) as (a & t & -> & Ha).
  cbn [String.append]. change (Str.at_ (String a (t ++ rest)) 0) with a.
  cbn [preferred_separator]. unfold slash. rewrite Ha.
  cbn [andb]. rewrite andb_false_r. cbn [andb].
  change (String a (t ++ rest)) with (String a t ++ rest).
  rewrite (step_over_name (pos =? 0) (String a t) rest Hn Hrest).
  rewrite substring_app.
  change (Str.at_ (String a t) 0) with a. rewrite Ha.
  now rewrite andb_false_r.
Qed.

Lemma iterator_incr_fields (it : iterator) :
  it_str (iterator_incr Posix it) = it_str it
  /\ _root (iterator_incr Posix it) = _root it
  /\ _pos (iterator_incr Posix it)
     = skip_redundant Posix (String.length (it_str it)) (it_str it) (_root it)
                      (increment Posix it (_pos it)).
Proof.
  unfold iterator_incr.
  match goal with
  | |- context [update_current Posix ?i] =>
      destruct (update_current_fields Posix i) as (Hs & Hp & Hr)
  end.
  rewrite Hs, Hp, Hr. repeat split.
Qed.

Lemma incr_at_name (it : iterator) (n rest : string) :
  _pos it <= _last it ->
  Str.substr_from (_pos it) (it_str it) = n ++ rest ->
  plain n ->
  _root it = 0 \/ _root it = _last it ->
  (rest = "" -> _pos (iterator_incr Posix it) = _last it)
  /\ (forall (b : ascii) (r' : string),
         rest = String "/" (String b r') -> Ascii.eqb b "/" = false ->
         _pos (iterator_incr Posix it) = _pos it + String.length n + 1).
Proof.
  intros Hle Ht Hn Hroot.
  destruct (iterator_incr_fields it) as (_ & _ & ->).
  rewrite increment_step_it by exact Hle. rewrite Ht.
  pose proof (substr_from_length (it_str it) (_pos it)) as Hl.
  rewrite Ht, string_length_app in Hl. unfold _last in *.
  destruct (plain_first n Hn) as (a & t & En & Ha).
  assert (Hlen : 0 < String.length n) by (subst n; simpl; lia).
  split.
  - intros ->. rewrite step_over_name by (auto; now left).
    cbn [String.length] in Hl. rewrite Nat.add_0_r in Hl.
    replace (_pos it + String.length n) with (String.length (it_str it))
      by lia.
    apply skip_redundant_at_end.
  - intros b r' -> Hb.
    rewrite step_over_name by (auto; right; eauto).
    cbn [String.length] in Hl.
    set (k := _pos it + String.length n) in *.
    assert (Hk : Str.at_ (it_str it) k = "/"%char).
    { unfold k. rewrite at_substr_from, Ht. apply at_app_length. }
    assert (Hk1 : Str.at_ (it_str it) (S k) = b).
    { unfold k. replace (S (_pos it + String.length n))
        with (_pos it + (String.length n + 1)) by lia.
      rewrite at_substr_from, Ht.
      clear. induction n as [| c n IH]; [reflexivity | exact IH]. }
    destruct (String.length (it_str it)) as [| m] eqn:Em; [lia |].
    cbn [skip_redundant]. rewrite Em.
    replace (k =? S m) with false by (symmetry; apply Nat.eqb_neq; lia).
    replace (k =? _root it) with false
      by (symmetry; apply Nat.eqb_neq; lia).
    rewrite Hk. cbn [preferred_separator]. unfold slash.
    rewrite Ascii.eqb_refl.
    replace (k + 1 =? S m) with false by (symmetry; apply Nat.eqb_neq; lia).
    cbn [negb andb].
    destruct m as [| m']; [lia |].
    cbn [skip_redundant]. rewrite Em, Hk1. cbn [preferred_separator].
    unfold slash. rewrite Hb, !andb_false_r. cbn [andb]. lia.
Qed.

Lemma components_from_names :
  forall names : list string,
    names <> [] ->
    Forall plain names ->
    forall (fuel : nat) (it : iterator) (pre : string),
      it_str it = pre ++ spell names ->
      _pos it = String.length pre ->
      _root it = 0 \/ _root it = _last it ->
      _current it = _current (update_current Posix it) ->
      String.length (spell names) < fuel ->
      components_from Posix fuel it = map Path names.
Proof.
  induction names as [| n rest IH]; intros Hne Hall fuel it pre Hs Hp Hr Hc Hf;
    [now elim Hne |].
  pose proof (Forall_inv Hall) as Hn.
  pose proof (Forall_inv_tail Hall) as Hrest.
  destruct (plain_first n Hn) as (a & t & En & Ha).
  set (tail := match rest with
               | [] => ""
               | _ :: _ => "/" ++ spell rest
               end).
  assert (Espell : spell (n :: rest) = n ++ tail)
    by (unfold tail; destruct rest; cbn [spell];
        [now rewrite string_app_nil_r | reflexivity]).
  rewrite Espell in *. rewrite string_length_app in Hf.
  assert (Hlast : _last it = String.length pre + String.length n
                             + String.length tail)
    by (unfold _last; rewrite Hs, !string_length_app; lia).
  assert (Hsub : Str.substr_from (_pos it) (it_str it) = n ++ tail)
    by (rewrite Hs, Hp; apply substr_from_app).
  assert (Hlen : 0 < String.length n) by (rewrite En; simpl; lia).
  assert (Htail : tail = "" \/ exists r', tail = String "/" r')
    by (unfold tail; destruct rest; [now left | right; eexists; reflexivity]).
  destruct fuel as [| fuel]; [lia |]. cbn [components_from map].
  replace (_pos it =? _last it) with false
    by (symmetry; apply Nat.eqb_neq; lia).
  assert (Hcur : _current it = Path n).
  { rewrite Hc. destruct it as [s pos r c]. cbn [it_str _pos _root] in *.
    apply (current_at_name s pos r c n tail); try assumption.
    unfold _last in Hlast. cbn [it_str] in Hlast. lia. }
  rewrite Hcur. f_equal.
  destruct (incr_at_name it n tail) as [Hend Hnext]; try assumption; [lia |].
  destruct (iterator_incr_fields it) as (Hs' & Hr' & _).
  destruct rest as [| n2 rest'].
  - specialize (Hend eq_refl).
    destruct fuel; [reflexivity |]. cbn [components_from].
    unfold _last at 1. rewrite Hs'. fold (_last it).
    rewrite Hend, Nat.eqb_refl. reflexivity.
  - pose proof (Forall_inv Hrest) as Hn2.
    destruct (plain_first n2 Hn2) as (b & t2 & En2 & Hb).
    assert (Es2 : exists r', spell (n2 :: rest') = String b r').
    { rewrite En2. destruct rest'; cbn [spell String.append]; eauto. }
    destruct Es2 as (r' & Es2).
    specialize (Hnext b r').
    unfold tail in Hnext. rewrite Es2 in Hnext.
    specialize (Hnext eq_refl Hb).
    apply (IH ltac:(discriminate) Hrest fuel (iterator_incr Posix it)
              (pre ++ n ++ "/")).
    + rewrite Hs', Hs. unfold tail. now rewrite !string_app_assoc.
    + rewrite Hnext, Hp, !string_length_app. cbn [String.length]. lia.
    + unfold _last. rewrite Hs', Hr'. exact Hr.
    + apply iterator_incr_read.
    + unfold tail in Hf. rewrite string_length_app in Hf.
      cbn [String.length] in Hf. lia.
Qed.


Lemma spell_first (names : list string) :
  names <> [] -> Forall plain names ->
  exists (b : ascii) (r : string),
    spell names = String b r /\ Ascii.eqb b "/" = false.
Proof.
  intros Hne Hall. destruct names as [| n rest]; [now elim Hne |].
  destruct (plain_first n (Forall_inv Hall)) as (b & t & -> & Hb).
  destruct rest; cbn [spell String.append]; eauto.
Qed.

Lemma spelled_names (names : list string) :
  Forall plain names ->
  fold_left (append Posix) (map Path names) (Path "") = Path (spell names)
  /\ fold_left (append Posix) (map Path names) (Path "/")
     = Path ("/" ++ spell names)
  /\ components Posix (Path (spell names)) = map Path names
  /\ components Posix (Path ("/" ++ spell names))
     = Path "/" :: map Path names.
Proof.
  intros Hall. split; [| split; [| split]].
  - rewrite fold_append_names by (auto; now left).
    change (has_filename Posix (Path "")) with false.
    destruct names; reflexivity.
  - rewrite fold_append_names by (auto; right; now left).
    change (has_filename Posix (Path "/")) with false.
    destruct names; reflexivity.
  - destruct names as [| n rest]; [reflexivity |].
    destruct (spell_first (n :: rest)) as (b & r & Es & Hb);
      [discriminate | exact Hall |].
    unfold components.
    apply (components_from_names (n :: rest) ltac:(discriminate) Hall _ _ "").
    + reflexivity.
    + reflexivity.
    + right. unfold path_begin, make_iterator, _last.
      cbn [_root it_str _path is_windows andb]. rewrite Es.
      change (Str.at_ (String b r) 0) with b.
      cbn [preferred_separator]. unfold slash. rewrite Hb.
      now rewrite andb_false_r.
    + apply path_begin_read.
    + cbn [_path]. lia.
  - destruct names as [| n rest]; [reflexivity |].
    destruct (spell_first (n :: rest)) as (b & r & Es & Hb);
      [discriminate | exact Hall |].
    set (s := "/" ++ spell (n :: rest)).
    assert (Hs : s = String "/" (String b r))
      by (unfold s; now rewrite Es).
    assert (Hroot : _root (path_begin Posix (Path s)) = 0).
    { unfold path_begin, make_iterator.
      cbn [_root it_str _path is_windows andb]. rewrite Hs.
      change (Str.at_ (String "/" (String b r)) 0) with "/"%char.
      change (Str.at_ (String "/" (String b r)) 1) with b.
      cbn [preferred_separator]. unfold slash. rewrite Hb.
      cbn [String.length Nat.eqb negb andb Ascii.eqb].
      rewrite andb_false_r. reflexivity. }
    assert (Hcur : _current (path_begin Posix (Path s)) = Path "/").
    { unfold path_begin, make_iterator. cbn [_current _path].
      rewrite update_current_suffix by lia. cbv zeta.
      cbn [Nat.eqb negb andb Str.substr_from]. rewrite Hs.
      unfold step. cbn [preferred_separator]. unfold slash.
      rewrite Ascii.eqb_refl, Hb. cbn [String.substring].
      rewrite ?substring_0_0. reflexivity. }
    assert (Hincr : _pos (iterator_incr Posix (path_begin Posix (Path s))) = 1).
    { destruct (iterator_incr_fields (path_begin Posix (Path s)))
        as (_ & _ & ->).
      rewrite increment_step_it by (unfold _last; simpl; lia).
      rewrite Hroot.
      cbn [path_begin make_iterator it_str _pos _path Nat.eqb
           Str.substr_from Nat.add].
      rewrite Hs. unfold step. cbn [preferred_separator]. unfold slash.
      rewrite Ascii.eqb_refl, Hb.
      cbn [String.length skip_redundant Nat.eqb negb andb].
      change (Str.at_ (String "/" (String b r)) 1) with b.
      cbn [preferred_separator]. unfold slash. rewrite Hb.
      reflexivity. }
    unfold components. cbn [components_from].
    replace (_pos (path_begin Posix (Path s))
             =? _last (path_begin Posix (Path s))) with false
      by (rewrite Hs; reflexivity).
    rewrite Hcur. f_equal.
    destruct (iterator_incr_fields (path_begin Posix (Path s)))
      as (Hs' & Hr' & _).
    apply (components_from_names (n :: rest) ltac:(discriminate) Hall _ _ "/").
    + rewrite Hs'. reflexivity.
    + rewrite Hincr. reflexivity.
    + left. rewrite Hr'. exact Hroot.
    + apply iterator_incr_read.
    + cbn [_path]. unfold s. rewrite string_length_app. cbn [String.length]. lia.
Qed.

End Spelled.

(** X7.  On the POSIX grammar, appending plain
    names one after the other to the empty path gives the names joined
    by single separators, and appending them to the root gives the same
    behind one separator; the traversal of the result gives the names
    back, in order, after the root directory in the second case. *)
Theorem appended_names_round_trip (names : list string) :
  Forall (plain_name Posix) names ->
  let relative := fold_left (append Posix) (map Path names) (Path "") in
  let rooted := fold_left (append Posix) (map Path names) (Path "/") in
  relative = Path (spell names)
  /\ rooted = Path ("/" ++ spell names)
  /\ components Posix relative = map Path names
  /\ components Posix rooted = Path "/" :: map Path names.
Proof.
  intros Hall relative rooted.
  destruct (spelled_names names Hall) as (E1 & E2 & C1 & C2).
  subst relative rooted. rewrite E1, E2.
  split; [reflexivity |]. split; [reflexivity |].
  split; [exact C1 | exact C2].
Qed.

Lemma appended_names_round_trip_witness :
  fold_left (append Posix) (map Path ["usr"; "lib"; "libc.so"]) (Path "/")
  = Path "/usr/lib/libc.so"
  /\ components Posix (Path "/usr/lib/libc.so")
     = [Path "/"; Path "usr"; Path "lib"; Path "libc.so"].
Proof.
  destruct (appended_names_round_trip
              ["usr"; "lib"; "libc.so"]
              (all_plain_names Posix ["usr"; "lib"; "libc.so"] eq_refl))
    as (_ & E & _ & C).
  split; [exact E | exact C].
Defined.


Section SpelledFilename.

Let plain := plain_name Posix.

Lemma rfind_base_aux_app (f : ascii -> bool) (a b : string) :
  forall j k acc : nat,
    Str.rfind_base_aux f (a ++ b) (String.length a + j) k acc
    = Str.rfind_base_aux f b j (k + String.length a)
                         (Str.rfind_base_aux f a (String.length a) k acc).
Proof.
  induction a as [| c a IH]; intros j k acc; cbn [String.append String.length].
  - cbn. rewrite Nat.add_0_r. now destruct b, j.
  - cbn [Nat.add Str.rfind_base_aux]. rewrite IH. f_equal. lia.
Qed.

Lemma rfind_base_aux_absent (n : string) :
  occurs "/" n = false ->
  forall j k acc : nat,
    Str.rfind_base_aux (fun c => Ascii.eqb c slash) n j k acc = acc.
Proof.
  induction n as [| c n IH]; intros Hocc j k acc; [now destruct j |].
  cbn [occurs] in Hocc. apply orb_false_iff in Hocc.
  destruct Hocc as [Hc Hn]. destruct j; [reflexivity |].
  cbn [Str.rfind_base_aux]. cbv beta.
  change (Ascii.eqb c slash) with (Ascii.eqb c "/"). rewrite Hc.
  now apply IH.
Qed.

Lemma rfind_base_aux_whole (a : string) :
  a <> "" -> Ascii.eqb (Str.back a) "/" = true ->
  forall k acc : nat,
    Str.rfind_base_aux (fun c => Ascii.eqb c slash) a (String.length a) k acc
    = k + String.length a.
Proof.
  induction a as [| c a IH]; intros Hne Hb k acc; [now elim Hne |].
  cbn [String.length Str.rfind_base_aux].
  destruct a as [| d a'].
  - unfold Str.back, Str.at_ in Hb. cbn in Hb. cbv beta.
    change (Ascii.eqb c slash) with (Ascii.eqb c "/"). rewrite Hb.
    cbn. lia.
  - rewrite back_cons in Hb. rewrite IH by (auto; discriminate).
    cbn [String.length]. lia.
Qed.

Lemma spell_last (names : list string) :
  names <> [] ->
  exists mid : string,
    spell names = mid ++ last names ""
    /\ (mid = "" \/ (mid <> "" /\ Ascii.eqb (Str.back mid) "/" = true)).
Proof.
  induction names as [| n rest IH]; intros Hne; [now elim Hne |].
  destruct rest as [| n2 rest'].
  - exists "". split; [reflexivity | now left].
  - destruct IH as (mid & Hs & Hmid); [discriminate |].
    exists (n ++ "/" ++ mid). split.
    + change (spell (n :: n2 :: rest')) with (n ++ "/" ++ spell (n2 :: rest')).
      rewrite Hs. change (last (n :: n2 :: rest') "")
        with (last (n2 :: rest') "").
      now rewrite !string_app_assoc.
    + right. split; [destruct n; discriminate |].
      destruct Hmid as [-> | [Hm Hb]].
      * rewrite back_app by discriminate. reflexivity.
      * rewrite <- string_app_assoc. now rewrite back_app.
Qed.

Lemma filename_after_prefix (pre n : string) :
  plain n ->
  pre = "" \/ (pre <> "" /\ Ascii.eqb (Str.back pre) "/" = true) ->
  Ascii.eqb (Str.at_ (pre ++ n) 0) "/"
  && Ascii.eqb (Str.at_ (pre ++ n) 1) "/" = false ->
  get_filename Posix (Path (pre ++ n)) = Path n.
Proof.
  intros Hn Hpre Hroot.
  set (s := pre ++ n).
  destruct (plain_first n Hn) as (a & t & En & Ha).
  pose proof (back_plain n Hn) as Hbn.
  assert (Hne : n <> "") by (rewrite En; discriminate).
  assert (Hback : Ascii.eqb (Str.back s) "/" = false)
    by (unfold s; now rewrite back_app).
  assert (Hlen : String.length s = String.length pre + String.length n)
    by apply string_length_app.
  assert (Hn1 : 0 < String.length n) by (rewrite En; simpl; lia).
  assert (Hg : grown s).
  { repeat split; [| exact Hroot | exact Hback].
    intros E. rewrite E in Hlen. simpl in Hlen. lia. }
  pose proof (grown_has_filename s Hg) as Hf.
  rewrite posix_has_filename in Hf. apply andb_prop in Hf.
  destruct Hf as [Hrel _].
  unfold get_filename. rewrite Hrel. cbn [negb].
  unfold iterator_decr.
  assert (Hpos : _pos (path_end Posix (Path s)) = String.length s)
    by reflexivity.
  assert (Hstr : it_str (path_end Posix (Path s)) = s) by reflexivity.
  rewrite Hpos, Hstr.
  assert (Hdec : decrement Posix (path_end Posix (Path s)) (String.length s)
                 = String.length pre).
  { unfold decrement, _first, _last. rewrite Hstr.
    replace (String.length s =? 0) with false
      by (symmetry; apply Nat.eqb_neq; lia).
    rewrite Nat.eqb_refl. cbn [negb orb].
    fold (Str.back s). cbn [preferred_separator]. unfold slash at 1.
    rewrite Hback. cbn [negb andb].
    pose proof (root_of_end Posix (Path s)) as Hr. cbv zeta in Hr.
    cbn [_path] in Hr.
    replace (String.length s - 1 =? _root (path_end Posix (Path s)))
      with false.
    2:{ symmetry. apply Nat.eqb_neq. intros E.
        destruct Hr as [Hr | [(Hr & _ & H0) | (Hpl & _)]];
          [lia | | discriminate].
        assert (Hl1 : String.length s = 1) by lia.
        assert (Hb0 : Str.back s = Str.at_ s 0)
          by (unfold Str.back; now rewrite Hl1).
        rewrite Hb0, H0 in Hback. discriminate. }
    cbn [negb andb].
    assert (Hfind : Str.rfind_base (fun c => Ascii.eqb c slash)
                                   (String.length s - 1) s
                    = String.length pre).
    { unfold Str.rfind_base, s.
      replace (String.length (pre ++ n) - 1)
        with (String.length pre + (String.length n - 1))
        by (rewrite string_length_app; lia).
      rewrite rfind_base_aux_app.
      destruct (Hn) as (_ & Hocc & _).
      rewrite rfind_base_aux_absent by exact Hocc.
      destruct Hpre as [-> | [Hp Hb]]; [reflexivity |].
      now rewrite rfind_base_aux_whole. }
    rewrite Hfind.
    unfold slash. rewrite Nat.sub_0_r.
    destruct (String.length pre =? 2); [| reflexivity].
    cbn [andb preferred_separator]. unfold slash, s. rewrite Hroot.
    reflexivity. }
  rewrite Hdec.
  apply (current_at_name s (String.length pre) _ _ n "").
  - lia.
  - unfold s. rewrite substr_from_app. now rewrite string_app_nil_r.
  - exact Hn.
  - now left.
Qed.

Lemma filename_of_names (names : list string) :
  Forall plain names -> names <> [] ->
  get_filename Posix (Path (spell names)) = Path (last names "")
  /\ get_filename Posix (Path ("/" ++ spell names)) = Path (last names "")
  /\ last (components Posix (Path (spell names))) (Path "")
     = get_filename Posix (Path (spell names)).
Proof.
  intros Hall Hne.
  destruct (spell_last names Hne) as (mid & Hs & Hmid).
  destruct (spell_first names Hne Hall) as (b & r & Eb & Hb).
  assert (Hlast : plain (last names "")).
  { clear - Hall Hne. induction names as [| n rest IH]; [now elim Hne |].
    destruct rest as [| n2 rest']; [exact (Forall_inv Hall) |].
    apply IH; [exact (Forall_inv_tail Hall) | discriminate]. }
  assert (H1 : get_filename Posix (Path (spell names))
               = Path (last names "")).
  { rewrite Hs. apply filename_after_prefix; [exact Hlast | exact Hmid |].
    rewrite <- Hs, Eb. change (Str.at_ (String b r) 0) with b.
    now rewrite Hb. }
  split; [exact H1 |]. split.
  - rewrite Hs, <- string_app_assoc.
    apply filename_after_prefix; [exact Hlast | |].
    + right. split; [discriminate |].
      destruct Hmid as [-> | [Hm Hbk]]; [reflexivity |].
      now rewrite back_app.
    + rewrite string_app_assoc, <- Hs, Eb.
      change (Str.at_ ("/" ++ String b r) 1) with b.
      rewrite Hb. apply andb_false_r.
  - rewrite H1. destruct (spelled_names names Hall) as (_ & _ & -> & _).
    clear - Hne. induction names as [| n rest IH]; [now elim Hne |].
    destruct rest as [| n2 rest']; [reflexivity |].
    change (last (map Path (n :: n2 :: rest')) (Path ""))
      with (last (map Path (n2 :: rest')) (Path "")).
    rewrite IH by discriminate. reflexivity.
Qed.

End SpelledFilename.

(** X8.  On the POSIX grammar the file name of a
    path put together by appending plain names to the empty path or to
    the root is the last of the names, and it is the last component of
    the forward traversal. *)
Theorem filename_of_appended_names (names : list string) :
  Forall (plain_name Posix) names -> names <> [] ->
  let relative := fold_left (append Posix) (map Path names) (Path "") in
  let rooted := fold_left (append Posix) (map Path names) (Path "/") in
  get_filename Posix relative = Path (last names "")
  /\ get_filename Posix rooted = Path (last names "")
  /\ last (components Posix relative) (Path "") = get_filename Posix relative.
Proof.
  intros Hall Hne relative rooted.
  destruct (spelled_names names Hall) as (E1 & E2 & _ & _).
  destruct (filename_of_names names Hall Hne) as (F1 & F2 & F3).
  subst relative rooted. rewrite E1, E2.
  split; [exact F1 |]. split; [exact F2 | exact F3].
Qed.

Lemma filename_of_appended_names_witness :
  get_filename Posix (Path "/usr/lib/libc.so") = Path "libc.so".
Proof.
  assert (Hne : ["usr"; "lib"; "libc.so"] <> []) by discriminate.
  destruct (filename_of_appended_names
              ["usr"; "lib"; "libc.so"]
              (all_plain_names Posix ["usr"; "lib"; "libc.so"] eq_refl) Hne)
    as (_ & F & _).
  exact F.
Defined.

(* ===================================================================== *)
(** * C8: [get_filename] and the last component of the traversal *)
















(** A native string of the POSIX grammar that does not start with two
    separators and has no colon in second place. *)
Section LastTraversed.

Variable s : string.

Hypothesis no_double_start :
  Ascii.eqb (Str.at_ s 0) "/" && Ascii.eqb (Str.at_ s 1) "/" = false.
Hypothesis no_colon : Str.at_ s 1 <> colon.

Let len : nat := String.length s.


(** Forwards, for a string other than the root directory. *)
Hypothesis not_root : s <> "/".






End LastTraversed.







(** Backward traversal on the POSIX build. *)
Lemma iterator_decr_fields (pl : platform) (it : iterator) :
  it_str (iterator_decr pl it) = it_str it
  /\ _root (iterator_decr pl it) = _root it
  /\ _pos (iterator_decr pl it) = decrement pl it (_pos it).
Proof.
  unfold iterator_decr.
  match goal with
  | |- context [update_current pl ?i] =>
      destruct (update_current_fields pl i) as (Hs & Hp & Hr)
  end.
  rewrite Hs, Hp, Hr. repeat split.
Qed.

Lemma decrement_at_begin (pl : platform) (it : iterator) :
  decrement pl it 0 = 0.
Proof. reflexivity. Qed.

(** X9.  On the POSIX grammar [operator--] moves
    every iterator that is not at the start strictly towards the start,
    so decrementing [end()] as many times as the native string has
    characters arrives at [begin()]'s position.  On the Windows grammar
    it can stay in place: decrementing [end()] of ["a::"] leaves the
    position at the end. *)
Theorem posix_backward_traversal (p : path) :
  (forall it : iterator,
      0 < _pos it -> _pos (iterator_decr Posix it) < _pos it)
  /\ _pos (Nat.iter (String.length (_path p)) (iterator_decr Posix)
                    (path_end Posix p)) = 0
  /\ _pos (iterator_decr Windows (path_end Windows (Path "a::"))) = 3.
Proof.
  assert (Hstep : forall it : iterator,
             0 < _pos it -> _pos (iterator_decr Posix it) < _pos it).
  { intros it H. destruct (iterator_decr_fields Posix it) as (_ & _ & ->).
    now apply posix_decrement_lt. }
  split; [exact Hstep |]. split; [| reflexivity].
  assert (Hinv : forall (k : nat) (it : iterator),
             _pos (Nat.iter k (iterator_decr Posix) it) <= _pos it - k).
  { induction k as [| k IH]; intros it; simpl; [lia |].
    specialize (IH it).
    set (it' := Nat.iter k (iterator_decr Posix) it) in *.
    destruct (Nat.eq_dec (_pos it') 0) as [E | E].
    - destruct (iterator_decr_fields Posix it') as (_ & _ & ->).
      rewrite E, decrement_at_begin. lia.
    - specialize (Hstep it'). lia. }
  specialize (Hinv (String.length (_path p)) (path_end Posix p)).
  cbn [path_end make_iterator _pos] in Hinv. lia.
Qed.

(** X10.  On the Windows grammar a string that starts
    with a drive letter and a colon has these two characters as root
    name.  Its root directory is the separator when the separator comes
    next and is empty otherwise, and only in the first case is the path
    absolute: ["C:\x"] is, ["C:x"] and ["C:"] are not.  Its root path
    is the root name followed by the root directory, and root name, root
    directory and relative path put together give the string back. *)
Theorem windows_drive_paths (c : ascii) (rest : string) :
  is_drive_letter c = true ->
  let p := Path (String c (String colon rest)) in
  root_name Windows p = Path (String c (String colon ""))
  /\ root_directory Windows p
     = (if Ascii.eqb (Str.at_ rest 0) backslash then Path "\" else Path "")
  /\ is_absolute Windows p = Ascii.eqb (Str.at_ rest 0) backslash
  /\ _path (root_path Windows p)
     = _path (root_name Windows p) ++ _path (root_directory Windows p)
  /\ _path (root_name Windows p) ++ _path (root_directory Windows p)
     ++ _path (relative_path Windows p) = _path p.
Proof.
  intros Hdl p.
  assert (Hrn : root_name Windows p = Path (String c (String colon ""))).
  { unfold root_name, p. cbn -[is_drive_letter]. rewrite Hdl.
    cbn. now rewrite substring_0_0. }
  assert (Hrn2 : root_name Windows (Path (String c (String colon "")))
                 = Path (String c (String colon ""))).
  { unfold root_name. cbn -[is_drive_letter]. now rewrite Hdl. }
  assert (Hrd : root_directory Windows p
                = if Ascii.eqb (Str.at_ rest 0) backslash
                  then Path "\" else Path "").
  { unfold root_directory. rewrite Hrn. unfold p.
    cbn [_path String.length preferred_separator].
    change (Str.at_ (String c (String colon rest)) 2) with (Str.at_ rest 0).
    destruct rest as [| b r]; [reflexivity |].
    change (Str.at_ (String b r) 0) with b.
    destruct (Ascii.eqb b backslash); reflexivity. }
  split; [exact Hrn |]. split; [exact Hrd |].
  split.
  { unfold is_absolute, has_root_name, has_root_directory.
    rewrite Hrn, Hrd. destruct (Ascii.eqb _ backslash); reflexivity. }
  unfold relative_path, root_path. rewrite Hrd, Hrn.
  destruct rest as [| b r].
  - cbn. split; reflexivity.
  - change (Str.at_ (String b r) 0) with b.
    destruct (Ascii.eqb_spec b backslash) as [-> | Hb].
    + unfold append_with.
      cbn -[is_drive_letter root_name]. rewrite Hrn2.
      destruct r; cbn; split; reflexivity.
    + cbn. split; reflexivity.
Qed.

Lemma windows_drive_paths_witness :
  root_name Windows (Path "C:\Users") = Path "C:"
  /\ is_absolute Windows (Path "C:\Users") = true
  /\ is_absolute Windows (Path "C:Users") = false.
Proof.
  destruct (windows_drive_paths "C"%char "\Users" eq_refl)
    as (Hrn & _ & Habs & _).
  destruct (windows_drive_paths "C"%char "Users" eq_refl)
    as (_ & _ & Hrel & _).
  split; [exact Hrn |]. split; [exact Habs | exact Hrel].
Defined.

(* ===================================================================== *)
(** * Further properties of the operations *)

Section MoreOperationFacts.

Context {os : OS}.

Local Open Scope Z_scope.

(** ** [status(ec)] by the outcome of [::lstat] *)

(** X11.  [status(ec)] leaves the code clear exactly when
    [::lstat] succeeds.  Its type is [not_found] exactly when [::lstat]
    fails with [ENOENT] and [none] exactly when it fails with another
    error; in both cases the permissions are [unknown] and the code is
    the error of [::lstat].  A failure of the following [::stat] on a
    link is not reported. *)
Theorem status_cases (fs : fsys) (p : path) :
  (snd (status fs p) = ec_clear
   <-> exists st : stat_t, sys_lstat fs (c_str p) = Ok st)
  /\ (type (fst (status fs p)) = ft_not_found
      <-> sys_lstat fs (c_str p) = Err ENOENT)
  /\ (type (fst (status fs p)) = ft_none
      <-> exists e : positive,
            e <> ENOENT /\ sys_lstat fs (c_str p) = Err e)
  /\ (forall e : positive,
         sys_lstat fs (c_str p) = Err e ->
         status fs p
         = (FileStatus (if (e =? ENOENT)%positive then ft_not_found
                        else ft_none) perms_unknown,
            Zpos e)).
Proof.
  unfold status, internal_status.
  destruct (sys_lstat fs (c_str p)) as [st | e] eqn:Hl.
  - assert (Hfound : forall m, type (file_status_from_st_mode m) <> ft_none
                               /\ type (file_status_from_st_mode m)
                                  <> ft_not_found)
      by apply file_status_from_st_mode_found.
    assert (H : exists s, (let '(s0, ec, _) :=
                             if file_type_eqb
                                  (type (file_status_from_st_mode (st_mode st)))
                                  ft_symlink
                             then match sys_stat fs (c_str p) with
                                  | Ok st' =>
                                      (file_status_from_st_mode (st_mode st'),
                                       ec_clear, Some st')
                                  | Err _ =>
                                      (file_status_from_st_mode (st_mode st),
                                       ec_clear, Some st)
                                  end
                             else (file_status_from_st_mode (st_mode st),
                                   ec_clear, Some st)
                           in (s0, ec))
                          = (s, ec_clear)
                          /\ type s <> ft_none /\ type s <> ft_not_found).
    { destruct (file_type_eqb _ ft_symlink);
        [destruct (sys_stat fs (c_str p)) |];
        eexists; (split; [reflexivity | apply Hfound]). }
    destruct H as (s & -> & Hn & Hnf). cbn [fst snd].
    repeat split; try (intros; discriminate); try (intros; congruence).
    + intros _. now exists st.
    + intros (e & _ & He). discriminate.
  - destruct (Pos.eqb_spec e ENOENT) as [-> | He]; cbn [fst snd type].
    + repeat split; try (intros; discriminate); try reflexivity.
      * intros (st & Hst). discriminate.
      * intros (e & Hne & He). congruence.
      * intros e He. injection He as <-. reflexivity.
    + repeat split; try (intros; discriminate).
      * intros (st & Hst). discriminate.
      * intros H. congruence.
      * intros _. now exists e.
      * intros e' He'. injection He' as <-.
        destruct (Pos.eqb_spec e ENOENT); [contradiction | reflexivity].
Qed.


(** ** Symbolic links *)

Lemma found_is_not_missing (m : Z) :
  file_type_eqb (type (file_status_from_st_mode m)) ft_not_found = false.
Proof.
  destruct (file_status_from_st_mode_found m) as [_ H].
  destruct (type (file_status_from_st_mode m)); try reflexivity.
  now elim H.
Qed.

Lemma type_of_st_mode (m : Z) :
  file_type_eqb (type (file_status_from_st_mode m)) ft_directory
  = S_ISTYPE m S_IFDIR
  /\ file_type_eqb (type (file_status_from_st_mode m)) ft_regular
     = S_ISTYPE m S_IFREG
  /\ file_type_eqb (type (file_status_from_st_mode m)) ft_symlink
     = S_ISTYPE m S_IFLNK.
Proof.
  unfold file_status_from_st_mode, S_ISTYPE.
  unfold S_IFDIR, S_IFREG, S_IFCHR, S_IFBLK, S_IFIFO, S_IFLNK, S_IFSOCK.
  generalize (Z.land m S_IFMT). intros z.
  repeat match goal with
         | |- context [(z =? ?k)] => destruct (Z.eqb_spec z k); try lia
         end; cbn; repeat split; reflexivity.
Qed.

(** X12.  For a symbolic link whose target [::stat]
    resolves, [status(ec)] and [symlink_status(ec)] agree and describe
    the target, and [is_symlink()] is true only if [::stat] itself
    reports a link.  For a link whose target cannot be resolved,
    [status(ec)] reports the type [symlink] with the code clear, while
    [symlink_status(ec)] reports [not_found] or [none] with the error of
    [::stat]; [exists()] is false, [is_symlink()] is true and
    [is_directory()] and [is_file()] are false. *)
Theorem symbolic_link_status (fs : fsys) (p : path) (st : stat_t) :
  sys_lstat fs (c_str p) = Ok st ->
  S_ISTYPE (st_mode st) S_IFLNK = true ->
  (forall st' : stat_t,
      sys_stat fs (c_str p) = Ok st' ->
      status fs p = (file_status_from_st_mode (st_mode st'), ec_clear)
      /\ symlink_status fs p = status fs p
      /\ exists_ fs p = true
      /\ path_is_symlink fs p = S_ISTYPE (st_mode st') S_IFLNK
      /\ path_is_directory fs p = S_ISTYPE (st_mode st') S_IFDIR
      /\ path_is_file fs p = S_ISTYPE (st_mode st') S_IFREG)
  /\ (forall e : positive,
         sys_stat fs (c_str p) = Err e ->
         status fs p
         = (FileStatus ft_symlink (Z.land (st_mode st) 4095), ec_clear)
         /\ symlink_status fs p
            = (FileStatus (if (e =? ENOENT)%positive then ft_not_found
                           else ft_none) perms_unknown,
               Zpos e)
         /\ exists_ fs p = false
         /\ path_is_symlink fs p = true
         /\ path_is_directory fs p = false
         /\ path_is_file fs p = false).
Proof.
  intros Hl Hlnk.
  destruct (type_of_st_mode (st_mode st)) as (_ & _ & Hk).
  rewrite Hlnk in Hk.
  assert (Hty : type (file_status_from_st_mode (st_mode st)) = ft_symlink)
    by (destruct (type (file_status_from_st_mode (st_mode st)));
        try discriminate; reflexivity).
  unfold path_is_symlink, path_is_directory, path_is_file,
    get_file_type_no_ec, status_no_ec, exists_, symlink_status, status,
    internal_status, to_string, c_str in *.
  rewrite Hl, Hk. split.
  - intros st' Hs. rewrite Hs. cbn [type].
    destruct (type_of_st_mode (st_mode st')) as (Hd & Hr & Hk').
    repeat split; assumption.
  - intros e Hs. rewrite Hs.
    assert (Hst : file_status_from_st_mode (st_mode st)
                  = FileStatus ft_symlink (Z.land (st_mode st) 4095)).
    { revert Hty. unfold file_status_from_st_mode. cbn [type].
      now intros ->. }
    rewrite Hst. cbn [type file_type_eqb].
    repeat split.
    destruct (e =? ENOENT)%positive; reflexivity.
Qed.

(** ** Metadata of symbolic links *)

(** X13.  For a symbolic link whose target
    [::stat] resolves, [last_write_time(ec)], [hard_link_count(ec)] and
    [file_size(ec)] report the target's values.  For a link whose target
    cannot be resolved, [last_write_time(ec)] and [hard_link_count(ec)]
    succeed with the values [::lstat] gave for the link itself, while
    [file_size(ec)] fails with the error of [::stat] and the unknown
    size. *)
Theorem symbolic_link_metadata (fs : fsys) (p : path) (st : stat_t) :
  sys_lstat fs (c_str p) = Ok st ->
  S_ISTYPE (st_mode st) S_IFLNK = true ->
  (forall st' : stat_t,
      sys_stat fs (c_str p) = Ok st' ->
      last_write_time_ec fs p = (from_time_t (st_mtime st'), ec_clear)
      /\ hard_link_count_ec fs p = (size_t_wrap (st_nlink st'), ec_clear)
      /\ file_size_ec fs p = (uintmax_wrap (st_size st'), ec_clear))
  /\ (forall e : positive,
         sys_stat fs (c_str p) = Err e ->
         last_write_time_ec fs p = (from_time_t (st_mtime st), ec_clear)
         /\ hard_link_count_ec fs p = (size_t_wrap (st_nlink st), ec_clear)
         /\ file_size_ec fs p = (uintmax_unknown, Zpos e)).
Proof.
  intros Hl Hlnk.
  destruct (type_of_st_mode (st_mode st)) as (_ & _ & Hk).
  rewrite Hlnk in Hk.
  pose proof found_is_not_missing as Hfound.
  unfold last_write_time_ec, hard_link_count_ec, file_size_ec,
    internal_status, c_str in *.
  rewrite Hl, Hk. split.
  - intros st' Hs. rewrite Hs, Hfound. repeat split.
  - intros e Hs. rewrite Hs, Hfound. repeat split.
Qed.


(** ** [get_size] and [file_size] *)

(** X14.  With the file system unchanged between its two
    calls of [::stat], [get_size()] never raises its [runtime_error]:
    where [::stat] succeeds it returns [st_size] as a [size_t], the
    value [file_size(ec)] reports, and where [::stat] fails it returns
    [0], while [file_size(ec)] reports the unknown size and the
    error. *)
Theorem get_size_cases (fs : fsys) (p : path) :
  (forall sb : stat_t,
      sys_stat fs (c_str p) = Ok sb ->
      get_size fs p = Size (size_t_wrap (st_size sb))
      /\ file_size_ec fs p = (uintmax_wrap (st_size sb), ec_clear))
  /\ (forall e : positive,
         sys_stat fs (c_str p) = Err e ->
         get_size fs p = Size 0
         /\ file_size_ec fs p = (uintmax_unknown, Zpos e))
  /\ (forall what : string, get_size fs p <> Runtime_error what).
Proof.
  unfold get_size, file_size_ec, exists_, to_string, c_str.
  destruct (sys_stat fs (_path p)) as [sb | e]; cbn [negb].
  - split; [| split].
    + intros sb' Hsb. injection Hsb as <-. split; reflexivity.
    + intros e He. discriminate.
    + intros what. discriminate.
  - split; [| split].
    + intros sb Hsb. discriminate.
    + intros e' He. injection He as <-. split; reflexivity.
    + intros what. discriminate.
Qed.

(** ** [mkdirs(ec)] *)

Lemma ec_not_set (ec : error_code) : ec_set ec = false -> ec = ec_clear.
Proof.
  unfold ec_set, ec_clear. intros H. apply negb_false_iff in H.
  now apply Z.eqb_eq.
Qed.

Lemma mkdirs_loop_result (rn rp : path) :
  forall (parts : list path) (fs : fsys) (current : path),
    let '(_, r, ec) := mkdirs_loop parts rn rp fs current ec_clear in
    (r = true -> ec = ec_clear) /\ (ec_set ec = true -> r = false).
Proof.
  induction parts as [| part parts IH]; intros fs current;
    cbn [mkdirs_loop].
  - split; [reflexivity | discriminate].
  - destruct (path_eqb part rn); [apply IH |].
    destruct (_ && _); [| apply IH].
    destruct (status fs _) as [st ec1].
    destruct (ec_set ec1 && _); [split; [discriminate | reflexivity] |].
    destruct (negb (exists_ fs _)).
    + destruct (mkdir_ec perms_all fs _) as [[fs' r'] ec'] eqn:Hm.
      destruct (ec_set ec') eqn:He;
        [split; [discriminate | reflexivity] |].
      apply ec_not_set in He. subst ec'. apply IH.
    + destruct (negb _); [split; [discriminate | reflexivity] |].
      apply IH.
Qed.

(** X15.  [mkdirs(ec)] never returns [true] with the code
    set: when it returns [true] the code is clear, and when the code is
    set it returns [false]. *)
Theorem mkdirs_result (fs : fsys) (p : path) :
  (snd (fst (mkdirs_ec fs p)) = true -> snd (mkdirs_ec fs p) = ec_clear)
  /\ (ec_set (snd (mkdirs_ec fs p)) = true
      -> snd (fst (mkdirs_ec fs p)) = false).
Proof.
  unfold mkdirs_ec.
  pose proof (mkdirs_loop_result (root_name Posix p) (root_path Posix p)
                (components Posix p) fs (Path "")) as H.
  destruct (mkdirs_loop _ _ _ fs (Path "") ec_clear) as [[fs' r] ec].
  exact H.
Qed.


(** ** [mkdirs(ec)] on a single plain name *)

Lemma plain_name_components (pl : platform) (n : string) :
  plain_name pl n -> components pl (Path n) = [Path n].
Proof.
  intros Hn. pose proof Hn as (Hne & _).
  unfold components. cbn [components_from].
  assert (Hp0 : _pos (path_begin pl (Path n)) = 0%nat) by reflexivity.
  assert (Hl : _last (path_begin pl (Path n)) = String.length n)
    by reflexivity.
  rewrite Hp0, Hl. cbn [_path].
  replace (0 =? String.length n)%nat with false
    by (destruct n; [now elim Hne | reflexivity]).
  rewrite (plain_name_begin pl n Hn). f_equal.
  destruct (String.length n) eqn:E; [reflexivity |].
  cbn [components_from]. rewrite (plain_name_incr pl n Hn).
  unfold _last.
  destruct (iterator_incr_advances pl (path_begin pl (Path n))) as [Hs _].
  { rewrite Hp0, Hl. lia. }
  rewrite Hs. cbn [path_begin make_iterator it_str _path].
  now rewrite E, Nat.eqb_refl.
Qed.

(** X16.  [mkdirs(ec)] on a single plain name, by what
    the system calls answer.  When [::lstat] fails with an error other
    than [ENOENT] it returns [false] with that error.  Otherwise, when
    the name does not exist for [::stat], it calls [::mkdir] once and
    returns [true], or [false] with the error of [::mkdir]; when the
    name exists it creates nothing, leaves the code clear and returns
    whether [status] reports a directory, so an entry of another kind in
    the way gives [false] without an error. *)
Theorem mkdirs_plain_name (fs : fsys) (n : string) :
  plain_name Posix n ->
  mkdirs_ec fs (Path n)
  = match sys_lstat fs n with
    | Err e =>
        if negb (e =? ENOENT)%positive then (fs, false, Zpos e)
        else if exists_ fs (Path n) then (fs, false, ec_clear)
        else match sys_mkdir fs n perms_all with
             | Ok fs' => (fs', true, ec_clear)
             | Err e' => (fs, false, Zpos e')
             end
    | Ok _ =>
        if exists_ fs (Path n)
        then (fs, is_directory (fst (status fs (Path n))), ec_clear)
        else match sys_mkdir fs n perms_all with
             | Ok fs' => (fs', true, ec_clear)
             | Err e' => (fs, false, Zpos e')
             end
    end.
Proof.
  intros Hn. pose proof Hn as (Hne & _ & _ & Hrn).
  unfold mkdirs_ec. rewrite (plain_name_components Posix n Hn).
  assert (Hrn' : root_name Posix (Path n) = Path "").
  { unfold has_root_name in Hrn. apply negb_false_iff in Hrn.
    destruct (root_name Posix (Path n)) as [[| x r]];
      [reflexivity | discriminate]. }
  assert (Hrp : root_path Posix (Path n) = Path "").
  { pose proof (has_root_path_cases Posix (Path n)) as H.
    destruct (plain_name_not_rooted Posix n Hn) as [Hrd _].
    rewrite Hrn, Hrd in H. unfold has_root_path in H.
    apply negb_false_iff in H.
    destruct (root_path Posix (Path n)) as [[| x r]];
      [reflexivity | discriminate]. }
  rewrite Hrn', Hrp. cbn [mkdirs_loop].
  assert (Hneq : path_eqb (Path n) (Path "") = false)
    by (unfold path_eqb; destruct n; [now elim Hne | reflexivity]).
  rewrite Hneq.
  rewrite (append_of_plain_name Posix (Path "") n Hn).
  cbn [has_filename]. change (has_filename Posix (Path "")) with false.
  cbn [_path append]. change ("" ++ n)%string with n.
  rewrite Hneq. cbn [negb andb].
  unfold mkdir_ec.
  unfold status, internal_status, c_str. cbn [_path].
  destruct (sys_lstat fs n) as [st | e] eqn:Hl.
  - assert (Hst : exists s b,
               (if file_type_eqb (type (file_status_from_st_mode (st_mode st)))
                                 ft_symlink
                then match sys_stat fs n with
                     | Ok st' =>
                         (file_status_from_st_mode (st_mode st'), ec_clear,
                          Some st')
                     | Err _ =>
                         (file_status_from_st_mode (st_mode st), ec_clear,
                          Some st)
                     end
                else (file_status_from_st_mode (st_mode st), ec_clear, Some st))
               = (s, ec_clear, b)
               /\ type s <> ft_none).
    { destruct (file_type_eqb _ ft_symlink);
        [destruct (sys_stat fs n) |];
        eexists; eexists; (split; [reflexivity |]);
        apply file_status_from_st_mode_found. }
    destruct Hst as (s & b & -> & Hnone).
    cbn [ec_set ec_clear Z.eqb negb andb].
    destruct (exists_ fs (Path n)) eqn:Hex; cbn [negb].
    + unfold is_directory. cbn [fst].
      destruct (file_type_eqb (type s) ft_directory); reflexivity.
    + destruct (negb (file_type_eqb (type s) ft_none)); cbn [andb];
        destruct (sys_mkdir fs n perms_all) as [fs' | e']; reflexivity.
  - destruct (Pos.eqb_spec e ENOENT) as [-> | He].
    + cbn [ec_set type file_type_eqb negb andb].
      replace (ec_set (Z.pos ENOENT)) with true by reflexivity.
      cbn [andb].
      destruct (exists_ fs (Path n)) eqn:Hex; cbn [negb]; [reflexivity |].
      cbn [andb].
      destruct (sys_mkdir fs n perms_all) as [fs' | e']; reflexivity.
    + cbn [negb status_of_type type file_type_eqb andb].
      replace (ec_set (Z.pos e)) with true by reflexivity.
      reflexivity.
Qed.


(** ** [remove_all(ec)]: an error gives the unknown count *)

Lemma uintmax_wrap_range (z : Z) : 0 <= uintmax_wrap z < 2 ^ 64.
Proof. unfold uintmax_wrap. apply Z.mod_pos_bound. lia. Qed.

Lemma remove_all_loop_exit
      (rec : fsys -> path -> option (fsys * Z * error_code)) :
  forall (k : nat) (iter : impl) (fs : fsys) (count : Z) (ec : error_code)
         (e : loop_exit),
    0 <= count < 2 ^ 64 ->
    remove_all_loop rec k iter fs count ec = Some e ->
    match e with
    | Returned _ result ec' => result = uintmax_unknown /\ ec_set ec' = true
    | Left_loop _ count' _ => 0 <= count' < 2 ^ 64
    end.
Proof.
  induction k as [| k IH]; intros iter fs count ec e Hc; cbn [remove_all_loop];
    [discriminate |].
  destruct (negb (not_at_end iter));
    [intros H; injection H as <-; exact Hc |].
  destruct (ec_set ec); [intros H; injection H as <-; exact Hc |].
  destruct (directory_entry_status fs (_dir_entry iter)) as [iter_fs ec0].
  destruct (child_is_recursed iter_fs).
  - destruct (rec fs (de_path (_dir_entry iter))) as [[[fs' n] ec1] |];
      [| discriminate].
    destruct (ec_set ec1) eqn:He.
    + intros H. injection H as <-. split; [reflexivity | exact He].
    + destruct (impl_increment iter ec1) as [iter' ec2].
      apply IH. apply uintmax_wrap_range.
  - destruct (remove_ec fs (de_path (_dir_entry iter))) as [[fs' r] ec1].
    destruct (ec_set ec1) eqn:He.
    + intros H. injection H as <-. split; [reflexivity | exact He].
    + destruct (impl_increment iter ec1) as [iter' ec2].
      apply IH. apply uintmax_wrap_range.
Qed.

(** X17.  Whenever [remove_all(ec)] returns with the
    code set, the count it returns is the unknown count
    [static_cast<uintmax_t>(-1)], whatever had been removed before the
    error; and every count it returns is a [uintmax_t] value. *)
Theorem remove_all_sentinel :
  forall (fuel : nat) (fs : fsys) (p : path) (fs' : fsys) (n : Z)
         (ec : error_code),
    remove_all_ec fuel fs p = Some (fs', n, ec) ->
    (ec_set ec = true -> n = uintmax_unknown) /\ 0 <= n < 2 ^ 64.
Proof.
  assert (Hu : 0 <= uintmax_unknown < 2 ^ 64) by apply uintmax_wrap_range.
  destruct fuel as [| fuel]; intros fs p fs' n ec; cbn [remove_all_ec];
    [discriminate |].
  destruct (path_eqb p (Path "/")).
  { intros H. injection H as <- <- <-. split; [discriminate | exact Hu]. }
  destruct (status fs p) as [st tec].
  match goal with
  | |- match ?t with _ => _ end = _ -> _ =>
      assert (Ht : forall e, t = Some e ->
                   match e with
                   | Returned _ result ec' =>
                       result = uintmax_unknown /\ ec_set ec' = true
                   | Left_loop _ count' _ => 0 <= count' < 2 ^ 64
                   end);
      [| destruct t as [e |]; [specialize (Ht e eq_refl) | discriminate]]
  end.
  { intros e. destruct (exists_ fs p && is_directory st).
    - destruct (directory_iterator_ec fs p ec_clear) as [iter ec0].
      apply remove_all_loop_exit. lia.
    - intros H. injection H as <-. lia. }
  destruct e as [fs1 result ec1 | fs1 count ec1].
  - destruct Ht as [-> He]. intros H. injection H as <- <- <-.
    split; [reflexivity | exact Hu].
  - destruct (negb (ec_set ec1)).
    + destruct (remove_ec fs1 p) as [[fs2 removed] ec2].
      destruct (ec_set ec2) eqn:He; intros H; injection H as <- <- <-.
      * split; [reflexivity | exact Hu].
      * split; [rewrite He; discriminate |].
        destruct removed; [apply uintmax_wrap_range | exact Ht].
    + destruct (ec_set ec1) eqn:He; intros H; injection H as <- <- <-.
      * split; [reflexivity | exact Hu].
      * split; [rewrite He; discriminate | exact Ht].
Qed.


(** ** The directory iterator *)

Lemma impl_increment_loop_skips (stream : list (sysres string)) :
  forall (i : impl) (ec : error_code),
    let r := impl_increment_loop stream i ec in
    match skip_dots stream with
    | [] =>
        impl_current (fst r) = Path "" /\ _dir (fst r) = None /\ snd r = ec
    | Ok name :: rest =>
        impl_current (fst r) = append Posix (_base i) (Path name)
        /\ _dir_entry (fst r)
           = DirectoryEntry (append Posix (_base i) (Path name))
        /\ _dir (fst r) = Some rest /\ snd r = ec
    | Err e :: rest =>
        impl_current (fst r) = Path "" /\ _dir (fst r) = Some rest
        /\ snd r = Zpos e
    end.
Proof.
  induction stream as [| [d_name | e] stream IH]; intros i ec;
    cbn [impl_increment_loop skip_dots].
  - repeat split.
  - destruct (String.eqb d_name "." || String.eqb d_name "..").
    + apply (IH (Impl (_base i) (Some stream) d_name
                      (append Posix (_base i) (Path d_name))
                      (DirectoryEntry (append Posix (_base i) (Path d_name)))
                      (impl_ec i)) ec).
    + repeat split.
  - repeat split.
Qed.

(** X18.  [directory_iterator(p, ec)] is an end
    iterator with [ec] untouched for the empty path, for a directory
    without entries other than ["."] and [".."], and also when
    [::opendir] fails with [EACCES]; with any other error of [::opendir]
    it is an end iterator and [ec] holds the error.  Otherwise it stands
    at the first entry other than ["."] and [".."], whose path is
    [p / name], unless reading fails before, which leaves an end
    iterator and the error in [ec]. *)
Theorem directory_iterator_ec_cases (fs : fsys) (p : path) (ec : error_code) :
  let r := directory_iterator_ec fs p ec in
  (empty p = true -> not_at_end (fst r) = false /\ snd r = ec)
  /\ (empty p = false ->
      sys_opendir fs (c_str p) = Err EACCES ->
      not_at_end (fst r) = false /\ snd r = ec)
  /\ (forall e : positive,
         empty p = false ->
         sys_opendir fs (c_str p) = Err e -> e <> EACCES ->
         not_at_end (fst r) = false /\ snd r = Zpos e)
  /\ (forall stream : list (sysres string),
         empty p = false ->
         sys_opendir fs (c_str p) = Ok stream ->
         match skip_dots stream with
         | [] => not_at_end (fst r) = false /\ snd r = ec
         | Ok name :: rest =>
             impl_current (fst r) = append Posix p (Path name)
             /\ _dir_entry (fst r)
                = DirectoryEntry (append Posix p (Path name))
             /\ _dir (fst r) = Some rest /\ snd r = ec
         | Err e :: rest => not_at_end (fst r) = false /\ snd r = Zpos e
         end).
Proof.
  intros r. subst r. unfold directory_iterator_ec, impl_new.
  destruct (empty p) eqn:He; cbn [negb fst snd].
  - split; [| split; [| split]]; try (intros; discriminate).
    intros _. split; reflexivity.
  - split; [| split; [| split]]; try (intros; discriminate).
    + intros _ Ho. rewrite Ho. cbn. split; reflexivity.
    + intros e _ Ho Hne. rewrite Ho.
      destruct (Pos.eqb_spec e EACCES) as [-> | _]; [now elim Hne |].
      cbn. split; reflexivity.
    + intros stream _ Ho. rewrite Ho. unfold impl_increment. cbn [_dir].
      pose proof (impl_increment_loop_skips
                    stream
                    (Impl p (Some stream) "" (Path "")
                          (DirectoryEntry (Path "")) ec_clear)
                    ec_clear) as H.
      cbv zeta in H. cbn [_base impl_ec] in *.
      destruct (impl_increment_loop stream _ ec_clear) as [i' ec'].
      cbn [fst snd impl_ec impl_current _dir _dir_entry] in *.
      destruct (skip_dots stream) as [| [name | e] rest].
      * destruct H as (Hc & _ & ->). unfold not_at_end.
        cbn [impl_current]. rewrite Hc. cbn. split; reflexivity.
      * destruct H as (Hc & Hd & Hs & ->). cbn. repeat split; assumption.
      * destruct H as (Hc & _ & ->). unfold not_at_end.
        cbn [impl_current]. rewrite Hc. cbn. split; reflexivity.
Qed.

(** ** [equivalent] as a relation *)

(** X19.  The result of [equivalent(ec)] is symmetric
    and transitive.  It is reflexive only on the paths [::stat]
    resolves: [equivalent(p, p, ec)] is [true] with the code clear when
    [::stat] succeeds on [p], and [false] with the error of [::stat]
    otherwise.  A result [true] comes with the code clear and two paths
    that exist. *)
Theorem equivalent_relation (fs : fsys) (a b c : path) (e0 e1 e2 : Z) :
  fst (equivalent_ec e0 fs a b) = fst (equivalent_ec e1 fs b a)
  /\ (fst (equivalent_ec e0 fs a b) = true ->
      fst (equivalent_ec e1 fs b c) = true ->
      fst (equivalent_ec e2 fs a c) = true)
  /\ ((exists st, sys_stat fs (c_str a) = Ok st)
      <-> equivalent_ec e0 fs a a = (true, ec_clear))
  /\ (forall e : positive,
         sys_stat fs (c_str a) = Err e ->
         equivalent_ec e0 fs a a = (false, Zpos e))
  /\ (fst (equivalent_ec e0 fs a b) = true ->
      snd (equivalent_ec e0 fs a b) = ec_clear
      /\ exists_ fs a = true /\ exists_ fs b = true).
Proof.
  unfold equivalent_ec, exists_, to_string, c_str.
  destruct (sys_stat fs (_path a)) as [sa | ea];
    destruct (sys_stat fs (_path b)) as [sb | eb];
    destruct (sys_stat fs (_path c)) as [sc | ec];
    cbn [fst snd];
    repeat match goal with
           | |- _ /\ _ => split
           | |- _ <-> _ => split
           end;
    try (intros; discriminate); try reflexivity;
    try (intros; repeat rewrite ?andb_true_iff, ?Z.eqb_eq in *;
         repeat match goal with H : _ /\ _ |- _ => destruct H end;
         repeat split; congruence);
    try (intros; repeat rewrite ?andb_true_iff, ?Z.eqb_eq in *; lia).
  all: try (rewrite Z.eqb_sym, (Z.eqb_sym (st_ino _)), (Z.eqb_sym (st_size _)),
             (Z.eqb_sym (st_mtime _)); reflexivity).
  all: try (intros _; rewrite !Z.eqb_refl; reflexivity).
  all: try (intros; eexists; reflexivity).
  all: try (intros (st & H); discriminate).
  all: try (intros e' H; injection H as <-; reflexivity).
Qed.

End MoreOperationFacts.

Section ThrowingForms.

Context {os : OS}.

Local Open Scope Z_scope.

(** X20.  [file_size()] raises exactly when
    [::stat] fails, [last_write_time()] and [hard_link_count()] exactly
    when [::lstat] fails, each with the path and the error of the call;
    [remove()] raises exactly when [::remove] fails with an error other
    than [ENOENT]. *)
Theorem throwing_queries_raise (fs : fsys) (p : path) :
  (forall sb : stat_t,
      sys_stat fs (c_str p) = Ok sb ->
      file_size fs p = Returns (uintmax_wrap (st_size sb)))
  /\ (forall e : positive,
         sys_stat fs (c_str p) = Err e ->
         exists what : string,
           file_size fs p
           = Throws (FilesystemError what (Some p) None (Zpos e)))
  /\ (forall st : stat_t,
         sys_lstat fs (c_str p) = Ok st ->
         raised (last_write_time fs p) = false
         /\ raised (hard_link_count fs p) = false)
  /\ (forall e : positive,
         sys_lstat fs (c_str p) = Err e ->
         (exists what : string,
             last_write_time fs p
             = Throws (FilesystemError what (Some p) None (Zpos e)))
         /\ (exists what : string,
                hard_link_count fs p
                = Throws (FilesystemError what (Some p) None (Zpos e))))
  /\ (raised (snd (remove fs p)) = true
      <-> exists e : positive,
            e <> ENOENT /\ sys_remove fs (c_str p) = Err e).
Proof.
  split; [| split; [| split; [| split]]].
  - intros sb H. unfold file_size, file_size_ec. now rewrite H.
  - intros e H. unfold file_size, file_size_ec. rewrite H.
    eexists. reflexivity.
  - intros st H.
    unfold last_write_time, last_write_time_ec, hard_link_count,
      hard_link_count_ec, internal_status.
    rewrite H.
    destruct (file_type_eqb _ ft_symlink);
      [destruct (sys_stat fs (c_str p)) |];
      rewrite found_is_not_missing; split; reflexivity.
  - intros e H.
    unfold last_write_time, last_write_time_ec, hard_link_count,
      hard_link_count_ec, internal_status.
    rewrite H.
    destruct (Pos.eqb_spec e ENOENT) as [-> | He];
      cbn [type status_of_type file_type_eqb]; split; eexists; reflexivity.
  - unfold remove, remove_ec.
    destruct (sys_remove fs (c_str p)) as [fs' | e].
    + cbn. split; [discriminate |]. intros (e & _ & H). discriminate.
    + destruct (Pos.eqb_spec e ENOENT) as [-> | He]; cbn.
      * split; [discriminate |]. intros (e & He & H). congruence.
      * split; [| reflexivity]. intros _. now exists e.
Qed.

(** X21.  [impl::increment(ec)] does nothing
    on an iterator without stream.  Otherwise it reads past the entries
    ["."] and [".."]: it stops at the first other entry, whose path is
    the base path [/] the entry's name, with [ec] untouched; it becomes
    an end iterator with [ec] untouched at the end of the stream, which
    it closes; and it becomes an end iterator with the error in [ec]
    where reading fails. *)
Theorem directory_increment_skips_dots (i : impl) (ec : error_code) :
  let r := impl_increment i ec in
  match _dir i with
  | None => r = (i, ec)
  | Some stream =>
      match skip_dots stream with
      | [] =>
          not_at_end (fst r) = false /\ _dir (fst r) = None /\ snd r = ec
      | Ok name :: rest =>
          impl_current (fst r) = append Posix (_base i) (Path name)
          /\ _dir_entry (fst r)
             = DirectoryEntry (append Posix (_base i) (Path name))
          /\ _dir (fst r) = Some rest /\ snd r = ec
      | Err e :: rest =>
          not_at_end (fst r) = false /\ _dir (fst r) = Some rest
          /\ snd r = Zpos e
      end
  end.
Proof.
  intros r. subst r. unfold impl_increment.
  destruct (_dir i) as [stream |]; [| reflexivity].
  pose proof (impl_increment_loop_skips stream i ec) as H. cbv zeta in H.
  destruct (skip_dots stream) as [| [name | e] rest].
  - destruct H as (Hc & Hd & He). unfold not_at_end. rewrite Hc.
    repeat split; assumption.
  - exact H.
  - destruct H as (Hc & Hd & He). unfold not_at_end. rewrite Hc.
    repeat split; assumption.
Qed.

End ThrowingForms.

(* ===================================================================== *)
(** * Properties of [maths.h] *)

Section MathsFacts.

Context {N : Type} {number : Number N} {order : NumberOrder N}.

Lemma num_le_refl (a : N) : num_le a a.
Proof. apply num_lt_irrefl. Qed.

Lemma num_lt_cases (a b : N) :
  num_lt a b = true \/ a = b \/ num_lt b a = true.
Proof.
  destruct (num_lt a b) eqn:Hab; [now left |].
  destruct (num_lt b a) eqn:Hba; [now right; right |].
  right; left. now apply num_lt_total.
Qed.

Lemma num_lt_asym (a b : N) : num_lt a b = true -> num_lt b a = false.
Proof.
  intros H. destruct (num_lt b a) eqn:Hba; [| reflexivity].
  pose proof (num_lt_trans a b a H Hba) as Haa.
  rewrite num_lt_irrefl in Haa. discriminate.
Qed.

Lemma num_le_trans (a b c : N) : num_le a b -> num_le b c -> num_le a c.
Proof.
  unfold num_le. intros Hab Hbc.
  destruct (num_lt c a) eqn:Hca; [| reflexivity].
  destruct (num_lt_cases a b) as [H | [-> | H]]; try congruence.
  pose proof (num_lt_trans c a b Hca H). congruence.
Qed.

Lemma min_le_both (a b : N) :
  num_le (maths.min a b) a /\ num_le (maths.min a b) b
  /\ (maths.min a b = a \/ maths.min a b = b).
Proof.
  unfold maths.min, num_le.
  destruct (num_lt a b) eqn:H.
  - repeat split; [apply num_lt_irrefl | now apply num_lt_asym | now left].
  - repeat split; [exact H | apply num_lt_irrefl | now right].
Qed.

Lemma max_ge_both (a b : N) :
  num_le a (maths.max a b) /\ num_le b (maths.max a b)
  /\ (maths.max a b = a \/ maths.max a b = b).
Proof.
  unfold maths.max, num_le.
  destruct (num_lt b a) eqn:H.
  - repeat split; [apply num_lt_irrefl | now apply num_lt_asym | now left].
  - repeat split; [exact H | apply num_lt_irrefl | now right].
Qed.

(** X22.  For number types whose [operator<] is a strict total
    order: when [min <= max], [clamp(number, min, max)] lies between
    [min] and [max], and it is [number] itself when [number] lies
    between them; when [max < min] it is [max], whatever the number. *)
Theorem clamp_cases (number_ lo hi : N) :
  (num_le lo hi ->
   num_le lo (maths.clamp number_ lo hi)
   /\ num_le (maths.clamp number_ lo hi) hi
   /\ (num_le lo number_ -> num_le number_ hi ->
       maths.clamp number_ lo hi = number_))
  /\ (num_lt hi lo = true -> maths.clamp number_ lo hi = hi).
Proof.
  unfold maths.clamp, maths.min, maths.max, num_le. split.
  - intros Hlh.
    destruct (num_lt lo number_) eqn:H1;
      destruct (num_lt _ hi) eqn:H2; repeat split;
      try assumption; try apply num_lt_irrefl;
      try (now apply num_lt_asym);
      try (intros; congruence).
    + intros Hln Hnh. apply num_lt_total; assumption.
    + intros Hln Hnh. now apply num_lt_total.
    + intros Hln Hnh. pose proof (num_lt_total _ _ H1 Hln) as <-.
      now apply num_lt_total.
  - intros Hhl.
    destruct (num_lt lo number_) eqn:H1.
    + pose proof (num_lt_trans _ _ _ Hhl H1) as H.
      now rewrite (num_lt_asym _ _ H).
    + now rewrite (num_lt_asym _ _ Hhl).
Qed.

Lemma min_loop_spec :
  forall (numbers : list N) (m : N),
    exists r : N,
      maths.min_loop numbers (Some m) = Some r
      /\ (r = m \/ In r numbers)
      /\ num_le r m
      /\ (forall x : N, In x numbers -> num_le r x).
Proof.
  induction numbers as [| i rest IH]; intros m; cbn [maths.min_loop].
  - exists m. repeat split; [now left | apply num_le_refl |].
    intros x [].
  - destruct (IH (maths.min m i)) as (r & Hr & Hin & Hle & Hall).
    destruct (min_le_both m i) as (Hm & Hi & Hor).
    exists r. split; [exact Hr |]. split; [| split].
    + destruct Hin as [-> | Hin]; [| right; now right].
      destruct Hor as [-> | ->]; [now left | right; now left].
    + eapply num_le_trans; eassumption.
    + intros x [<- | Hx]; [eapply num_le_trans; eassumption | now apply Hall].
Qed.

Lemma max_loop_spec :
  forall (numbers : list N) (m : N),
    exists r : N,
      maths.max_loop numbers (Some m) = Some r
      /\ (r = m \/ In r numbers)
      /\ num_le m r
      /\ (forall x : N, In x numbers -> num_le x r).
Proof.
  induction numbers as [| i rest IH]; intros m; cbn [maths.max_loop].
  - exists m. repeat split; [now left | apply num_le_refl |].
    intros x [].
  - destruct (IH (maths.max m i)) as (r & Hr & Hin & Hle & Hall).
    destruct (max_ge_both m i) as (Hm & Hi & Hor).
    exists r. split; [exact Hr |]. split; [| split].
    + destruct Hin as [-> | Hin]; [| right; now right].
      destruct Hor as [-> | ->]; [now left | right; now left].
    + eapply num_le_trans; eassumption.
    + intros x [<- | Hx]; [eapply num_le_trans; eassumption | now apply Hall].
Qed.

(** X23.  For number types whose [operator<] is a strict total
    order: [min] and [max] of an empty list are [0]; of a non-empty list
    they are elements of the list, [min] at most and [max] at least
    every element. *)
Theorem min_max_list (numbers : list N) :
  (numbers = [] ->
   maths.min_list numbers = num_zero /\ maths.max_list numbers = num_zero)
  /\ (numbers <> [] ->
      In (maths.min_list numbers) numbers
      /\ In (maths.max_list numbers) numbers
      /\ forall x : N,
          In x numbers ->
          num_le (maths.min_list numbers) x
          /\ num_le x (maths.max_list numbers)).
Proof.
  split.
  - intros ->. split; reflexivity.
  - intros Hne. destruct numbers as [| i rest]; [now elim Hne |].
    unfold maths.min_list, maths.max_list.
    cbn [List.length Nat.eqb maths.min_loop maths.max_loop].
    destruct (min_loop_spec rest i) as (r & -> & Hin & Hle & Hall).
    destruct (max_loop_spec rest i) as (r' & -> & Hin' & Hle' & Hall').
    split; [| split].
    + destruct Hin as [-> | Hin]; [now left | now right].
    + destruct Hin' as [-> | Hin']; [now left | now right].
    + intros x [<- | Hx]; split; auto.
Qed.

End MathsFacts.

#[export] Instance Z_order : NumberOrder Z.
Proof.
  split; cbn.
  - apply Z.ltb_irrefl.
  - intros a b c Hab Hbc. apply Z.ltb_lt in Hab, Hbc. apply Z.ltb_lt. lia.
  - intros a b Hab Hba. apply Z.ltb_ge in Hab, Hba. lia.
Qed.

(* ===================================================================== *)
(** * [time_from_FILETIME] *)

(** X24.  For a [FILETIME] of two 32-bit halves,
    [time_from_FILETIME] is the count of whole seconds
    [QuadPart / 10000000] less the [11644473600] seconds between
    1601-01-01 and 1970-01-01, as a signed number: it is negative
    exactly for the times before 1970-01-01, where the unsigned
    subtraction wraps around, and it is monotone in the [FILETIME]. *)
Theorem time_from_FILETIME_seconds (ft ft' : FILETIME) :
  (0 <= dwLowDateTime ft < 2 ^ 32)%Z ->
  (0 <= dwHighDateTime ft < 2 ^ 32)%Z ->
  (0 <= dwLowDateTime ft' < 2 ^ 32)%Z ->
  (0 <= dwHighDateTime ft' < 2 ^ 32)%Z ->
  (time_from_FILETIME ft = QuadPart ft / 10000000 - 11644473600
   /\ (0 <= time_from_FILETIME ft <-> 116444736000000000 <= QuadPart ft)
   /\ (QuadPart ft <= QuadPart ft' ->
       time_from_FILETIME ft <= time_from_FILETIME ft'))%Z.
Proof.
  intros Hl Hh Hl' Hh'.
  assert (Hval : forall f : FILETIME,
             (0 <= dwLowDateTime f < 2 ^ 32 ->
              0 <= dwHighDateTime f < 2 ^ 32 ->
              time_from_FILETIME f
              = QuadPart f / 10000000 - 11644473600)%Z).
  { intros f Hfl Hfh. unfold time_from_FILETIME, time_t_of_u64, uintmax_wrap.
    assert (Hq : (0 <= QuadPart f < 2 ^ 64)%Z) by (unfold QuadPart; lia).
    assert (Hd : (0 <= QuadPart f / 10000000 < 2 ^ 63 - 2 ^ 62)%Z).
    { split; [apply Z.div_pos; lia |].
      apply Z.div_lt_upper_bound; lia. }
    set (z := (QuadPart f / 10000000 - 11644473600)%Z) in *.
    assert (Hz : (- 2 ^ 63 <= z < 2 ^ 63)%Z) by (unfold z; lia).
    rewrite Zplus_mod_idemp_l.
    rewrite Z.mod_small by lia. lia. }
  rewrite (Hval ft Hl Hh), (Hval ft' Hl' Hh').
  split; [reflexivity |]. split.
  - split; intros H.
    + assert (Hge : (11644473600 <= QuadPart ft / 10000000)%Z) by lia.
      pose proof (Z.mul_div_le (QuadPart ft) 10000000) as Hm. lia.
    + assert (Hge : (11644473600 <= QuadPart ft / 10000000)%Z).
      { apply Z.div_le_lower_bound; lia. }
      lia.
  - intros Hle.
    pose proof (Z.div_le_mono (QuadPart ft) (QuadPart ft') 10000000).
    lia.
Qed.

(* ===================================================================== *)
(** * [to_absolute] and [temp_directory_path] *)

Section EnvironmentFacts.

Context {os : OS} {env : Environment}.

(** X25.  [to_absolute()] returns an absolute path as it
    is, without a call to the system.  For any other path it returns
    what [realpath] resolves it to, and where [realpath] fails it raises
    with the path and the error, the form with a code returning the
    empty path.  Where [realpath] gives absolute names, the result is
    absolute and [to_absolute()] returns it unchanged. *)
Theorem to_absolute_cases (fs : fsys) (p : path) :
  (is_absolute Posix p = true -> to_absolute fs p = Returns p)
  /\ (forall r : string,
         is_absolute Posix p = false ->
         sys_realpath fs (c_str p) = Ok r ->
         to_absolute fs p = Returns (Path r))
  /\ (forall e : positive,
         is_absolute Posix p = false ->
         sys_realpath fs (c_str p) = Err e ->
         to_absolute_ec fs p = (Path "", Zpos e)
         /\ to_absolute fs p
            = Throws (FilesystemError
                        ("path::to_absolute -- "
                         ++ get_error_message (Zpos e))
                        (Some p) None (Zpos e)))
  /\ ((forall (q : path) (r : string),
          sys_realpath fs (c_str q) = Ok r ->
          is_absolute Posix (Path r) = true) ->
      forall q : path,
        to_absolute fs p = Returns q ->
        is_absolute Posix q = true /\ to_absolute fs q = Returns q).
Proof.
  unfold to_absolute, to_absolute_ec. split; [| split; [| split]].
  - intros ->. reflexivity.
  - intros r -> ->. reflexivity.
  - intros e -> ->. split; reflexivity.
  - intros Hreal q.
    destruct (is_absolute Posix p) eqn:Hp.
    + intros H. assert (E : p = q) by (cbn in H; congruence). subst q.
      rewrite Hp. split; reflexivity.
    + destruct (sys_realpath fs (c_str p)) as [r | e] eqn:Hr;
        [| discriminate].
      intros H. assert (E : Path r = q) by (cbn in H; congruence). subst q.
      rewrite (Hreal p r Hr). split; reflexivity.
Qed.

(** X26.  [temp_directory_path()] never raises and
    the form with a code leaves it clear.  The result is the value of
    the first variable that is set among [TMPDIR], [TMP], [TEMP] and
    [TEMPDIR], in this order and as it is, be it empty, and ["/tmp"]
    when none of them is set. *)
Theorem temp_directory_path_cases :
  temp_directory_path = Returns (fst temp_directory_path_ec)
  /\ snd temp_directory_path_ec = ec_clear
  /\ fst temp_directory_path_ec
     = match sys_getenv "TMPDIR", sys_getenv "TMP", sys_getenv "TEMP",
             sys_getenv "TEMPDIR" with
       | Some v, _, _, _ => Path v
       | None, Some v, _, _ => Path v
       | None, None, Some v, _ => Path v
       | None, None, None, Some v => Path v
       | None, None, None, None => Path "/tmp"
       end.
Proof.
  unfold temp_directory_path, temp_directory_path_ec, temp_vars.
  cbn [temp_loop].
  destruct (sys_getenv "TMPDIR"); [repeat split |].
  destruct (sys_getenv "TMP"); [repeat split |].
  destruct (sys_getenv "TEMP"); [repeat split |].
  destruct (sys_getenv "TEMPDIR"); repeat split.
Qed.

End EnvironmentFacts.

(* ===================================================================== *)
(** * The further properties on concrete inputs *)

(** [/k] of [small_tree] is a link to the regular file [/f], and [/l] a
    link to nothing. *)
Lemma symbolic_link_status_witness :
  path_is_symlink Examples.small_tree (Path "/k") = false
  /\ path_is_file Examples.small_tree (Path "/k") = true
  /\ path_is_symlink Examples.small_tree (Path "/l") = true
  /\ exists_ Examples.small_tree (Path "/l") = false
  /\ symlink_status Examples.small_tree (Path "/l")
     = (FileStatus ft_not_found perms_unknown, Zpos ENOENT).
Proof.
  destruct (symbolic_link_status
              (os := tree_os) Examples.small_tree (Path "/k")
              (TreeFS.stat_of (TreeFS.link 5 "/f")) eq_refl eq_refl)
    as [Hk _].
  destruct (Hk (TreeFS.stat_of (TreeFS.file 2)) eq_refl)
    as (_ & _ & _ & Hk1 & _ & Hk2).
  destruct (symbolic_link_status
              (os := tree_os) Examples.small_tree (Path "/l")
              (TreeFS.stat_of (TreeFS.link 4 "/nowhere")) eq_refl eq_refl)
    as [_ Hl].
  destruct (Hl ENOENT eq_refl) as (_ & Hl1 & Hl2 & Hl3 & _).
  split; [exact Hk1 |]. split; [exact Hk2 |]. split; [exact Hl3 |].
  split; [exact Hl2 | exact Hl1].
Defined.

Lemma symbolic_link_metadata_witness :
  hard_link_count_ec Examples.small_tree (Path "/l") = (1%Z, ec_clear)
  /\ file_size_ec Examples.small_tree (Path "/l")
     = (uintmax_unknown, Zpos ENOENT).
Proof.
  destruct (symbolic_link_metadata
              (os := tree_os) Examples.small_tree (Path "/l")
              (TreeFS.stat_of (TreeFS.link 4 "/nowhere")) eq_refl eq_refl)
    as [_ Hl].
  destruct (Hl ENOENT eq_refl) as (_ & Hn & Hs).
  split; [exact Hn | exact Hs].
Defined.

(** The regular file [f] of [small_tree] is in the way of [mkdirs]. *)
Lemma mkdirs_plain_name_witness :
  mkdirs_ec Examples.small_tree (Path "f")
  = (Examples.small_tree, false, ec_clear).
Proof.
  exact (mkdirs_plain_name (os := tree_os) Examples.small_tree "f"
                           (plain_nameb_true Posix "f" eq_refl)).
Defined.

(** [/f] of [small_tree] is no directory: [remove_all(ec)] on [/f/x]
    fails with [ENOTDIR]. *)
Lemma remove_all_sentinel_witness :
  exists (fs' : TreeFS.node) (n : Z),
    remove_all_ec 1 Examples.small_tree (Path "/f/x")
    = Some (fs', n, Zpos ENOTDIR)
    /\ n = uintmax_unknown.
Proof.
  eexists. eexists. split; [reflexivity |].
  apply (proj1 (remove_all_sentinel (os := tree_os) 1 Examples.small_tree
                                    (Path "/f/x") _ _ _ eq_refl)).
  reflexivity.
Defined.

Lemma clamp_cases_witness :
  maths.clamp 15%Z 0%Z 10%Z = 10%Z /\ maths.clamp 5%Z 0%Z 10%Z = 5%Z
  /\ maths.clamp 5%Z 10%Z 0%Z = 0%Z.
Proof.
  split; [| split].
  - reflexivity.
  - apply (proj1 (clamp_cases (N := Z) 5%Z 0%Z 10%Z)); reflexivity.
  - apply (proj2 (clamp_cases (N := Z) 5%Z 10%Z 0%Z)). reflexivity.
Defined.

Lemma min_max_list_witness :
  In (maths.min_list [3; 1; 2]%Z) [3; 1; 2]%Z
  /\ num_le (maths.min_list [3; 1; 2]%Z) 2%Z
  /\ num_le 2%Z (maths.max_list [3; 1; 2]%Z).
Proof.
  destruct (proj2 (min_max_list (N := Z) [3; 1; 2]%Z)) as (Hmin & _ & Hall).
  - discriminate.
  - split; [exact Hmin |]. apply Hall. right; right; left; reflexivity.
Defined.

(** 1970-01-01 as a [FILETIME], and the [FILETIME] zero. *)
Lemma time_from_FILETIME_seconds_witness :
  time_from_FILETIME (FileTime 3577643008 27111902) = 0%Z
  /\ time_from_FILETIME (FileTime 0 0) = (-11644473600)%Z.
Proof.
  assert (Hl : (0 <= 3577643008 < 2 ^ 32)%Z) by (split; [discriminate | reflexivity]).
  assert (Hh : (0 <= 27111902 < 2 ^ 32)%Z) by (split; [discriminate | reflexivity]).
  assert (H0 : (0 <= 0 < 2 ^ 32)%Z) by (split; [discriminate | reflexivity]).
  split.
  - exact (proj1 (time_from_FILETIME_seconds
                    (FileTime 3577643008 27111902) (FileTime 0 0)
                    Hl Hh H0 H0)).
  - exact (proj1 (time_from_FILETIME_seconds
                    (FileTime 0 0) (FileTime 0 0) H0 H0 H0 H0)).
Defined.
